(** * quick-gate: the gate runner, the edit-plan adapter and the bounded repair loop

    A shallow embedding of [src/gates.js], [src/run-command.js],
    [src/model-adapter.js], [src/deterministic-prefix.js], [src/config.js]
    and [src/repair-command.js].

    Conventions of the embedding.
    - JSON documents read from disk (package.json, quick-gate.config.json,
      the Lighthouse assertion results, model output) are values of [JS.value];
      numbers are the integers plus [NaN] (fractions and infinities are not
      represented).
    - Everything the tool does not implement itself is a field of [Host]:
      the JavaScript built-ins ([JSON.parse], [new URL], number/string
      conversion, [path.join]), the clock, the child processes and the two
      JSON schemas.
    - Effects are threaded through the monad [M]: a state holding the files of
      the project, the three JSON artifacts the loop reads and writes, the
      external world, and a ghost history of the effects performed; a
      computation either returns or throws.
    - What the file system and the process layer of Node refuse is modelled
      where decoded data reaches them: reading a directory (EISDIR), a
      command line that is not a string or holds a NUL character, a timeout
      that is not an unsigned integer. Failures of the machine itself (a
      full disk, a file that may not be read) are not. *)

From Stdlib Require Import ZArith Bool Ascii String.
From stdpp Require Import base option list strings gmap fin_maps.

#[local] Set Warnings "-register-all".

Open Scope string_scope.
Open Scope list_scope.
Open Scope Z_scope.

(* ===================================================================== *)
(** ** JavaScript values *)
(* ===================================================================== *)

Module JS.

(** Numbers: the integers and NaN. *)
Inductive num : Type :=
| NaN
| Int (z : Z).

(** Values as [JSON.parse] yields them, and [undefined]. The fields of an
    object are listed once per key. *)
Inductive value : Type :=
| VUndefined
| VNull
| VBool (b : bool)
| VNum (n : num)
| VStr (s : string)
| VArr (xs : list value)
| VObj (fields : list (string * value)).

(** [a > b], [a >= b], [a <= b], [a < b]: false as soon as one side is NaN. *)
Definition gt (a b : num) : bool :=
  match a, b with Int x, Int y => y <? x | _, _ => false end.
Definition ge (a b : num) : bool :=
  match a, b with Int x, Int y => y <=? x | _, _ => false end.
Definition le (a b : num) : bool :=
  match a, b with Int x, Int y => x <=? y | _, _ => false end.
Definition lt (a b : num) : bool :=
  match a, b with Int x, Int y => x <? y | _, _ => false end.

(** [Number.isInteger]. *)
Definition isInteger (n : num) : bool :=
  match n with Int _ => true | NaN => false end.

(** Truthiness, as tested by [if (v)], [!v], [a || b]. *)
Definition truthy (v : value) : bool :=
  match v with
  | VUndefined | VNull => false
  | VBool b => b
  | VNum NaN => false
  | VNum (Int z) => negb (z =? 0)
  | VStr s => negb (String.eqb s "")
  | VArr _ | VObj _ => true
  end.

(** [a || b] *)
Definition or (a b : value) : value := if truthy a then a else b.

(** [a ?? b] *)
Definition nullish (a b : value) : value :=
  match a with VUndefined | VNull => b | _ => a end.

Fixpoint assoc (k : string) (fields : list (string * value)) : value :=
  match fields with
  | [] => VUndefined
  | (k', v) :: rest => if String.eqb k k' then v else assoc k rest
  end.

(** [v.k] / [v[k]] for a key that no prototype defines (the code only uses
    such keys): [None] is the TypeError raised on [null] and [undefined]. *)
Definition prop (v : value) (k : string) : option value :=
  match v with
  | VUndefined | VNull => None
  | VObj fields => Some (assoc k fields)
  | _ => Some VUndefined
  end.

(** [Array.isArray] *)
Definition isArray (v : value) : bool :=
  match v with VArr _ => true | _ => false end.

(** [String(v)], over the primitive conversion of a number to a string, for
    a value that [converts] (see below). *)
Fixpoint ToString (NumberToString : num -> string) (v : value) : string :=
  match v with
  | VUndefined => "undefined"
  | VNull => "null"
  | VBool true => "true"
  | VBool false => "false"
  | VNum n => NumberToString n
  | VStr s => s
  | VArr xs =>
      String.concat ","
        (map (fun x => match x with
                       | VUndefined | VNull => ""
                       | _ => ToString NumberToString x
                       end) xs)
  | VObj _ => "[object Object]"
  end.

(** [Number(v)], over the primitive conversion of a string to a number, for
    a value that [converts]. *)
Definition ToNumber (StringToNumber : string -> num)
    (NumberToString : num -> string) (v : value) : num :=
  match v with
  | VUndefined => NaN
  | VNull => Int 0
  | VBool true => Int 1
  | VBool false => Int 0
  | VNum n => n
  | VStr s => StringToNumber s
  | VArr _ | VObj _ => StringToNumber (ToString NumberToString v)
  end.

(** Whether [String(v)] and [Number(v)] return at all. A decoded object is
    converted by [Object.prototype.toString] unless it has a key [toString]
    of its own: no decoded value is callable, and both conversions then throw
    a TypeError. An array converts each of its entries. [ToString] and
    [ToNumber] above give the result when the conversion returns. *)
Fixpoint converts (v : value) : bool :=
  match v with
  | VArr xs => forallb converts xs
  | VObj fields => negb (existsb (fun kv => String.eqb (fst kv) "toString") fields)
  | _ => true
  end.

End JS.

(* ===================================================================== *)
(** ** Text: splitting on [/\r?\n/] and joining with ["\n"] *)
(* ===================================================================== *)

Module Text.

Definition LF : ascii := ascii_of_nat 10.
Definition CR : ascii := ascii_of_nat 13.
Definition lf : string := String LF EmptyString.
Definition crlf : string := String CR (String LF EmptyString).

Definition is_lf (c : ascii) : bool := Ascii.eqb c LF.
Definition is_cr (c : ascii) : bool := Ascii.eqb c CR.

(** [c] prepended to the first line of [ls]. *)
Definition cons_first (c : ascii) (ls : list string) : list string :=
  match ls with
  | l :: rest => String c l :: rest
  | [] => [String c EmptyString]
  end.

(** [s.split(/\r?\n/)]: scanning from the left, a line feed, or a carriage
    return immediately followed by a line feed, ends the current line. *)
Fixpoint split_lines (s : string) : list string :=
  match s with
  | EmptyString => [EmptyString]
  | String c rest =>
      if is_lf c then EmptyString :: split_lines rest
      else
        match rest with
        | String c' rest' =>
            if is_cr c && is_lf c' then EmptyString :: split_lines rest'
            else cons_first c (split_lines rest)
        | EmptyString => cons_first c (split_lines rest)
        end
  end.

(** [ls.join("\n")] *)
Definition join_lines (ls : list string) : string := String.concat lf ls.

(** [s.replace(/\r?\n/g, "\n")]: the text with every CRLF turned into LF. *)
Fixpoint crlf_to_lf (s : string) : string :=
  match s with
  | EmptyString => EmptyString
  | String c rest =>
      match rest with
      | String c' rest' =>
          if is_cr c && is_lf c' then String LF (crlf_to_lf rest')
          else String c (crlf_to_lf rest)
      | EmptyString => String c EmptyString
      end
  end.

(** Number of line feeds in a text. *)
Fixpoint count_lf (s : string) : nat :=
  match s with
  | EmptyString => 0%nat
  | String c rest => ((if is_lf c then 1 else 0) + count_lf rest)%nat
  end.

(** No line feed occurs in the text. *)
Definition no_lf (s : string) : Prop := count_lf s = 0%nat.

(** Number of carriage returns in a text, and of those among them that are
    not followed by a line feed. *)
Fixpoint count_cr (s : string) : nat :=
  match s with
  | EmptyString => 0%nat
  | String c rest => ((if is_cr c then 1 else 0) + count_cr rest)%nat
  end.

Fixpoint stray_cr (s : string) : nat :=
  match s with
  | EmptyString => 0%nat
  | String c rest =>
      match rest with
      | String c' _ => ((if is_cr c && negb (is_lf c') then 1 else 0) + stray_cr rest)%nat
      | EmptyString => if is_cr c then 1%nat else 0%nat
      end
  end.

(** No carriage return occurs in the text. *)
Definition no_cr (s : string) : Prop := count_cr s = 0%nat.

End Text.

(** *** Facts about splitting and joining *)

Section TextFacts.
Import Text.

(** Induction over a text two characters at a time, the way [split_lines]
    and [crlf_to_lf] look ahead. *)
Lemma string_ind2 (P : string -> Prop) :
  P EmptyString ->
  (forall c, P (String c EmptyString)) ->
  (forall c c' r, P r -> P (String c' r) -> P (String c (String c' r))) ->
  forall s, P s.
Proof.
  intros H0 H1 H2.
  assert (Hboth : forall s, P s /\ forall c, P (String c s)).
  { induction s as [|c' r [IHr IHc]].
    - split; [exact H0 | exact H1].
    - split; [apply IHc | intros c; apply H2; [exact IHr | apply IHc]]. }
  intros s. apply Hboth.
Qed.

Lemma split_lines_step c c' r :
  split_lines (String c (String c' r)) =
  if is_lf c then EmptyString :: split_lines (String c' r)
  else if is_cr c && is_lf c' then EmptyString :: split_lines r
       else cons_first c (split_lines (String c' r)).
Proof. reflexivity. Qed.

Lemma crlf_to_lf_step c c' r :
  crlf_to_lf (String c (String c' r)) =
  if is_cr c && is_lf c' then String LF (crlf_to_lf r)
  else String c (crlf_to_lf (String c' r)).
Proof. reflexivity. Qed.

Lemma count_lf_step c r :
  count_lf (String c r) = ((if is_lf c then 1 else 0) + count_lf r)%nat.
Proof. reflexivity. Qed.

Lemma cons_first_length c ls :
  ls <> [] -> length (cons_first c ls) = length ls.
Proof. destruct ls; [congruence | reflexivity]. Qed.

Lemma split_lines_length s : length (split_lines s) = S (count_lf s).
Proof.
  induction s as [| c | c c' r IHr IHc'] using string_ind2.
  - reflexivity.
  - cbn. destruct (is_lf c); reflexivity.
  - rewrite split_lines_step, (count_lf_step c).
    destruct (is_lf c) eqn:Hc.
    + rewrite length_cons, IHc'. reflexivity.
    + destruct (is_cr c && is_lf c') eqn:Hcc.
      * apply andb_true_iff in Hcc as [_ Hl].
        rewrite length_cons, IHr, count_lf_step, Hl. reflexivity.
      * rewrite cons_first_length; [exact IHc'|].
        intros Hnil. rewrite Hnil in IHc'. discriminate.
Qed.

Lemma split_lines_nonempty s : split_lines s <> [].
Proof.
  intros H. pose proof (split_lines_length s) as Hl.
  rewrite H in Hl. discriminate.
Qed.

Lemma cons_first_no_lf c ls :
  is_lf c = false -> Forall no_lf ls -> Forall no_lf (cons_first c ls).
Proof.
  intros Hc Hls. destruct ls as [|l rest]; cbn.
  - constructor; [|constructor]. unfold no_lf. cbn. rewrite Hc. reflexivity.
  - inversion Hls; subst. constructor; [|assumption].
    unfold no_lf in *. cbn. rewrite Hc. assumption.
Qed.

(** A line produced by the splitter holds no line feed. *)
Lemma split_lines_no_lf s : Forall no_lf (split_lines s).
Proof.
  induction s as [| c | c c' r IHr IHc'] using string_ind2.
  - repeat constructor.
  - cbn. destruct (is_lf c) eqn:Hc.
    + repeat constructor.
    + constructor; [|constructor]. unfold no_lf. cbn. rewrite Hc. reflexivity.
  - rewrite split_lines_step. destruct (is_lf c) eqn:Hc.
    + constructor; [reflexivity | exact IHc'].
    + destruct (is_cr c && is_lf c').
      * constructor; [reflexivity | exact IHr].
      * apply cons_first_no_lf; assumption.
Qed.

Lemma join_lines_cons x ls :
  ls <> [] -> join_lines (x :: ls) = x +:+ lf +:+ join_lines ls.
Proof. destruct ls; [congruence | reflexivity]. Qed.

Lemma join_lines_cons_first c ls :
  ls <> [] -> join_lines (cons_first c ls) = String c (join_lines ls).
Proof.
  destruct ls as [|l [|l' rest]]; [congruence | reflexivity | reflexivity].
Qed.

(** Splitting and joining again is the text with every CRLF made LF. *)
Lemma join_split_lines s : join_lines (split_lines s) = crlf_to_lf s.
Proof.
  induction s as [| c | c c' r IHr IHc'] using string_ind2.
  - reflexivity.
  - cbn. destruct (is_lf c) eqn:Hc; [|reflexivity].
    apply Ascii.eqb_eq in Hc. subst c. reflexivity.
  - rewrite split_lines_step, crlf_to_lf_step. destruct (is_lf c) eqn:Hc.
    + apply Ascii.eqb_eq in Hc. subst c.
      replace (is_cr LF) with false by reflexivity. cbn [andb].
      rewrite join_lines_cons by apply split_lines_nonempty.
      rewrite IHc'. reflexivity.
    + destruct (is_cr c && is_lf c') eqn:Hcc.
      * rewrite join_lines_cons by apply split_lines_nonempty.
        rewrite IHr. reflexivity.
      * rewrite join_lines_cons_first by apply split_lines_nonempty.
        rewrite IHc'. reflexivity.
Qed.

Lemma count_lf_app a b : count_lf (a +:+ b) = (count_lf a + count_lf b)%nat.
Proof.
  induction a as [|c a IH]; [reflexivity|].
  change (String c a +:+ b) with (String c (a +:+ b)).
  rewrite !count_lf_step, IH. lia.
Qed.

(** Joining lines that hold no line feed puts exactly one between
    neighbours. *)
Lemma count_lf_join ls :
  Forall no_lf ls -> count_lf (join_lines ls) = pred (length ls).
Proof.
  induction ls as [|x ls IH]; intros Hls; [reflexivity|].
  inversion Hls as [|? ? Hx Hrest]; subst.
  destruct ls as [|y ls'].
  - cbn. exact Hx.
  - rewrite join_lines_cons by discriminate.
    rewrite !count_lf_app, Hx, IH by assumption. reflexivity.
Qed.

(** Reading back what was joined gives as many lines as were written. *)
Lemma split_join_length ls :
  ls <> [] -> Forall no_lf ls ->
  length (split_lines (join_lines ls)) = length ls.
Proof.
  intros Hne Hls. rewrite split_lines_length, count_lf_join by assumption.
  destruct ls; [congruence | reflexivity].
Qed.

Lemma stray_cr_step c c' r :
  stray_cr (String c (String c' r))
  = ((if is_cr c && negb (is_lf c') then 1 else 0) + stray_cr (String c' r))%nat.
Proof. reflexivity. Qed.

Lemma stray_cr_after_lf c r : is_lf c = true -> stray_cr (String c r) = stray_cr r.
Proof.
  intros Hc. apply Ascii.eqb_eq in Hc. subst c. destruct r; reflexivity.
Qed.

Lemma cons_first_no_cr c ls :
  is_cr c = false -> Forall no_cr ls -> Forall no_cr (cons_first c ls).
Proof.
  intros Hc Hls. destruct ls as [|l rest]; cbn.
  - constructor; [|constructor]. unfold no_cr. cbn. rewrite Hc. reflexivity.
  - inversion Hls; subst. constructor; [|assumption].
    unfold no_cr in *. cbn. rewrite Hc. assumption.
Qed.

(** When every carriage return of a text is followed by a line feed, the
    lines of the text hold no carriage return: each CRLF went with the
    split. *)
Lemma split_lines_no_cr s : stray_cr s = 0%nat -> Forall no_cr (split_lines s).
Proof.
  induction s as [| c | c c' r IHr IHc'] using string_ind2; intros Hs.
  - repeat constructor.
  - cbn in Hs. cbn. destruct (is_cr c) eqn:Hc; [discriminate|].
    destruct (is_lf c); repeat constructor. unfold no_cr. cbn. rewrite Hc. reflexivity.
  - rewrite stray_cr_step in Hs. rewrite split_lines_step.
    destruct (is_lf c) eqn:Hlf.
    + constructor; [reflexivity|]. apply IHc'. lia.
    + destruct (is_cr c) eqn:Hcr; destruct (is_lf c') eqn:Hlf'; cbn [andb negb] in *.
      * constructor; [reflexivity|]. apply IHr.
        rewrite <- (stray_cr_after_lf c' r Hlf'). lia.
      * discriminate.
      * apply cons_first_no_cr; [exact Hcr | apply IHc'; lia].
      * apply cons_first_no_cr; [exact Hcr | apply IHc'; lia].
Qed.

Lemma count_cr_app a b : count_cr (a +:+ b) = (count_cr a + count_cr b)%nat.
Proof.
  induction a as [|c a IH]; [reflexivity|].
  change (String c a +:+ b) with (String c (a +:+ b)).
  cbn [count_cr]. rewrite IH. lia.
Qed.

(** A text without carriage return has no stray one. *)
Lemma no_cr_stray s : no_cr s -> stray_cr s = 0%nat.
Proof.
  unfold no_cr. induction s as [|c r IH]; [reflexivity|].
  cbn [count_cr]. intros Hs. destruct (is_cr c) eqn:Hc; [cbn in Hs; lia|].
  cbn in Hs. specialize (IH Hs). destruct r as [|c' r']; cbn [stray_cr].
  - rewrite Hc. reflexivity.
  - rewrite Hc. exact IH.
Qed.

(** Joining lines without carriage return gives a text without any. *)
Lemma no_cr_join ls : Forall no_cr ls -> no_cr (join_lines ls).
Proof.
  unfold no_cr. induction 1 as [|x rest Hx Hrest IH]; [reflexivity|].
  destruct rest as [|y rest'].
  - exact Hx.
  - rewrite join_lines_cons by discriminate.
    rewrite !count_cr_app, Hx, IH. reflexivity.
Qed.

End TextFacts.

(* ===================================================================== *)
(** ** Data model *)
(* ===================================================================== *)

Inductive Gate : Type := lint | typecheck | build | lighthouse.

Definition gate_name (g : Gate) : string :=
  match g with
  | lint => "lint"
  | typecheck => "typecheck"
  | build => "build"
  | lighthouse => "lighthouse"
  end.

Definition gate_eqb (a b : Gate) : bool :=
  match a, b with
  | lint, lint | typecheck, typecheck | build, build | lighthouse, lighthouse => true
  | _, _ => false
  end.

(** Status of a run and of a rerun: ['pass'] or ['fail']. *)
Inductive Status : Type := pass | fail.

Inductive GateStatus : Type := gate_pass | gate_fail | gate_skipped.

Inductive Severity : Type := high | critical.

(** A finding. Of the source's fields, [summary], [actual], [threshold],
    [status] (always ['fail']) and [raw] are left out: nothing modelled here
    reads them. *)
Record Finding : Type := {
  f_id : string;
  f_gate : Gate;
  f_severity : Severity;
  f_files : option (list string);
  f_route : option string;
  f_metric : option string
}.

Record GateResult : Type := {
  g_name : Gate;
  g_status : GateStatus
}.

(** Policy of the model adapters (getModelRoutingPolicy). *)
Record ModelPolicy : Type := {
  hintModel : string;
  patchModel : string;
  hintOnly : list string;
  allowHintOnlyPatch : bool;
  timeoutMs : JS.num
}.

(** failures.json. Of the source's fields, [version], [run_id], [timestamp],
    [repo], [branch] and [inferred_hints] are left out. *)
Record FailuresReport : Type := {
  mode : string;
  status : Status;
  changed_files : list string;
  gates : list GateResult;
  findings : list Finding
}.

(** What a model is asked: the two prompts are built from the failure
    context (the findings and changed files of the report, and the snippets
    read from the first changed files), the retry prompt from the allowed
    files and the rejected output. *)
Inductive Prompt : Type :=
| HintPrompt (failures : FailuresReport) (file_context : list (string * string))
| PatchPrompt (failures : FailuresReport) (file_context : list (string * string))
| RetryPrompt (allowed_files : list string) (previous_output : string).

(** The shell commands the tool spawns. Each constructor stands for the
    command line the source assembles. *)
Inductive Command : Type :=
| Shell (command : string)
| GitRemoteUrl
| GitBranch
| GitDiffNumstat
| Backup (attempt : Z) (rsync : bool)
| Restore (attempt : Z) (rsync : bool)
| EslintFixProblem (files : list string)
| OllamaRun (model : string) (prompt : Prompt) (timeout : JS.num).

(** What runCommand returns ([started_at], [duration_ms] and [cwd] left out). *)
Record CommandTrace : Type := {
  command : Command;
  exit_code : Z;
  timed_out : bool;
  stdout : string;
  stderr : string
}.

(** What a child process reports. *)
Record SpawnResult : Type := {
  sp_exit_code : Z;
  sp_timed_out : bool;
  sp_stdout : string;
  sp_stderr : string
}.

Record Edit : Type := {
  file : string;
  start_line : Z;
  end_line : Z;
  replacement : string
}.

Record EditPlan : Type := {
  summary : string;
  edits : list Edit
}.

Inductive CallFailure : Type :=
| missing_model | model_command_timeout | model_command_failed.

Inductive ApplyFailure : Type :=
| missing_file (p : string)
| invalid_line_range (p : string) (s e : Z).

(** Result of the hint adapter. *)
Inductive HintResult : Type :=
| HintFailed (reason : CallFailure)
| HintAccepted (hints : list JS.value).

(** Result of the patch adapter, one constructor per return statement of
    runPatchModel. *)
Inductive PatchResult : Type :=
| PatchHintOnly
| PatchCallFailed (reason : CallFailure)
| PatchInvalidJson (output_excerpt : string)
| PatchOutOfScope (out_of_scope_files : list string) (proposal : EditPlan)
| PatchBudgetExceeded (predicted_lines : Z) (max_patch_lines : JS.num)
| PatchScoreTooLow (score100 : Z) (touched_files : list string) (proposal : EditPlan)
| PatchApplyFailed (details : ApplyFailure) (proposal : EditPlan)
| PatchAccepted (score100 : Z) (patch_lines : Z) (touched_files : list string)
    (proposal : EditPlan).

(** The fields [attempted], [accepted] and [reason] of a patch result. *)
Definition patch_attempted (r : PatchResult) : bool :=
  match r with PatchHintOnly => false | _ => true end.

Definition patch_accepted (r : PatchResult) : bool :=
  match r with PatchAccepted _ _ _ _ => true | _ => false end.

Definition patch_reason (r : PatchResult) : option string :=
  match r with
  | PatchHintOnly => Some "patch_model_is_hint_only"
  | PatchCallFailed missing_model => Some "missing_model"
  | PatchCallFailed model_command_timeout => Some "model_command_timeout"
  | PatchCallFailed model_command_failed => Some "model_command_failed"
  | PatchInvalidJson _ => Some "invalid_edit_plan_json"
  | PatchOutOfScope _ _ => Some "file_out_of_scope"
  | PatchBudgetExceeded _ _ => Some "patch_budget_exceeded"
  | PatchScoreTooLow _ _ _ => Some "diff_score_too_low"
  | PatchApplyFailed _ _ => Some "apply_plan_failed"
  | PatchAccepted _ _ _ _ => None
  end.

(** Entries of an attempt's [actions] list. *)
Inductive Action : Type :=
| LintProblemAutofix (accepted : bool) (exit : Z) (files : list string)
| DeterministicPrefixRerun (rerun : Status) (findings_after_rerun : Z)
| DeterministicOnlyMode
| RequiresManualOrModelPatch
| SkipModelPatch (gates_failing : list Gate)
| OllamaHint (r : HintResult)
| OllamaPatchPlan (r : PatchResult).

Record AttemptRecord : Type := {
  attempt : Z;
  patch_lines : Z;
  before_findings : Z;
  after_findings : Z;
  improved : bool;
  worsened : bool;
  attempt_status : Status;
  actions : list Action
}.

Inductive EscalationCode : Type :=
| NO_IMPROVEMENT
| PATCH_BUDGET_EXCEEDED
| ARCHITECTURAL_CHANGE_REQUIRED
| FLAKY_EVALUATOR
| UNKNOWN_BLOCKER.

(** The four messages an escalation can carry. *)
Inductive EscalationMessage : Type :=
| TimeCapReached (timeCapMs : JS.num)
| PatchBudgetExceededAt (attempt : Z) (patchLines : Z) (maxPatchLines : JS.num)
| NoMeasurableImprovement (noImprovement : Z)
| AttemptsExhausted (maxAttempts : JS.num).

(** repair-report.json: [status] is always ['pass']. *)
Record RepairReport : Type := {
  attempts : list AttemptRecord
}.

(** escalation.json: [status] is always ['escalated']; [evidence_attempts]
    is the attempts log carried by a NO_IMPROVEMENT escalation. *)
Record Escalation : Type := {
  reason_code : EscalationCode;
  message : EscalationMessage;
  evidence_attempts : option (list AttemptRecord)
}.

(** What executeRepair returns. *)
Inductive RepairOutcome : Type :=
| Repaired (report : RepairReport)
| Escalated (escalation : Escalation).

(** config.policy and config.commands as loadConfig builds them: JSON
    values. [config.lighthouse.thresholds] is left out. *)
Record Config : Type := {
  cfg_maxAttempts : JS.value;
  cfg_maxPatchLines : JS.value;
  cfg_abortOnNoImprovement : JS.value;
  cfg_timeCapMs : JS.value;
  cfg_commands : JS.value
}.

(** The policy executeRepair computes. *)
Record Policy : Type := {
  maxAttempts : JS.num;
  maxPatchLines : JS.num;
  abortOnNoImprovement : JS.num;
  timeCapMs : JS.num
}.

(** The environment variables read by the model adapters. *)
Record ProcessEnv : Type := {
  QUICK_GATE_HINT_MODEL : option string;
  QUICK_GATE_PATCH_MODEL : option string;
  QUICK_GATE_ALLOW_HINT_ONLY_PATCH : option string;
  QUICK_GATE_MODEL_TIMEOUT_MS : option string;
  QUICK_GATE_MOCK_OLLAMA_HINT : option string;
  QUICK_GATE_MOCK_OLLAMA_PATCH : option string
}.

(* ===================================================================== *)
(** ** The host: built-ins, processes, clock, schemas *)
(* ===================================================================== *)

(** [E] is the state of everything outside the project's files: the clock,
    the installed tools, the version-control index, the backups, and which
    paths are directories ([isDirectory]). *)
Record Host (E : Type) : Type := {
  JSON_parse : string -> option JS.value;
  StringToNumber : string -> JS.num;
  NumberToString : JS.num -> string;
  String_trim : string -> string;
  URL_pathname : string -> option string;
  path_join : string -> string -> string;
  path_relative : string -> string -> string;
  path_extname : string -> string;
  process_env : ProcessEnv;
  hasGit : bool;
  hasRsync : bool;
  isDirectory : E -> string -> bool;
  Date_now : E -> Z * E;
  spawnSync : Command -> gmap string string -> E ->
              SpawnResult * gmap string string * E;
  failures_schema_valid : FailuresReport -> bool;
  agent_brief_schema_valid : FailuresReport -> bool
}.

Arguments JSON_parse {E}.
Arguments StringToNumber {E}.
Arguments NumberToString {E}.
Arguments String_trim {E}.
Arguments URL_pathname {E}.
Arguments path_join {E}.
Arguments path_relative {E}.
Arguments path_extname {E}.
Arguments process_env {E}.
Arguments hasGit {E}.
Arguments hasRsync {E}.
Arguments isDirectory {E}.
Arguments Date_now {E}.
Arguments spawnSync {E}.
Arguments failures_schema_valid {E}.
Arguments agent_brief_schema_valid {E}.

(* ===================================================================== *)
(** ** State and the monad of effects *)
(* ===================================================================== *)

Inductive Artifact : Type :=
| FailuresFile | RunMetadataFile | AgentBriefFile | RepairReportFile | EscalationFile.

(** Ghost history: what was spawned, which adapter was entered, which
    artifact was written, oldest first. *)
Inductive Event : Type :=
| Spawned (c : Command)
| HintAdapterEntered
| PatchAdapterEntered
| Wrote (a : Artifact).

(** [tree] maps the resolved path of a regular file to its text: sources,
    package.json, quick-gate.config.json, the Lighthouse artifact; a path
    outside [tree] is a directory when [isDirectory] says so of [world], and
    does not exist otherwise. The three
    artifacts under .quick-gate/ that the loop reads or returns are kept
    decoded; child processes act on [tree] and [world] only. *)
Record State (E : Type) : Type := mkState {
  tree : gmap string string;
  failures_json : option FailuresReport;
  repair_report_json : option RepairReport;
  escalation_json : option Escalation;
  history : list Event;
  world : E
}.

Arguments mkState {E}.
Arguments tree {E}.
Arguments failures_json {E}.
Arguments repair_report_json {E}.
Arguments escalation_json {E}.
Arguments history {E}.
Arguments world {E}.

Inductive Error : Type :=
| NoPackageJson
| SyntaxError
| TypeError
| RangeError
| ENOENT
| EISDIR
| SchemaInvalid (a : Artifact).

Inductive Res (A : Type) : Type :=
| Ret (a : A)
| Throw (e : Error).

Arguments Ret {A}.
Arguments Throw {A}.

Definition M (E A : Type) : Type := State E -> Res A * State E.

Definition ret {E A} (a : A) : M E A := fun st => (Ret a, st).

Definition throw {E A} (e : Error) : M E A := fun st => (Throw e, st).

Definition bind {E A B} (m : M E A) (k : A -> M E B) : M E B :=
  fun st =>
    match m st with
    | (Ret a, st') => k a st'
    | (Throw e, st') => (Throw e, st')
    end.

Notation "'let*' x ':=' m 'in' k" := (bind m (fun x => k))
  (at level 10, x pattern, m at level 100, k at level 200).

Definition get {E} : M E (State E) := fun st => (Ret st, st).

Definition log {E} (ev : Event) : M E unit :=
  fun st => (Ret tt, mkState (tree st) (failures_json st) (repair_report_json st)
                       (escalation_json st) (history st ++ [ev]) (world st)).

(** for-loop over a list with an accumulator. *)
Fixpoint foldM {E A B} (f : B -> A -> M E B) (acc : B) (xs : list A) : M E B :=
  match xs with
  | [] => ret acc
  | x :: rest => let* acc' := f acc x in foldM f acc' rest
  end.

(* ===================================================================== *)
(** ** String helpers *)
(* ===================================================================== *)

(** [s.includes(sub)] *)
Definition includes (sub s : string) : bool :=
  match String.index 0 sub s with Some _ => true | None => false end.

(** [s.startsWith(pre)] *)
Definition startsWith (pre s : string) : bool := String.prefix pre s.

(** [s.endsWith(suf)] *)
Definition endsWith (suf s : string) : bool :=
  (String.length suf <=? String.length s)%nat
  && String.eqb (String.substring (String.length s - String.length suf)
                   (String.length suf) s) suf.

(** [s.indexOf(c)] and [s.lastIndexOf(c)] for a single character. *)
Fixpoint indexOf_from (i : nat) (c : ascii) (s : string) : option nat :=
  match s with
  | EmptyString => None
  | String c' rest => if Ascii.eqb c c' then Some i else indexOf_from (S i) c rest
  end.

Fixpoint lastIndexOf_from (i : nat) (c : ascii) (s : string) : option nat :=
  match s with
  | EmptyString => None
  | String c' rest =>
      match lastIndexOf_from (S i) c rest with
      | Some j => Some j
      | None => if Ascii.eqb c c' then Some i else None
      end
  end.

(** [row.split(/\t+/)]: a run of tabs separates two columns. *)
Definition is_tab (c : ascii) : bool := Ascii.eqb c (ascii_of_nat 9).

Fixpoint split_tabs_from (in_tabs : bool) (s : string) : list string :=
  match s with
  | EmptyString => [EmptyString]
  | String c rest =>
      if is_tab c then
        if in_tabs then split_tabs_from true rest
        else EmptyString :: split_tabs_from true rest
      else Text.cons_first c (split_tabs_from false rest)
  end.

Definition split_tabs (s : string) : list string := split_tabs_from false s.

(** [String(text || '').slice(0, max)] *)
Definition safeSlice (text : string) (max : nat) : string :=
  String.substring 0 max text.

(** [Array.from(new Set(xs))]: first occurrences, in order. *)
Fixpoint dedup_strings (seen : list string) (xs : list string) : list string :=
  match xs with
  | [] => []
  | x :: rest =>
      if bool_decide (x ∈ seen) then dedup_strings seen rest
      else x :: dedup_strings (x :: seen) rest
  end.

(* ===================================================================== *)
(** ** exec.js, config.js, gates.js, run-command.js *)
(* ===================================================================== *)

Definition DEFAULT_maxAttempts : Z := 3.
Definition DEFAULT_maxPatchLines : Z := 150.
Definition DEFAULT_abortOnNoImprovement : Z := 2.
Definition DEFAULT_timeCapMs : Z := 20 * 60 * 1000.

(** [k in obj], for the own keys of a decoded object. *)
Fixpoint has_key (k : string) (fields : list (string * JS.value)) : bool :=
  match fields with
  | [] => false
  | (k', _) :: rest => String.eqb k k' || has_key k rest
  end.

(** One field of [{ ...DEFAULT_POLICY, ...(userConfig.policy || {}) }]. *)
Definition merged_policy_field (userPolicy : JS.value) (k : string) (dflt : Z)
  : JS.value :=
  match JS.or userPolicy (JS.VObj []) with
  | JS.VObj fields =>
      if has_key k fields then JS.assoc k fields else JS.VNum (JS.Int dflt)
  | _ => JS.VNum (JS.Int dflt)
  end.

(** [{ ...(userConfig.commands || {}) }], as far as the keys that name a
    gate are concerned. *)
Definition spread_commands (userCommands : JS.value) : JS.value :=
  match JS.or userCommands (JS.VObj []) with
  | JS.VObj fields => JS.VObj fields
  | _ => JS.VObj []
  end.

Definition default_config : Config :=
  {| cfg_maxAttempts := JS.VNum (JS.Int DEFAULT_maxAttempts);
     cfg_maxPatchLines := JS.VNum (JS.Int DEFAULT_maxPatchLines);
     cfg_abortOnNoImprovement := JS.VNum (JS.Int DEFAULT_abortOnNoImprovement);
     cfg_timeCapMs := JS.VNum (JS.Int DEFAULT_timeCapMs);
     cfg_commands := JS.VObj [] |}.

(** The config built from a decoded quick-gate.config.json; [None] is the
    TypeError of reading a property of [null]. *)
Definition config_of_user (userConfig : JS.value) : option Config :=
  match JS.prop userConfig "policy", JS.prop userConfig "commands" with
  | Some userPolicy, Some userCommands =>
      Some {| cfg_maxAttempts :=
                merged_policy_field userPolicy "maxAttempts" DEFAULT_maxAttempts;
              cfg_maxPatchLines :=
                merged_policy_field userPolicy "maxPatchLines" DEFAULT_maxPatchLines;
              cfg_abortOnNoImprovement :=
                merged_policy_field userPolicy "abortOnNoImprovement"
                  DEFAULT_abortOnNoImprovement;
              cfg_timeCapMs :=
                merged_policy_field userPolicy "timeCapMs" DEFAULT_timeCapMs;
              cfg_commands := spread_commands userCommands |}
  | _, _ => None
  end.

(** [id.replace(/[^a-zA-Z0-9]+/g, '_')] *)
Definition is_alnum (c : ascii) : bool :=
  let n := nat_of_ascii c in
  ((48 <=? n) && (n <=? 57) || (65 <=? n) && (n <=? 90)
   || (97 <=? n) && (n <=? 122))%nat.

Fixpoint slug_from (in_run : bool) (s : string) : string :=
  match s with
  | EmptyString => EmptyString
  | String c rest =>
      if is_alnum c then String c (slug_from false rest)
      else if in_run then slug_from true rest
           else String "_"%char (slug_from true rest)
  end.

Definition slug (s : string) : string := slug_from false s.

Definition lower_ascii (c : ascii) : ascii :=
  let n := nat_of_ascii c in
  if ((65 <=? n) && (n <=? 90))%nat then ascii_of_nat (n + 32) else c.

Fixpoint toLowerCase (s : string) : string :=
  match s with
  | EmptyString => EmptyString
  | String c rest => String (lower_ascii c) (toLowerCase rest)
  end.

(** The gate plan of runDeterministicGates: build runs in full mode only. *)
Definition gate_enabled (mode : string) (g : Gate) : bool :=
  match g with
  | build => String.eqb mode "full"
  | _ => true
  end.

Definition gatePlan : list Gate := [lint; typecheck; build; lighthouse].

(** Accumulators of runDeterministicGates. *)
Record GateRun : Type := {
  run_gates : list GateResult;
  run_findings : list Finding;
  run_traces : list CommandTrace
}.

Section Tool.
Context {E : Type} (H : Host E) (cwd : string).

Definition ToString (v : JS.value) : string := JS.ToString (NumberToString H) v.

Definition ToNumber (v : JS.value) : JS.num :=
  JS.ToNumber (StringToNumber H) (NumberToString H) v.

(** [Date.now()] *)
Definition now : M E Z :=
  fun st =>
    let '(t, w) := Date_now H (world st) in
    (Ret t, mkState (tree st) (failures_json st) (repair_report_json st)
              (escalation_json st) (history st) w).

(** [fs.existsSync(p)] *)
Definition existsSync (p : string) (st : State E) : bool :=
  bool_decide (is_Some (tree st !! p)) || isDirectory H (world st) p.

(** [fs.existsSync(p) ? fs.readFileSync(p, 'utf8') : absent], for [p] under
    the working directory: a directory exists, and reading it throws. *)
Definition readFile (rel : string) : M E (option string) :=
  fun st =>
    match tree st !! path_join H cwd rel with
    | Some text => (Ret (Some text), st)
    | None =>
        if isDirectory H (world st) (path_join H cwd rel) then (Throw EISDIR, st)
        else (Ret None, st)
    end.

(** [fs.writeFileSync(path.join(cwd, rel), text)] *)
Definition writeFile (rel text : string) : M E unit :=
  fun st =>
    (Ret tt, mkState (<[path_join H cwd rel := text]> (tree st)) (failures_json st)
               (repair_report_json st) (escalation_json st) (history st) (world st)).

(** [options.timeoutMs] of a call of runCommand: the model adapters alone
    pass one. *)
Definition timeout_of (c : Command) : option JS.num :=
  match c with
  | OllamaRun _ _ timeout => Some timeout
  | _ => None
  end.

(** The timeout that [spawnSync] accepts: none, or an unsigned integer;
    anything else is refused with ERR_OUT_OF_RANGE before a process is
    spawned. *)
Definition valid_timeout (timeout : option JS.num) : bool :=
  match timeout with
  | None => true
  | Some (JS.Int ms) => 0 <=? ms
  | Some JS.NaN => false
  end.

(** exec.js, runCommand: spawn the command, wait, report. Never throws on a
    non-zero exit. *)
Definition runCommand (c : Command) : M E CommandTrace :=
  fun st =>
    if negb (valid_timeout (timeout_of c)) then (Throw RangeError, st)
    else
      let '(r, t, w) := spawnSync H c (tree st) (world st) in
      (Ret {| command := c; exit_code := sp_exit_code r; timed_out := sp_timed_out r;
              stdout := sp_stdout r; stderr := sp_stderr r |},
       mkState t (failures_json st) (repair_report_json st) (escalation_json st)
         (history st ++ [Spawned c]) w).

(** [s.includes('\0')] *)
Definition has_nul (s : string) : bool :=
  existsb (fun c => Ascii.eqb c (ascii_of_nat 0)) (list_ascii_of_string s).

(** A resolved gate command is handed to the shell; what is not a string,
    and a string that holds a NUL character, is refused by the spawn with a
    TypeError (ERR_INVALID_ARG_TYPE, ERR_INVALID_ARG_VALUE). *)
Definition runGateCommand (c : JS.value) : M E CommandTrace :=
  match c with
  | JS.VStr s => if has_nul s then throw TypeError else runCommand (Shell s)
  | _ => throw TypeError
  end.

(** config.js, loadConfig *)
Definition loadConfig : M E Config :=
  let* text := readFile "quick-gate.config.json" in
  match text with
  | None => ret default_config
  | Some t =>
      match JSON_parse H t with
      | None => throw SyntaxError
      | Some userConfig =>
          match config_of_user userConfig with
          | Some c => ret c
          | None => throw TypeError
          end
      end
  end.

(** gates.js, packageScripts *)
Definition packageScripts : M E JS.value :=
  let* text := readFile "package.json" in
  match text with
  | None => throw NoPackageJson
  | Some t =>
      match JSON_parse H t with
      | None => throw SyntaxError
      | Some pkg =>
          match JS.prop pkg "scripts" with
          | None => throw TypeError
          | Some scripts => ret (JS.or scripts (JS.VObj []))
          end
      end
  end.

(** [scripts[k]] is truthy; [scripts] is never null or undefined. *)
Definition has_script (scripts : JS.value) (k : string) : bool :=
  match JS.prop scripts k with
  | Some v => JS.truthy v
  | None => false
  end.

(** gates.js, resolveGateCommand: [Some None] is the source's [null];
    [None] is the TypeError of indexing a null or undefined [configCommands]. *)
Definition resolveGateCommand (g : Gate) (scripts configCommands : JS.value)
  : option (option JS.value) :=
  match JS.prop configCommands (gate_name g) with
  | None => None
  | Some override =>
      Some
        (if JS.truthy override then Some override
         else
           match g with
           | typecheck =>
               if has_script scripts "typecheck"
               then Some (JS.VStr "npm run typecheck")
               else Some (JS.VStr "npx tsc --noEmit")
           | _ =>
               if has_script scripts (gate_name g)
               then Some (JS.VStr ("npm run " +:+ gate_name g))
               else
                 match g with
                 | lighthouse =>
                     if has_script scripts "lighthouse"
                     then Some (JS.VStr "npm run lighthouse")
                     else if has_script scripts "ci:lighthouse"
                     then Some (JS.VStr "npm run ci:lighthouse")
                     else if has_script scripts "lhci"
                     then Some (JS.VStr "npm run lhci")
                     else Some (JS.VStr
                       "npx lhci autorun --upload.target=filesystem --upload.outputDir=.quick-gate/lhci")
                 | _ => None
                 end
           end)
  end.

(** [String(v)]: [None] is the TypeError of a value that does not convert. *)
Definition String_of (v : JS.value) : option string :=
  if JS.converts v then Some (ToString v) else None.

(** [Number(v)]: [None] is the TypeError of a value that does not convert. *)
Definition Number_of (v : JS.value) : option JS.num :=
  if JS.converts v then Some (ToNumber v) else None.

(** gates.js, routePath (inside parseLighthouseFindings), for a url that
    converts to a string. *)
Definition routePath (rawUrl : JS.value) : string :=
  if negb (JS.truthy rawUrl) then "/"
  else
    match URL_pathname H (ToString rawUrl) with
    | Some pathname => if String.eqb pathname "" then "/" else pathname
    | None => ToString rawUrl
    end.

(** routePath with its failure: a truthy url that does not convert makes
    [new URL(rawUrl)] throw, and then [String(rawUrl)] in the handler. *)
Definition routePath_of (rawUrl : JS.value) : option string :=
  if JS.truthy rawUrl && negb (JS.converts rawUrl) then None
  else Some (routePath rawUrl).

(** gates.js, thresholdForAssertion (inside parseLighthouseFindings). Its
    answer fills [threshold] and [raw.threshold_source] of the finding, which
    [Finding] leaves out; what is kept is whether it returns: a record whose
    [expected] is a number or a string is answered at once, any other one
    after [String(row.assertion || '')]. [None] is the TypeError. *)
Definition thresholdForAssertion (expected assertion : JS.value) : option unit :=
  match expected with
  | JS.VNum _ | JS.VStr _ => Some tt
  | _ =>
      match String_of (JS.or assertion (JS.VStr "")) with
      | Some _ => Some tt
      | None => None
      end
  end.

(** [actual] of a Lighthouse finding, as far as it can fail:
    [typeof row.numericValue === 'number' ? row.numericValue
     : String(row.value ?? 'n/a')]. *)
Definition actualOf (numericValue value : JS.value) : option unit :=
  match numericValue with
  | JS.VNum _ => Some tt
  | _ =>
      match String_of (JS.nullish value (JS.VStr "n/a")) with
      | Some _ => Some tt
      | None => None
      end
  end.

(** The finding of one assertion record: [None] is a TypeError, that of
    reading a property of [null] or of a field that does not convert to a
    string; [Some None] a record that passed. *)
Definition lighthouseFinding (row : JS.value) : option (option Finding) :=
  match JS.prop row "passed", JS.prop row "url", JS.prop row "assertion",
        JS.prop row "expected", JS.prop row "numericValue", JS.prop row "value" with
  | Some passed, Some url, Some assertion, Some expected, Some numericValue, Some value =>
      if JS.truthy passed then Some None
      else
        match routePath_of url,
              String_of (JS.or assertion (JS.VStr "lighthouse_assertion")),
              thresholdForAssertion expected assertion,
              actualOf numericValue value with
        | Some route, Some metric, Some _, Some _ =>
            Some (Some {| f_id := toLowerCase ("lh_" +:+ slug route +:+ "_" +:+ slug metric);
                          f_gate := lighthouse;
                          f_severity := high;
                          f_files := None;
                          f_route := Some route;
                          f_metric := Some metric |})
        | _, _, _, _ => None
        end
  | _, _, _, _, _, _ => None
  end.

(** What [for (const row of data)] visits: the elements of an array, the
    characters of a string (of an ASCII string, here); any other decoded
    value is not iterable. *)
Definition iterate (data : JS.value) : option (list JS.value) :=
  match data with
  | JS.VArr rows => Some rows
  | JS.VStr s =>
      Some (map (fun c => JS.VStr (String c EmptyString)) (list_ascii_of_string s))
  | _ => None
  end.

Fixpoint lighthouseFindings (rows : list JS.value) : option (list Finding) :=
  match rows with
  | [] => Some []
  | row :: rest =>
      match lighthouseFinding row with
      | None => None
      | Some here =>
          match lighthouseFindings rest with
          | None => None
          | Some more =>
              Some (match here with Some f => f :: more | None => more end)
          end
      end
  end.

(** gates.js, parseLighthouseFindings *)
Definition parseLighthouseFindings : M E (list Finding) :=
  let* text := readFile ".lighthouseci/assertion-results.json" in
  match text with
  | None => ret []
  | Some t =>
      match JSON_parse H t with
      | None => throw SyntaxError
      | Some data =>
          match iterate data with
          | None => throw TypeError
          | Some rows =>
              match lighthouseFindings rows with
              | None => throw TypeError
              | Some fs => ret fs
              end
          end
      end
  end.

(** gates.js, findingForExitCode *)
Definition findingForExitCode (g : Gate) (result : CommandTrace) : M E Finding :=
  let* t := now in
  ret {| f_id := gate_name g +:+ "_exit_" +:+ NumberToString H (JS.Int t);
         f_gate := g;
         f_severity := match g with build => critical | _ => high end;
         f_files := None;
         f_route := None;
         f_metric := None |}.

Definition missingCommandFinding (g : Gate) (changedFiles : list string) : Finding :=
  {| f_id := gate_name g +:+ "_missing_command";
     f_gate := g;
     f_severity := high;
     f_files := Some changedFiles;
     f_route := None;
     f_metric := None |}.

(** One turn of the loop over the gate plan. *)
Definition runGate (mode : string) (scripts : JS.value) (config : Config)
    (changedFiles : list string) (acc : GateRun) (g : Gate) : M E GateRun :=
  if negb (gate_enabled mode g) then
    ret {| run_gates := run_gates acc ++ [{| g_name := g; g_status := gate_skipped |}];
           run_findings := run_findings acc;
           run_traces := run_traces acc |}
  else
    match resolveGateCommand g scripts (cfg_commands config) with
    | None => throw TypeError
    | Some None =>
        ret {| run_gates := run_gates acc ++ [{| g_name := g; g_status := gate_fail |}];
               run_findings := run_findings acc ++ [missingCommandFinding g changedFiles];
               run_traces := run_traces acc |}
    | Some (Some c) =>
        let* result := runGateCommand c in
        let traces := run_traces acc ++ [result] in
        if exit_code result =? 0 then
          ret {| run_gates := run_gates acc ++ [{| g_name := g; g_status := gate_pass |}];
                 run_findings := run_findings acc;
                 run_traces := traces |}
        else
          let gates' := run_gates acc ++ [{| g_name := g; g_status := gate_fail |}] in
          match g with
          | lighthouse =>
              let* lighthouseFindings := parseLighthouseFindings in
              if (0 <? Z.of_nat (length lighthouseFindings)) then
                ret {| run_gates := gates';
                       run_findings := run_findings acc ++ lighthouseFindings;
                       run_traces := traces |}
              else
                let* f := findingForExitCode g result in
                ret {| run_gates := gates';
                       run_findings := run_findings acc ++ [f];
                       run_traces := traces |}
          | _ =>
              let* f := findingForExitCode g result in
              ret {| run_gates := gates';
                     run_findings := run_findings acc ++ [f];
                     run_traces := traces |}
          end
    end.

(** gates.js, runDeterministicGates *)
Definition runDeterministicGates (mode : string) (config : Config)
    (changedFiles : list string) : M E GateRun :=
  let* scripts := packageScripts in
  foldM (runGate mode scripts config changedFiles)
    {| run_gates := []; run_findings := []; run_traces := [] |} gatePlan.

(** run-command.js, gitInfo: its two answers are not kept. *)
Definition gitInfo : M E unit :=
  if hasGit H then
    let* _ := runCommand GitRemoteUrl in
    let* _ := runCommand GitBranch in
    ret tt
  else ret tt.

(** fs-utils.js, writeJsonFileSync, for .quick-gate/failures.json *)
Definition writeFailures (p : FailuresReport) : M E unit :=
  fun st =>
    (Ret tt, mkState (tree st) (Some p) (repair_report_json st) (escalation_json st)
               (history st ++ [Wrote FailuresFile]) (world st)).

(** What executeRun returns ([failuresPath], [metadataPath], [runId] left out). *)
Record RunResult : Type := {
  run_status : Status
}.

(** run-command.js, executeRun *)
Definition executeRun (mode : string) (changedFiles : list string) : M E RunResult :=
  let* config := loadConfig in
  let* gateResult := runDeterministicGates mode config changedFiles in
  let status := if (0 <? Z.of_nat (length (run_findings gateResult))) then fail else pass in
  let* _ := gitInfo in
  let failuresPayload :=
    {| mode := mode;
       status := status;
       changed_files := changedFiles;
       gates := run_gates gateResult;
       findings := run_findings gateResult |} in
  if negb (failures_schema_valid H failuresPayload) then throw (SchemaInvalid FailuresFile)
  else
    let* _ := writeFailures failuresPayload in
    let* _ := log (Wrote RunMetadataFile) in
    ret {| run_status := status |}.

(** fs-utils.js, readJsonFileSync, for .quick-gate/failures.json *)
Definition readFailures : M E FailuresReport :=
  fun st =>
    match failures_json st with
    | Some p => (Ret p, st)
    | None => (Throw ENOENT, st)
    end.

(** summarize-command.js, executeSummarize: reads failures.json, derives the
    agent brief, validates it and writes it (twice: JSON and Markdown). *)
Definition executeSummarize : M E unit :=
  let* failures := readFailures in
  if negb (agent_brief_schema_valid H failures) then throw (SchemaInvalid AgentBriefFile)
  else
    let* _ := log (Wrote AgentBriefFile) in
    log (Wrote AgentBriefFile).

(* --------------------------------------------------------------------- *)
(** *** model-adapter.js *)
(* --------------------------------------------------------------------- *)

(** pushFile of gatherFailureContext: skip the empty path and repeats. *)
Definition pushFile (preferredFiles : list string) (f : string) : list string :=
  if String.eqb f "" || bool_decide (f ∈ preferredFiles) then preferredFiles
  else preferredFiles ++ [f].

(** changed files first, then the files of each finding. *)
Definition preferredFiles (failures : FailuresReport) : list string :=
  foldl pushFile []
    (changed_files failures
     ++ concat (map (fun f => default [] (f_files f)) (findings failures))).

(** [context.allowed_files] of gatherFailureContext. *)
Definition allowed_files (failures : FailuresReport) : list string :=
  take 12 (preferredFiles failures).

(** readSnippet: the first [maxLines] lines of a file, the empty text for a
    path that does not exist. *)
Definition readSnippet (rel : string) (maxLines : nat) : M E string :=
  let* text := readFile rel in
  ret match text with
      | Some t => Text.join_lines (take maxLines (Text.split_lines t))
      | None => ""
      end.

(** [context.file_context] of gatherFailureContext: a snippet of each of
    the first three preferred files, those that give an empty one left out.
    The third part of the context, the reduced findings, is a function of
    the report and only feeds the prompt. *)
Definition gatherFailureContext (failures : FailuresReport)
  : M E (list (string * string)) :=
  foldM (fun fileContext rel =>
           let* snippet := readSnippet rel 40 in
           ret (if String.eqb snippet "" then fileContext
                else fileContext ++ [(rel, snippet)]))
    [] (take 3 (preferredFiles failures)).

(** parseJsonObject: the whole trimmed text, else what lies between the
    first opening and the last closing brace; [VNull] is the source's [null]. *)
Definition parseJsonObject (text : string) : JS.value :=
  let raw := String_trim H text in
  if String.eqb raw "" then JS.VNull
  else
    match JSON_parse H raw with
    | Some v => v
    | None =>
        match indexOf_from 0 "{"%char raw, lastIndexOf_from 0 "}"%char raw with
        | Some start, Some stop =>
            if (stop <=? start)%nat then JS.VNull
            else
              match JSON_parse H (String.substring start (stop + 1 - start) raw) with
              | Some v => v
              | None => JS.VNull
              end
        | _, _ => JS.VNull
        end
    end.

(** What callOllama returns. *)
Inductive Response : Type :=
| ResponseFailed (reason : CallFailure)
| ResponseOk (output : string).

Inductive Purpose : Type := hint | patch.

Definition env_truthy (v : option string) : option string :=
  match v with
  | Some s => if String.eqb s "" then None else Some s
  | None => None
  end.

(** callOllama *)
Definition callOllama (model : string) (prompt : Prompt) (timeout : JS.num)
    (purpose : Purpose) : M E Response :=
  if String.eqb model "" then ret (ResponseFailed missing_model)
  else
    let mockEnv :=
      match purpose with
      | hint => QUICK_GATE_MOCK_OLLAMA_HINT (process_env H)
      | patch => QUICK_GATE_MOCK_OLLAMA_PATCH (process_env H)
      end in
    match env_truthy mockEnv with
    | Some mock => ret (ResponseOk mock)
    | None =>
        let* result := runCommand (OllamaRun model prompt timeout) in
        if negb (exit_code result =? 0) then
          ret (ResponseFailed (if timed_out result then model_command_timeout
                               else model_command_failed))
        else ret (ResponseOk (stdout result))
    end.

(** [s.split(/\r?\n/).length] *)
Definition count_lines (s : string) : Z := Z.of_nat (length (Text.split_lines s)).

(** Lines an edit is predicted to touch: those it removes and those it adds. *)
Definition predicted_lines_of (e : Edit) : Z :=
  Z.max 0 (end_line e - start_line e + 1) + count_lines (replacement e).

Record Scoring : Type := {
  score100 : Z;
  predictedLines : Z;
  touchedFiles : list string
}.

(** scoreEditPlan. The score is kept in hundredths and computed exactly:
    [score100 = round (70 * overlap / touched) + 30 * lineScore], rounding
    halves up. The source computes it in binary floating point and rounds
    with [toFixed(2)], which may differ by one hundredth where the exact
    value lies on a half; the comparison of runPatchModel with 0.5 reads the
    score of at most 12 touched files, for which no such value is near 0.5. *)
Definition scoreEditPlan (es : list Edit) (failures : FailuresReport)
    (maxPatchLines : JS.num) : Scoring :=
  let changedFiles := changed_files failures in
  let findingFiles := concat (map (fun f => default [] (f_files f)) (findings failures)) in
  let touched := dedup_strings [] (map file es) in
  let predicted := foldl (fun acc e => acc + predicted_lines_of e) 0 es in
  let overlap :=
    Z.of_nat (length (filter (fun f => f ∈ changedFiles \/ f ∈ findingFiles) touched)) in
  let n := Z.of_nat (length touched) in
  let ratio100 := if n =? 0 then 0 else (140 * overlap + n) / (2 * n) in
  let lineScore := if JS.le (JS.Int predicted) maxPatchLines then 1 else 0 in
  {| score100 := ratio100 + 30 * lineScore;
     predictedLines := predicted;
     touchedFiles := touched |}.

(** One entry of [payload.edits] after the [map] of normalizeEditPlan:
    [None] is a TypeError, that of reading a property of [null] or of a
    field that does not convert. *)
Definition normalizeEdit (e : JS.value) : option (string * JS.num * JS.num * string) :=
  match JS.prop e "file", JS.prop e "start_line", JS.prop e "end_line",
        JS.prop e "replacement" with
  | Some f, Some s, Some t, Some r =>
      match String_of (JS.or f (JS.VStr "")), Number_of s, Number_of t,
            String_of (JS.nullish r (JS.VStr "")) with
      | Some f', Some s', Some t', Some r' => Some (f', s', t', r')
      | _, _, _, _ => None
      end
  | _, _, _, _ => None
  end.

(** The [map] and the [filter] of normalizeEditPlan over the entries. *)
Fixpoint normalizeEdits (es : list JS.value) : option (list Edit) :=
  match es with
  | [] => Some []
  | e :: rest =>
      match normalizeEdit e, normalizeEdits rest with
      | Some (f, JS.Int s, JS.Int t, r), Some more =>
          if String.eqb f "" then Some more
          else Some ({| file := f; start_line := s; end_line := t; replacement := r |}
                     :: more)
      | Some _, Some more => Some more
      | _, _ => None
      end
  end.

(** normalizeEditPlan: [Some None] is the source's [null], [None] a TypeError. *)
Definition normalizeEditPlan (payload : JS.value) : option (option EditPlan) :=
  match payload with
  | JS.VObj _ =>
      match JS.prop payload "edits", JS.prop payload "summary" with
      | Some (JS.VArr es), Some sm =>
          match normalizeEdits es with
          | None => None
          | Some [] => Some None
          | Some edits' =>
              match String_of (JS.or sm (JS.VStr "")) with
              | Some sm' => Some (Some {| summary := sm'; edits := edits' |})
              | None => None
              end
          end
      | _, _ => Some None
      end
  | _ => Some None
  end.

(** [path.isAbsolute] on POSIX. *)
Definition isAbsolute (p : string) : bool := startsWith "/" p.

(** sanitizePlanPaths: the source's [null] is [None]. *)
Fixpoint sanitizeEdits (es : list Edit) : option (list Edit) :=
  match es with
  | [] => Some []
  | e :: rest =>
      let raw := file e in
      if isAbsolute raw then
        if startsWith (cwd +:+ "/") raw then
          match sanitizeEdits rest with
          | Some more =>
              Some ({| file := path_relative H cwd raw; start_line := start_line e;
                       end_line := end_line e; replacement := replacement e |} :: more)
          | None => None
          end
        else None
      else
        match sanitizeEdits rest with
        | Some more => Some (e :: more)
        | None => None
        end
  end.

Definition sanitizePlanPaths (plan : EditPlan) : option EditPlan :=
  match sanitizeEdits (edits plan) with
  | Some es => Some {| summary := summary plan; edits := es |}
  | None => None
  end.

(** The text an edit turns a file into; [None] when the line range does not
    lie inside the file. *)
Definition spliceLines (text : string) (e : Edit) : option string :=
  let lines := Text.split_lines text in
  let startIndex := start_line e - 1 in
  let endIndexExclusive := end_line e in
  if (startIndex <? 0) || (Z.of_nat (length lines) <? endIndexExclusive)
     || (endIndexExclusive <=? startIndex)
  then None
  else
    let replacementLines := Text.split_lines (replacement e) in
    Some (Text.join_lines
            (take (Z.to_nat startIndex) lines ++ replacementLines
             ++ drop (Z.to_nat endIndexExclusive) lines)).

(** [touched.add(f)] on an insertion-ordered set. *)
Definition set_add (touched : list string) (f : string) : list string :=
  if bool_decide (f ∈ touched) then touched else touched ++ [f].

(** applyEditPlan: the edits are applied one after the other, each to the
    file as the previous ones left it; the first failure stops the loop and
    leaves the earlier writes in place. *)
Fixpoint applyEdits (es : list Edit) (touched : list string)
  : M E (ApplyFailure + list string) :=
  match es with
  | [] => ret (inr touched)
  | e :: rest =>
      let* text := readFile (file e) in
      match text with
      | None => ret (inl (missing_file (file e)))
      | Some t =>
          match spliceLines t e with
          | None => ret (inl (invalid_line_range (file e) (start_line e) (end_line e)))
          | Some updated =>
              let* _ := writeFile (file e) updated in
              applyEdits rest (set_add touched (file e))
          end
      end
  end.

Definition applyEditPlan (plan : EditPlan) : M E (ApplyFailure + list string) :=
  applyEdits (edits plan) [].

(** getModelRoutingPolicy *)
Definition getModelRoutingPolicy : ModelPolicy :=
  let env := process_env H in
  let allow :=
    match QUICK_GATE_ALLOW_HINT_ONLY_PATCH env with
    | Some v => String.eqb v "1"
    | None => false
    end in
  {| hintModel := default "qwen2.5:1.5b" (env_truthy (QUICK_GATE_HINT_MODEL env));
     patchModel := default "mistral:7b" (env_truthy (QUICK_GATE_PATCH_MODEL env));
     hintOnly := if allow then [] else ["qwen2.5:1.5b"; "qwen3:4b"; "llama3.2:latest"];
     allowHintOnlyPatch := allow;
     timeoutMs :=
       match env_truthy (QUICK_GATE_MODEL_TIMEOUT_MS env) with
       | Some v => StringToNumber H v
       | None => JS.Int 60000
       end |}.

(** runHintModel *)
Definition runHintModel (failures : FailuresReport) (policy : ModelPolicy)
  : M E HintResult :=
  let* _ := log HintAdapterEntered in
  let* fileContext := gatherFailureContext failures in
  let* response :=
    callOllama (hintModel policy) (HintPrompt failures fileContext) (timeoutMs policy)
      hint in
  match response with
  | ResponseFailed reason => ret (HintFailed reason)
  | ResponseOk output =>
      let parsed := parseJsonObject output in
      ret (HintAccepted
             match JS.prop parsed "hints" with
             | Some (JS.VArr hs) => take 6 hs
             | _ => []
             end)
  end.

(** [normalizeEditPlan] then [sanitizePlanPaths] on a model's output. *)
Definition planOfOutput (output : string) : M E (option EditPlan) :=
  match normalizeEditPlan (parseJsonObject output) with
  | None => throw TypeError
  | Some None => ret None
  | Some (Some basePlan) => ret (sanitizePlanPaths basePlan)
  end.

(** The checks of runPatchModel on a plan that parsed, then its application. *)
Definition checkAndApplyPlan (plan : EditPlan) (failures : FailuresReport)
    (maxPatchLines : JS.num) : M E PatchResult :=
  let allowed := allowed_files failures in
  let outOfScope := filter (fun f => f ∉ allowed) (map file (edits plan)) in
  if (0 <? Z.of_nat (length outOfScope)) then ret (PatchOutOfScope outOfScope plan)
  else
    let scoring := scoreEditPlan (edits plan) failures maxPatchLines in
    if JS.gt (JS.Int (predictedLines scoring)) maxPatchLines
    then ret (PatchBudgetExceeded (predictedLines scoring) maxPatchLines)
    else if score100 scoring <? 50
    then ret (PatchScoreTooLow (score100 scoring) (touchedFiles scoring) plan)
    else
      let* applied := applyEditPlan plan in
      match applied with
      | inl details => ret (PatchApplyFailed details plan)
      | inr _ =>
          ret (PatchAccepted (score100 scoring) (predictedLines scoring)
                 (touchedFiles scoring) plan)
      end.

(** The first half of runPatchModel: ask the model, decode its answer, ask
    once more when no plan came out of it. [inl] is an early return. *)
Definition requestPlan (failures : FailuresReport) (policy : ModelPolicy)
  : M E (PatchResult + EditPlan) :=
  if bool_decide (patchModel policy ∈ hintOnly policy) then ret (inl PatchHintOnly)
  else
    let* fileContext := gatherFailureContext failures in
    let* response :=
      callOllama (patchModel policy) (PatchPrompt failures fileContext) (timeoutMs policy)
        patch in
    match response with
    | ResponseFailed reason => ret (inl (PatchCallFailed reason))
    | ResponseOk output =>
        let* plan := planOfOutput output in
        match plan with
        | Some p => ret (inr p)
        | None =>
            let* response' :=
              callOllama (patchModel policy)
                (RetryPrompt (allowed_files failures) (safeSlice output 1200))
                (timeoutMs policy) patch in
            match response' with
            | ResponseOk output' =>
                let* plan' := planOfOutput output' in
                match plan' with
                | Some p => ret (inr p)
                | None => ret (inl (PatchInvalidJson (safeSlice output' 500)))
                end
            | ResponseFailed _ => ret (inl (PatchInvalidJson ""))
            end
        end
    end.

(** runPatchModel *)
Definition runPatchModel (failures : FailuresReport) (policy : ModelPolicy)
    (maxPatchLines : JS.num) : M E PatchResult :=
  let* _ := log PatchAdapterEntered in
  let* got := requestPlan failures policy in
  match got with
  | inl early => ret early
  | inr plan => checkAndApplyPlan plan failures maxPatchLines
  end.

(* --------------------------------------------------------------------- *)
(** *** deterministic-prefix.js *)
(* --------------------------------------------------------------------- *)

Definition inScopeFiles (failures : FailuresReport) : list string :=
  foldl pushFile []
    (changed_files failures
     ++ concat (map (fun f => default [] (f_files f)) (findings failures))).

Definition hasGateFailure (failures : FailuresReport) (g : Gate) : bool :=
  existsb (fun f => gate_eqb (f_gate f) g) (findings failures).

(** isEligibleFile: a source extension, outside build output, not minified. *)
Definition isEligibleFile (f : string) : bool :=
  existsb (fun ext => endsWith ext f) [".js"; ".jsx"; ".ts"; ".tsx"; ".mjs"; ".cjs"]
  && negb (existsb (fun d => startsWith (d +:+ "/") f || includes ("/" +:+ d +:+ "/") f)
             ["dist"; "build"; "coverage"; ".next"])
  && negb (existsb (fun ext => endsWith ext f) [".min.js"; ".min.mjs"; ".min.cjs"]).

Definition scopedFiles (failures : FailuresReport) : list string :=
  take 20
    (List.filter
       (fun f =>
          negb (startsWith "." f)
          && negb (isAbsolute f)
          && negb (includes ".." f)
          && negb (includes "node_modules" f)
          && negb (String.eqb (path_extname H f) "")
          && isEligibleFile f)
       (inScopeFiles failures)).

(** runLintProblemAutofix: [None] is the source's [null]. *)
Definition runLintProblemAutofix (files : list string) : M E (option Action) :=
  match files with
  | [] => ret None
  | _ =>
      let* result := runCommand (EslintFixProblem files) in
      ret (Some (LintProblemAutofix (exit_code result =? 0) (exit_code result) files))
  end.

(** runDeterministicPreFix *)
Definition runDeterministicPreFix (failures : FailuresReport) : M E (list Action) :=
  if hasGateFailure failures lint then
    let* action := runLintProblemAutofix (scopedFiles failures) in
    match action with
    | Some a => ret [a]
    | None => ret []
    end
  else ret [].

(* --------------------------------------------------------------------- *)
(** *** repair-command.js *)
(* --------------------------------------------------------------------- *)

(** [Number.isFinite(n) ? n : 0] *)
Definition finite_or_zero (n : JS.num) : Z :=
  match n with JS.Int z => z | JS.NaN => 0 end.

(** One row of the numstat output: added, removed, file. Rows with fewer
    than three columns are skipped. *)
Definition numstat_row (map : gmap string Z) (row : string) : gmap string Z :=
  match split_tabs row with
  | added :: removed :: (f :: more) =>
      <[String.concat (String (ascii_of_nat 9) EmptyString) (f :: more) :=
          finite_or_zero (StringToNumber H added)
          + finite_or_zero (StringToNumber H removed)]> map
  | _ => map
  end.

(** diffSnapshot: lines added plus lines removed, per file, against the
    version-control baseline. *)
Definition diffSnapshot : M E (gmap string Z) :=
  if negb (hasGit H) then ret ∅
  else
    let* diff := runCommand GitDiffNumstat in
    if negb (exit_code diff =? 0) then ret ∅
    else
      ret (foldl numstat_row ∅
             (List.filter (fun row => negb (String.eqb row ""))
                (Text.split_lines (stdout diff)))).

(** computePatchLines *)
Definition computePatchLines (beforeMap afterMap : gmap string Z) : Z :=
  foldr (fun f total =>
           total + Z.abs (default 0 (afterMap !! f) - default 0 (beforeMap !! f)))
    0 (elements (dom beforeMap ∪ dom afterMap)).

Definition backupWorkspace (attempt : Z) : M E unit :=
  let* _ := runCommand (Backup attempt (hasRsync H)) in ret tt.

Definition restoreWorkspace (attempt : Z) : M E unit :=
  let* _ := runCommand (Restore attempt (hasRsync H)) in ret tt.

Record RepairActions : Type := {
  attempted : list Action;
  currentFailures : FailuresReport;
  shortCircuitPass : bool
}.

Fixpoint dedup_gates (seen : list Gate) (gs : list Gate) : list Gate :=
  match gs with
  | [] => []
  | g :: rest =>
      if existsb (gate_eqb g) seen then dedup_gates seen rest
      else g :: dedup_gates (g :: seen) rest
  end.

(** The part of runRepairActions that follows the deterministic pre-fix. *)
Definition runModelActions (attempted0 : list Action) (current : FailuresReport)
    (policy : Policy) (deterministicOnly : bool) : M E RepairActions :=
  if (Z.of_nat (length (findings current)) =? 0) then
    ret {| attempted := attempted0; currentFailures := current;
           shortCircuitPass := true |}
  else if deterministicOnly then
    ret {| attempted := attempted0 ++ [DeterministicOnlyMode];
           currentFailures := current; shortCircuitPass := false |}
  else
    let hasTypecheckFailure := hasGateFailure current typecheck in
    let hasBuildFailure := hasGateFailure current build in
    let hasLighthouseFailure := hasGateFailure current lighthouse in
    let hasLintFailure := hasGateFailure current lint in
    let attempted1 :=
      if hasTypecheckFailure || hasBuildFailure || hasLighthouseFailure
      then attempted0 ++ [RequiresManualOrModelPatch]
      else attempted0 in
    let modelPatchAllowed := hasLintFailure || hasTypecheckFailure in
    if negb modelPatchAllowed then
      ret {| attempted :=
               attempted1 ++ [SkipModelPatch (dedup_gates [] (map f_gate (findings current)))];
             currentFailures := current; shortCircuitPass := false |}
    else
      let modelPolicy := getModelRoutingPolicy in
      let* hintResult := runHintModel current modelPolicy in
      let* patchResult := runPatchModel current modelPolicy (maxPatchLines policy) in
      ret {| attempted := attempted1 ++ [OllamaHint hintResult; OllamaPatchPlan patchResult];
             currentFailures := current; shortCircuitPass := false |}.

(** runRepairActions *)
Definition runRepairActions (failures : FailuresReport) (policy : Policy)
    (deterministicOnly : bool) : M E RepairActions :=
  let* deterministicActions := runDeterministicPreFix failures in
  let* refreshed :=
    if (0 <? Z.of_nat (length deterministicActions)) then
      let* rerunAfterDeterministic :=
        executeRun (mode failures) (changed_files failures) in
      let* current := readFailures in
      let* _ := executeSummarize in
      ret (deterministicActions
             ++ [DeterministicPrefixRerun (run_status rerunAfterDeterministic)
                   (Z.of_nat (length (findings current)))],
           current)
    else ret ([], failures) in
  runModelActions (fst refreshed) (snd refreshed) policy deterministicOnly.

(** The values that executeRepair converts with [Number]: the policy is
    computed when all four convert, and a TypeError is thrown otherwise. *)
Definition policyValues (maxAttemptsArg : JS.value) (config : Config) : list JS.value :=
  [JS.or (JS.or maxAttemptsArg (cfg_maxAttempts config))
     (JS.VNum (JS.Int DEFAULT_maxAttempts));
   JS.or (cfg_maxPatchLines config) (JS.VNum (JS.Int DEFAULT_maxPatchLines));
   JS.or (cfg_abortOnNoImprovement config) (JS.VNum (JS.Int DEFAULT_abortOnNoImprovement));
   JS.or (cfg_timeCapMs config) (JS.VNum (JS.Int DEFAULT_timeCapMs))].

(** The policy of executeRepair: [Number(a || b || c)]. *)
Definition computePolicy (maxAttemptsArg : JS.value) (config : Config) : Policy :=
  {| maxAttempts :=
       ToNumber (JS.or (JS.or maxAttemptsArg (cfg_maxAttempts config))
                   (JS.VNum (JS.Int DEFAULT_maxAttempts)));
     maxPatchLines :=
       ToNumber (JS.or (cfg_maxPatchLines config) (JS.VNum (JS.Int DEFAULT_maxPatchLines)));
     abortOnNoImprovement :=
       ToNumber (JS.or (cfg_abortOnNoImprovement config)
                   (JS.VNum (JS.Int DEFAULT_abortOnNoImprovement)));
     timeCapMs :=
       ToNumber (JS.or (cfg_timeCapMs config) (JS.VNum (JS.Int DEFAULT_timeCapMs))) |}.

(** fs-utils.js, writeJsonFileSync, for the two terminal artifacts. *)
Definition writeRepairReport (r : RepairReport) : M E unit :=
  fun st =>
    (Ret tt, mkState (tree st) (failures_json st) (Some r) (escalation_json st)
               (history st ++ [Wrote RepairReportFile]) (world st)).

Definition writeEscalation (e : Escalation) : M E unit :=
  fun st =>
    (Ret tt, mkState (tree st) (failures_json st) (repair_report_json st) (Some e)
               (history st ++ [Wrote EscalationFile]) (world st)).

Definition escalate (e : Escalation) : M E RepairOutcome :=
  let* _ := writeEscalation e in ret (Escalated e).

Definition report (log : list AttemptRecord) : M E RepairOutcome :=
  let result := {| attempts := log |} in
  let* _ := writeRepairReport result in ret (Repaired result).

(** The variables of executeRepair that live across iterations. *)
Record LoopState : Type := {
  ls_failures : FailuresReport;
  previousCount : Z;
  noImprovement : Z;
  ls_attempts : list AttemptRecord
}.

(** One iteration either returns from executeRepair or falls through to the
    next one. *)
Inductive Step : Type :=
| Return (r : RepairOutcome)
| Continue (ls : LoopState).

(** The body of the for-loop of executeRepair. *)
Definition attemptBody (policy : Policy) (deterministicOnly : bool) (started : Z)
    (attempt : Z) (ls : LoopState) : M E Step :=
  let* t := now in
  if JS.gt (JS.Int (t - started)) (timeCapMs policy) then
    let* r := escalate {| reason_code := UNKNOWN_BLOCKER;
                          message := TimeCapReached (timeCapMs policy);
                          evidence_attempts := None |} in
    ret (Return r)
  else
    let* _ := backupWorkspace attempt in
    let* preActionDiff := diffSnapshot in
    let* repairResult := runRepairActions (ls_failures ls) policy deterministicOnly in
    let repairActions := attempted repairResult in
    let failuresForRerun := currentFailures repairResult in
    let* postActionDiff := diffSnapshot in
    let patchLines := computePatchLines preActionDiff postActionDiff in
    if JS.gt (JS.Int patchLines) (maxPatchLines policy) then
      let* _ := restoreWorkspace attempt in
      let* r := escalate {| reason_code := PATCH_BUDGET_EXCEEDED;
                            message := PatchBudgetExceededAt attempt patchLines
                                         (maxPatchLines policy);
                            evidence_attempts := None |} in
      ret (Return r)
    else if shortCircuitPass repairResult then
      let* r := report (ls_attempts ls
                        ++ [{| attempt := attempt;
                               patch_lines := patchLines;
                               before_findings := previousCount ls;
                               after_findings := 0;
                               improved := true;
                               worsened := false;
                               attempt_status := pass;
                               actions := repairActions |}]) in
      ret (Return r)
    else
      let* rerun := executeRun (mode failuresForRerun) (changed_files failuresForRerun) in
      let* failures := readFailures in
      let* _ := executeSummarize in
      let currentCount := Z.of_nat (length (findings failures)) in
      let improved := currentCount <? previousCount ls in
      let worsened := previousCount ls <? currentCount in
      let attempts' :=
        ls_attempts ls
        ++ [{| attempt := attempt;
               patch_lines := patchLines;
               before_findings := previousCount ls;
               after_findings := currentCount;
               improved := improved;
               worsened := worsened;
               attempt_status := run_status rerun;
               actions := repairActions |}] in
      match run_status rerun with
      | pass => let* r := report attempts' in ret (Return r)
      | fail =>
          let* _ := if worsened then restoreWorkspace attempt else ret tt in
          let noImprovement' := if improved then 0 else noImprovement ls + 1 in
          if JS.ge (JS.Int noImprovement') (abortOnNoImprovement policy) then
            let* r := escalate {| reason_code := NO_IMPROVEMENT;
                                  message := NoMeasurableImprovement noImprovement';
                                  evidence_attempts := Some attempts' |} in
            ret (Return r)
          else
            ret (Continue {| ls_failures := failures;
                             previousCount := currentCount;
                             noImprovement := noImprovement';
                             ls_attempts := attempts' |})
      end.

(** The for-loop of executeRepair: [remaining] counts the values of
    [attempt] that are still at most [policy.maxAttempts]. *)
Fixpoint repairLoop (policy : Policy) (deterministicOnly : bool) (started : Z)
    (remaining : nat) (attempt : Z) (ls : LoopState) : M E RepairOutcome :=
  match remaining with
  | O =>
      escalate {| reason_code := UNKNOWN_BLOCKER;
                  message := AttemptsExhausted (maxAttempts policy);
                  evidence_attempts := None |}
  | S remaining' =>
      let* step := attemptBody policy deterministicOnly started attempt ls in
      match step with
      | Return r => ret r
      | Continue ls' =>
          repairLoop policy deterministicOnly started remaining' (attempt + 1) ls'
      end
  end.

(** How often [attempt <= maxAttempts] holds, counting [attempt] up from 1. *)
Definition iterations (maxAttempts : JS.num) : nat :=
  match maxAttempts with
  | JS.Int m => Z.to_nat m
  | JS.NaN => O
  end.

(** executeRepair. [input] is taken to name .quick-gate/failures.json, as
    the command line and every caller in the repository pass it. *)
Definition executeRepair (maxAttemptsArg : JS.value) (deterministicOnly : bool)
  : M E RepairOutcome :=
  let* config := loadConfig in
  if negb (forallb JS.converts (policyValues maxAttemptsArg config)) then throw TypeError
  else
    let policy := computePolicy maxAttemptsArg config in
    let* failures := readFailures in
    let* started := now in
    repairLoop policy deterministicOnly started (iterations (maxAttempts policy)) 1
      {| ls_failures := failures;
         previousCount := Z.of_nat (length (findings failures));
         noImprovement := 0;
         ls_attempts := [] |}.

End Tool.

(* ===================================================================== *)
(** ** A concrete host, for running the embedding on examples *)
(* ===================================================================== *)

Module Demo.

(** The double quote, and a quoted word, for writing JSON texts. *)
Definition dq : string := String (ascii_of_nat 34) EmptyString.
Definition qt (s : string) : string := dq +:+ s +:+ dq.

(** package.json without scripts. *)
Definition package_json : string := "{}".

(** package.json with a lint script. *)
Definition package_with_lint : string :=
  "{" +:+ qt "scripts" +:+ ":{" +:+ qt "lint" +:+ ":" +:+ qt "eslint ." +:+ "}}".

Definition package_with_lint_value : JS.value :=
  JS.VObj [("scripts", JS.VObj [("lint", JS.VStr "eslint .")])].

(** An edit plan that blanks line 2 of src/app.ts. *)
Definition plan_text : string :=
  "{" +:+ qt "summary" +:+ ":" +:+ qt "remove marker" +:+ "," +:+ qt "edits" +:+ ":[{"
  +:+ qt "file" +:+ ":" +:+ qt "src/app.ts" +:+ "," +:+ qt "start_line" +:+ ":2,"
  +:+ qt "end_line" +:+ ":2," +:+ qt "replacement" +:+ ":" +:+ qt "" +:+ "}]}".

Definition plan_value : JS.value :=
  JS.VObj [("summary", JS.VStr "remove marker");
           ("edits", JS.VArr [JS.VObj [("file", JS.VStr "src/app.ts");
                                       ("start_line", JS.VNum (JS.Int 2));
                                       ("end_line", JS.VNum (JS.Int 2));
                                       ("replacement", JS.VStr "")]])].

(** Assertion results with one failing record whose url is [url]. *)
Definition assertion_text (url : string) : string :=
  "[{" +:+ qt "passed" +:+ ":false," +:+ qt "url" +:+ ":" +:+ qt url +:+ ","
  +:+ qt "assertion" +:+ ":" +:+ qt "categories:performance" +:+ "}]".

Definition assertion_value (url : string) : JS.value :=
  JS.VArr [JS.VObj [("passed", JS.VBool false); ("url", JS.VStr url);
                    ("assertion", JS.VStr "categories:performance")]].

(** quick-gate.config.json setting one policy field to 0. *)
Definition config_text (field : string) : string :=
  "{" +:+ qt "policy" +:+ ":{" +:+ qt field +:+ ":0}}".

Definition config_value (field : string) : JS.value :=
  JS.VObj [("policy", JS.VObj [(field, JS.VNum (JS.Int 0))])].

(** quick-gate.config.json setting maxPatchLines to 0 and timeCapMs to 5000. *)
Definition config_mixed_text : string :=
  "{" +:+ qt "policy" +:+ ":{" +:+ qt "maxPatchLines" +:+ ":0,"
  +:+ qt "timeCapMs" +:+ ":5000}}".

Definition config_mixed_value : JS.value :=
  JS.VObj [("policy", JS.VObj [("maxPatchLines", JS.VNum (JS.Int 0));
                               ("timeCapMs", JS.VNum (JS.Int 5000))])].

(** quick-gate.config.json setting maxPatchLines to the word many. *)
Definition config_many_text : string :=
  "{" +:+ qt "policy" +:+ ":{" +:+ qt "maxPatchLines" +:+ ":" +:+ qt "many" +:+ "}}".

Definition config_many_value : JS.value :=
  JS.VObj [("policy", JS.VObj [("maxPatchLines", JS.VStr "many")])].

(** [JSON.parse] on the texts used in the examples; every other text that
    occurs there (such as a lone opening brace, or prose) is not JSON. *)
Definition JSON_table : list (string * JS.value) :=
  [ ("{}", JS.VObj []);
    ("[]", JS.VArr []);
    ("null", JS.VNull);
    ("[null]", JS.VArr [JS.VNull]);
    (package_with_lint, package_with_lint_value);
    (plan_text, plan_value);
    (assertion_text "http://localhost:3000/about?utm=1",
     assertion_value "http://localhost:3000/about?utm=1");
    (assertion_text "about", assertion_value "about");
    (config_text "maxAttempts", config_value "maxAttempts");
    (config_text "maxPatchLines", config_value "maxPatchLines");
    (config_text "abortOnNoImprovement", config_value "abortOnNoImprovement");
    (config_text "timeCapMs", config_value "timeCapMs");
    (config_mixed_text, config_mixed_value);
    (config_many_text, config_many_value) ].

Fixpoint table_lookup (k : string) (t : list (string * JS.value)) : option JS.value :=
  match t with
  | [] => None
  | (k', v) :: rest => if String.eqb k k' then Some v else table_lookup k rest
  end.

Definition json_parse (s : string) : option JS.value := table_lookup s JSON_table.

(** Decimal digits to a number; the empty string is 0; anything else NaN. *)
Fixpoint digits_value (acc : Z) (s : string) : option Z :=
  match s with
  | EmptyString => Some acc
  | String c rest =>
      let n := nat_of_ascii c in
      if ((48 <=? n) && (n <=? 57))%nat
      then digits_value (10 * acc + Z.of_nat (n - 48)) rest
      else None
  end.

Definition string_to_number (s : string) : JS.num :=
  match s with
  | String "-"%char (String c rest) =>
      match digits_value 0 (String c rest) with
      | Some z => JS.Int (- z)
      | None => JS.NaN
      end
  | _ => match digits_value 0 s with Some z => JS.Int z | None => JS.NaN end
  end.

Fixpoint digits_of (fuel : nat) (n : Z) (acc : string) : string :=
  match fuel with
  | O => acc
  | S fuel' =>
      let acc' := String (ascii_of_nat (48 + Z.to_nat (n mod 10))) acc in
      if n / 10 =? 0 then acc' else digits_of fuel' (n / 10) acc'
  end.

Definition number_to_string (n : JS.num) : string :=
  match n with
  | JS.NaN => "NaN"
  | JS.Int z =>
      if z <? 0 then "-" +:+ digits_of 40 (- z) "" else digits_of 40 z ""
  end.

(** The pathname of a plain [http://host/path?query#fragment] URL; texts
    without that scheme do not parse. *)
Fixpoint upto_query (s : string) : string :=
  match s with
  | EmptyString => EmptyString
  | String c rest =>
      if Ascii.eqb c "?"%char || Ascii.eqb c "#"%char then EmptyString
      else String c (upto_query rest)
  end.

Fixpoint from_slash (s : string) : string :=
  match s with
  | EmptyString => EmptyString
  | String c rest =>
      if Ascii.eqb c "/"%char then s
      else if Ascii.eqb c "?"%char || Ascii.eqb c "#"%char then EmptyString
      else from_slash rest
  end.

Definition url_pathname (s : string) : option string :=
  if startsWith "http://" s then
    let p := upto_query (from_slash (String.substring 7 (String.length s - 7) s)) in
    Some (if String.eqb p "" then "/" else p)
  else None.

(** Paths: relative names without dot segments, joined with a slash. *)
Definition join_path (dir rel : string) : string := dir +:+ "/" +:+ rel.

Definition relative_path (dir p : string) : string :=
  String.substring (String.length dir + 1) (String.length p - String.length dir - 1) p.

Definition basename (p : string) : string :=
  match lastIndexOf_from 0 "/"%char p with
  | Some i => String.substring (S i) (String.length p - S i) p
  | None => p
  end.

Definition extname (p : string) : string :=
  let b := basename p in
  match lastIndexOf_from 0 "."%char b with
  | Some (S i) => String.substring (S i) (String.length b - S i) b
  | _ => ""
  end.

(** [trim] for the blanks of ASCII. *)
Definition is_blank (c : ascii) : bool :=
  let n := nat_of_ascii c in ((n =? 32) || ((9 <=? n) && (n <=? 13)))%nat.

Fixpoint trim_start (s : string) : string :=
  match s with
  | String c rest => if is_blank c then trim_start rest else s
  | EmptyString => EmptyString
  end.

Fixpoint trim_end (s : string) : string :=
  match s with
  | EmptyString => EmptyString
  | String c rest =>
      match trim_end rest with
      | EmptyString => if is_blank c then EmptyString else String c EmptyString
      | kept => String c kept
      end
  end.

Definition trim (s : string) : string := trim_end (trim_start s).

Definition no_env : ProcessEnv :=
  {| QUICK_GATE_HINT_MODEL := None;
     QUICK_GATE_PATCH_MODEL := None;
     QUICK_GATE_ALLOW_HINT_ONLY_PATCH := None;
     QUICK_GATE_MODEL_TIMEOUT_MS := None;
     QUICK_GATE_MOCK_OLLAMA_HINT := None;
     QUICK_GATE_MOCK_OLLAMA_PATCH := None |}.

(** The model answers are mocked through the two test variables. *)
Definition mock_env (hint_output patch_output : string) : ProcessEnv :=
  {| QUICK_GATE_HINT_MODEL := None;
     QUICK_GATE_PATCH_MODEL := None;
     QUICK_GATE_ALLOW_HINT_ONLY_PATCH := None;
     QUICK_GATE_MODEL_TIMEOUT_MS := None;
     QUICK_GATE_MOCK_OLLAMA_HINT := Some hint_output;
     QUICK_GATE_MOCK_OLLAMA_PATCH := Some patch_output |}.

(** The directories of the projects below. *)
Definition directories : list string := ["/work"; "/work/src"].

(** The world is a clock in milliseconds that advances by one at each
    reading; a child process exits with [exit_of] its command, prints
    nothing and leaves the files alone; git is not installed. *)
Definition host (env : ProcessEnv) (exit_of : Command -> Z) : Host Z :=
  {| JSON_parse := json_parse;
     StringToNumber := string_to_number;
     NumberToString := number_to_string;
     String_trim := trim;
     URL_pathname := url_pathname;
     path_join := join_path;
     path_relative := relative_path;
     path_extname := extname;
     process_env := env;
     hasGit := false;
     hasRsync := true;
     isDirectory := fun _ p => existsb (String.eqb p) directories;
     Date_now := fun t => (t, t + 1);
     spawnSync := fun c files t =>
       ({| sp_exit_code := exit_of c; sp_timed_out := false;
           sp_stdout := ""; sp_stderr := "" |}, files, t + 1);
     failures_schema_valid := fun _ => true;
     agent_brief_schema_valid := fun _ => true |}.

(** Every command succeeds / every command fails. *)
Definition passing_host : Host Z := host no_env (fun _ => 0).
Definition failing_host : Host Z := host no_env (fun _ => 1).

Definition cwd : string := "/work".

(** A project: package.json and one source file of three lines. *)
Definition app_ts : string :=
  "export const v = 1;" +:+ Text.lf +:+ "// __LINT_FAIL__" +:+ Text.lf.

Definition project : gmap string string :=
  {[ "/work/package.json" := package_json; "/work/src/app.ts" := app_ts ]}.

Definition lint_finding : Finding :=
  {| f_id := "lint_err_0"; f_gate := lint; f_severity := high;
     f_files := Some ["src/app.ts"]; f_route := None; f_metric := None |}.

Definition failing_report : FailuresReport :=
  {| mode := "canary"; status := fail; changed_files := ["src/app.ts"];
     gates := [{| g_name := lint; g_status := gate_fail |}];
     findings := [lint_finding] |}.

Definition clean_report : FailuresReport :=
  {| mode := "canary"; status := pass; changed_files := ["src/app.ts"];
     gates := [{| g_name := lint; g_status := gate_pass |}];
     findings := [] |}.

Definition initial (files : gmap string string) (failures : option FailuresReport)
  : State Z :=
  mkState files failures None None [] 0.

(** A project with a configuration file that sets maxPatchLines to 0. *)
Definition configured : State Z :=
  initial (<["/work/quick-gate.config.json" := config_text "maxPatchLines"]> project) None.

Definition configured_mixed : State Z :=
  initial (<["/work/quick-gate.config.json" := config_mixed_text]> project) None.

Definition configured_many : State Z :=
  initial (<["/work/quick-gate.config.json" := config_many_text]> project) None.

(** Two failing assertion records: an absolute url, a relative one. *)
Definition row_about : JS.value :=
  JS.VObj [("passed", JS.VBool false);
           ("url", JS.VStr "http://localhost:3000/about?utm=1")].

Definition row_relative : JS.value :=
  JS.VObj [("passed", JS.VBool false); ("url", JS.VStr "about")].

(** The edit that blanks line 2 of src/app.ts, alone in a plan. *)
Definition blank_line_2 : Edit :=
  {| file := "src/app.ts"; start_line := 2; end_line := 2; replacement := "" |}.

Definition blank_plan : EditPlan := {| summary := "remove marker"; edits := [blank_line_2] |}.

(** A file with CRLF line ends, and a plan that rewrites its second line. *)
Definition crlf_ts : string := "a" +:+ Text.crlf +:+ "b" +:+ Text.crlf +:+ "c".

Definition crlf_project : State Z :=
  initial (<["/work/src/crlf.ts" := crlf_ts]> project) None.

Definition crlf_plan : EditPlan :=
  {| summary := "";
     edits := [{| file := "src/crlf.ts"; start_line := 2; end_line := 2;
                  replacement := "X" |}] |}.

(** A project whose package.json declares a lint script. *)
Definition scripted_project : State Z :=
  initial (<["/work/package.json" := package_with_lint]> project) None.

(** A workspace whose last gate run found nothing, with the escalation of
    an earlier repair still on disk. *)
Definition stale_escalation : Escalation :=
  {| reason_code := UNKNOWN_BLOCKER; message := AttemptsExhausted (JS.Int 3);
     evidence_attempts := None |}.

Definition clean_with_stale_escalation : State Z :=
  mkState project (Some clean_report) None (Some stale_escalation) [] 0.

(** The patch model is mocked to answer with [plan_text]. *)
Definition patching_host : Host Z := host (mock_env "" plan_text) (fun _ => 1).

End Demo.


(* ===================================================================== *)
(** ** Reasoning about computations in [M] *)
(* ===================================================================== *)

Lemma bind_inv {E A B} (m : M E A) (k : A -> M E B) st r st' :
  bind m k st = (r, st') ->
  (exists a st1, m st = (Ret a, st1) /\ k a st1 = (r, st'))
  \/ (exists e, m st = (Throw e, st') /\ r = Throw e).
Proof.
  unfold bind. destruct (m st) as [[a|e] st1]; intros Hk.
  - left. eauto.
  - right. inversion Hk; subst. eauto.
Qed.

Lemma bind_ret_inv {E A B} (m : M E A) (k : A -> M E B) st b st' :
  bind m k st = (Ret b, st') ->
  exists a st1, m st = (Ret a, st1) /\ k a st1 = (Ret b, st').
Proof.
  intros Hb. apply bind_inv in Hb as [Hok | [e [_ Hthrow]]]; [exact Hok | discriminate].
Qed.

Lemma bind_run {E A B} (m : M E A) (k : A -> M E B) st a st1 :
  m st = (Ret a, st1) -> bind m k st = k a st1.
Proof. unfold bind. intros ->. reflexivity. Qed.

Lemma ret_inv {E A} (a : A) (st : State E) r st' :
  ret a st = (r, st') -> r = Ret a /\ st' = st.
Proof. unfold ret. intros Heq. inversion Heq. auto. Qed.

(** Take apart a hypothesis [m st = (Ret b, st')] whose head is a bind, a
    return, a throw or a case distinction. *)
Ltac minv H :=
  lazymatch type of H with
  | bind _ _ _ = (Ret _, _) =>
      let a := fresh "a" in let st1 := fresh "st" in
      let H1 := fresh "Hrun" in
      apply bind_ret_inv in H as (a & st1 & H1 & H)
  | ret _ _ = _ => apply ret_inv in H as [H ?]; simplify_eq
  | throw _ _ = _ => discriminate H
  | (if ?b then _ else _) _ = _ => destruct b eqn:?
  | (match ?x with _ => _ end) _ = _ => destruct x eqn:?
  end.

(** Reading a file, case by case. *)
Section ReadFile.
Context {E : Type} (H : Host E) (cwd : string).

Lemma readFile_state rel (st : State E) r st' :
  readFile H cwd rel st = (r, st') -> st' = st.
Proof.
  unfold readFile. destruct (tree st !! _); [|destruct (isDirectory H _ _)];
    intros Hrun; inversion Hrun; reflexivity.
Qed.

Lemma readFile_Some rel (st : State E) text :
  tree st !! path_join H cwd rel = Some text ->
  readFile H cwd rel st = (Ret (Some text), st).
Proof. unfold readFile. intros ->. reflexivity. Qed.

Lemma readFile_absent rel (st : State E) :
  tree st !! path_join H cwd rel = None ->
  isDirectory H (world st) (path_join H cwd rel) = false ->
  readFile H cwd rel st = (Ret None, st).
Proof. unfold readFile. intros -> ->. reflexivity. Qed.

Lemma readFile_directory rel (st : State E) :
  tree st !! path_join H cwd rel = None ->
  isDirectory H (world st) (path_join H cwd rel) = true ->
  readFile H cwd rel st = (Throw EISDIR, st).
Proof. unfold readFile. intros -> ->. reflexivity. Qed.

Lemma readFile_ret rel (st : State E) text st' :
  readFile H cwd rel st = (Ret text, st') ->
  st' = st
  /\ text = tree st !! path_join H cwd rel
  /\ (text = None -> isDirectory H (world st) (path_join H cwd rel) = false).
Proof.
  unfold readFile. destruct (tree st !! _) as [t|] eqn:Hfile.
  - intros Hrun. inversion Hrun. split_and!; [reflexivity | reflexivity | discriminate].
  - destruct (isDirectory H _ _) eqn:Hdir; intros Hrun; inversion Hrun.
    split_and!; reflexivity.
Qed.

End ReadFile.
(* ===================================================================== *)
(** ** The policy of executeRepair *)
(* ===================================================================== *)

Lemma or_falsy a b : JS.truthy a = false -> JS.or a b = b.
Proof. unfold JS.or. intros ->. reflexivity. Qed.

Lemma or_truthy a b : JS.truthy a = true -> JS.or a b = a.
Proof. unfold JS.or. intros ->. reflexivity. Qed.

(** A field that the user's policy leaves out, or sets to a falsy value,
    ends as the built-in default once [|| default] is applied. *)
Lemma merged_field_falsy fields k d :
  JS.truthy (JS.assoc k fields) = false ->
  JS.or (merged_policy_field (JS.VObj fields) k d) (JS.VNum (JS.Int d))
  = JS.VNum (JS.Int d).
Proof.
  intros Hfalsy. unfold merged_policy_field.
  rewrite (or_truthy (JS.VObj fields)) by reflexivity.
  destruct (has_key k fields).
  - apply or_falsy. exact Hfalsy.
  - unfold JS.or. destruct (JS.truthy (JS.VNum (JS.Int d))); reflexivity.
Qed.

Lemma merged_field_truthy fields k d :
  JS.truthy (JS.assoc k fields) = true ->
  JS.or (merged_policy_field (JS.VObj fields) k d) (JS.VNum (JS.Int d))
  = JS.assoc k fields.
Proof.
  intros Htruthy. unfold merged_policy_field.
  rewrite (or_truthy (JS.VObj fields)) by reflexivity.
  assert (Hkey : has_key k fields = true).
  { induction fields as [|[k' v] rest IH]; cbn in *; [discriminate|].
    destruct (String.eqb k k'); [reflexivity | auto]. }
  rewrite Hkey. apply or_truthy. exact Htruthy.
Qed.

Lemma assoc_no_key k fields : has_key k fields = false -> JS.assoc k fields = JS.VUndefined.
Proof.
  induction fields as [|[k' v] rest IH]; cbn; [reflexivity|].
  destruct (String.eqb k k'); [discriminate | exact IH].
Qed.

(** After [|| default], the merged policy gives what the policy object of
    the file gives: its entry when that is truthy, the default otherwise. *)
Lemma merged_field fields k d :
  JS.or (merged_policy_field (JS.VObj fields) k d) (JS.VNum (JS.Int d))
  = JS.or (JS.assoc k fields) (JS.VNum (JS.Int d)).
Proof.
  unfold merged_policy_field. rewrite (or_truthy (JS.VObj fields)) by reflexivity.
  destruct (has_key k fields) eqn:Hkey; [reflexivity|].
  rewrite (assoc_no_key _ _ Hkey). unfold JS.or.
  destruct (JS.truthy (JS.VNum (JS.Int d))); reflexivity.
Qed.

Lemma merged_field_cli arg fields k d :
  JS.or (JS.or arg (merged_policy_field (JS.VObj fields) k d)) (JS.VNum (JS.Int d))
  = JS.or (JS.or arg (JS.assoc k fields)) (JS.VNum (JS.Int d)).
Proof.
  destruct (JS.truthy arg) eqn:Harg.
  - rewrite !(or_truthy arg) by exact Harg. reflexivity.
  - rewrite !(or_falsy arg) by exact Harg. apply merged_field.
Qed.

(** C10. In executeRepair each policy field is [Number(value || default)],
    where the value is the entry of the policy object of
    quick-gate.config.json (for maxAttempts the command-line value when that
    is truthy, else the entry): the loop runs with these four numbers, and
    executeRepair throws a TypeError when one of the values does not convert.
    So a field that the file sets to a falsy value (an explicit 0 in
    particular) ends as the built-in default, 150 for maxPatchLines, 2 for
    abortOnNoImprovement, 1200000 for timeCapMs, and for maxAttempts as what
    the command-line value, or else the default 3, converts to: the
    configured value is not used. A truthy entry is used as given. *)
Theorem C10_falsy_policy_value_gives_default
    {E} (H : Host E) (cwd : string) (maxAttemptsArg : JS.value) (st : State E)
    (text : string) (userConfig : JS.value) (fields : list (string * JS.value)) :
  tree st !! path_join H cwd "quick-gate.config.json" = Some text ->
  JSON_parse H text = Some userConfig ->
  JS.prop userConfig "policy" = Some (JS.VObj fields) ->
  exists config,
    loadConfig H cwd st = (Ret config, st) /\
    let policy := computePolicy H maxAttemptsArg config in
    let given := fun k => JS.assoc k fields in
    let number := fun d => JS.VNum (JS.Int d) in
    (maxAttempts policy
     = ToNumber H (JS.or (JS.or maxAttemptsArg (given "maxAttempts"))
                     (number DEFAULT_maxAttempts))
     /\ maxPatchLines policy
        = ToNumber H (JS.or (given "maxPatchLines") (number DEFAULT_maxPatchLines))
     /\ abortOnNoImprovement policy
        = ToNumber H (JS.or (given "abortOnNoImprovement")
                        (number DEFAULT_abortOnNoImprovement))
     /\ timeCapMs policy
        = ToNumber H (JS.or (given "timeCapMs") (number DEFAULT_timeCapMs))) /\
    (JS.truthy (given "maxAttempts") = false ->
     maxAttempts policy
     = ToNumber H (JS.or maxAttemptsArg (number DEFAULT_maxAttempts))) /\
    (JS.truthy (given "maxPatchLines") = false ->
     maxPatchLines policy = JS.Int DEFAULT_maxPatchLines) /\
    (JS.truthy (given "abortOnNoImprovement") = false ->
     abortOnNoImprovement policy = JS.Int DEFAULT_abortOnNoImprovement) /\
    (JS.truthy (given "timeCapMs") = false ->
     timeCapMs policy = JS.Int DEFAULT_timeCapMs) /\
    (JS.truthy maxAttemptsArg = false -> JS.truthy (given "maxAttempts") = true ->
     maxAttempts policy = ToNumber H (given "maxAttempts")) /\
    (JS.truthy (given "maxPatchLines") = true ->
     maxPatchLines policy = ToNumber H (given "maxPatchLines")) /\
    (JS.truthy (given "abortOnNoImprovement") = true ->
     abortOnNoImprovement policy = ToNumber H (given "abortOnNoImprovement")) /\
    (JS.truthy (given "timeCapMs") = true ->
     timeCapMs policy = ToNumber H (given "timeCapMs")) /\
    (forall deterministicOnly,
        executeRepair H cwd maxAttemptsArg deterministicOnly st
        = if forallb JS.converts (policyValues maxAttemptsArg config)
          then (let* failures := readFailures in
                let* started := now H in
                repairLoop H cwd policy deterministicOnly started
                  (iterations (maxAttempts policy)) 1
                  {| ls_failures := failures;
                     previousCount := Z.of_nat (length (findings failures));
                     noImprovement := 0;
                     ls_attempts := [] |}) st
          else (Throw TypeError, st)).
Proof.
  intros Hfile Hparse Hpolicy.
  assert (Hcommands : exists c, JS.prop userConfig "commands" = Some c).
  { destruct userConfig; cbn in *; try discriminate; eauto. }
  destruct Hcommands as [userCommands Hcommands].
  assert (Hload : loadConfig H cwd st
                  = (Ret {| cfg_maxAttempts :=
                              merged_policy_field (JS.VObj fields) "maxAttempts"
                                DEFAULT_maxAttempts;
                            cfg_maxPatchLines :=
                              merged_policy_field (JS.VObj fields) "maxPatchLines"
                                DEFAULT_maxPatchLines;
                            cfg_abortOnNoImprovement :=
                              merged_policy_field (JS.VObj fields) "abortOnNoImprovement"
                                DEFAULT_abortOnNoImprovement;
                            cfg_timeCapMs :=
                              merged_policy_field (JS.VObj fields) "timeCapMs"
                                DEFAULT_timeCapMs;
                            cfg_commands := spread_commands userCommands |}, st)).
  { unfold loadConfig, readFile, bind. rewrite Hfile, Hparse.
    unfold config_of_user. rewrite Hpolicy, Hcommands. reflexivity. }
  eexists. split; [exact Hload|]. cbn zeta.
  match goal with
  | |- (maxAttempts ?p = ?a /\ maxPatchLines ?p = ?b /\ abortOnNoImprovement ?p = ?c
        /\ timeCapMs ?p = ?d) /\ _ =>
      assert (Hma : maxAttempts p = a)
        by (cbn [computePolicy maxAttempts cfg_maxAttempts];
            rewrite merged_field_cli; reflexivity);
      assert (Hmp : maxPatchLines p = b)
        by (cbn [computePolicy maxPatchLines cfg_maxPatchLines];
            rewrite merged_field; reflexivity);
      assert (Hab : abortOnNoImprovement p = c)
        by (cbn [computePolicy abortOnNoImprovement cfg_abortOnNoImprovement];
            rewrite merged_field; reflexivity);
      assert (Htc : timeCapMs p = d)
        by (cbn [computePolicy timeCapMs cfg_timeCapMs];
            rewrite merged_field; reflexivity)
  end.
  split; [split_and!; assumption|].
  split_and!.
  - intros Hfalsy. rewrite Hma. destruct (JS.truthy maxAttemptsArg) eqn:Harg.
    + rewrite !(or_truthy maxAttemptsArg) by exact Harg. reflexivity.
    + rewrite !(or_falsy maxAttemptsArg) by exact Harg.
      rewrite or_falsy by exact Hfalsy. unfold JS.or.
      destruct (JS.truthy (JS.VNum (JS.Int DEFAULT_maxAttempts))); reflexivity.
  - intros Hfalsy. rewrite Hmp, or_falsy by exact Hfalsy. reflexivity.
  - intros Hfalsy. rewrite Hab, or_falsy by exact Hfalsy. reflexivity.
  - intros Hfalsy. rewrite Htc, or_falsy by exact Hfalsy. reflexivity.
  - intros Harg Htruthy. rewrite Hma, (or_falsy maxAttemptsArg) by exact Harg.
    rewrite or_truthy by exact Htruthy. reflexivity.
  - intros Htruthy. rewrite Hmp, or_truthy by exact Htruthy. reflexivity.
  - intros Htruthy. rewrite Hab, or_truthy by exact Htruthy. reflexivity.
  - intros Htruthy. rewrite Htc, or_truthy by exact Htruthy. reflexivity.
  - intros deterministicOnly. unfold executeRepair.
    rewrite (bind_run _ _ _ _ _ Hload).
    destruct (forallb JS.converts _); reflexivity.
Qed.

(** A configuration file that sets maxPatchLines to 0 and timeCapMs to 5000
    and leaves the other fields out: maxPatchLines is the default 150, not 0;
    timeCapMs is 5000; the other two are the defaults. *)
Lemma C10_witness :
  exists config,
    loadConfig Demo.passing_host Demo.cwd Demo.configured_mixed
    = (Ret config, Demo.configured_mixed) /\
    computePolicy Demo.passing_host JS.VUndefined config
    = {| maxAttempts := JS.Int 3; maxPatchLines := JS.Int 150;
         abortOnNoImprovement := JS.Int 2; timeCapMs := JS.Int 5000 |}.
Proof.
  destruct (C10_falsy_policy_value_gives_default Demo.passing_host Demo.cwd
              JS.VUndefined Demo.configured_mixed
              Demo.config_mixed_text Demo.config_mixed_value
              [("maxPatchLines", JS.VNum (JS.Int 0)); ("timeCapMs", JS.VNum (JS.Int 5000))])
    as (config & Hload & _ & Hma & Hmp & Hab & _ & _ & _ & _ & Htc & _);
    [vm_compute; reflexivity | vm_compute; reflexivity | reflexivity |].
  exists config. split; [exact Hload|].
  specialize (Hma eq_refl). specialize (Hmp eq_refl).
  specialize (Hab eq_refl). specialize (Htc eq_refl).
  destruct (computePolicy Demo.passing_host JS.VUndefined config) as [ma mp ab tc].
  cbn in Hma, Hmp, Hab, Htc. subst. reflexivity.
Defined.

(* ===================================================================== *)
(** ** The route of a Lighthouse finding *)
(* ===================================================================== *)

(** What lighthouseFinding answers for a record it accepts. *)
Lemma lighthouseFinding_inv {E} (H : Host E) (row : JS.value) (r : option Finding) :
  lighthouseFinding H row = Some r ->
  exists passed url assertion,
    JS.prop row "passed" = Some passed
    /\ JS.prop row "url" = Some url
    /\ JS.prop row "assertion" = Some assertion
    /\ if JS.truthy passed then r = None
       else
         let route := routePath H url in
         let metric := ToString H (JS.or assertion (JS.VStr "lighthouse_assertion")) in
         r = Some {| f_id := toLowerCase ("lh_" +:+ slug route +:+ "_" +:+ slug metric);
                     f_gate := lighthouse;
                     f_severity := high;
                     f_files := None;
                     f_route := Some route;
                     f_metric := Some metric |}.
Proof.
  unfold lighthouseFinding. intros Hrow.
  destruct (JS.prop row "passed") as [passed|]; [|discriminate].
  destruct (JS.prop row "url") as [url|]; [|discriminate].
  destruct (JS.prop row "assertion") as [assertion|]; [|discriminate].
  destruct (JS.prop row "expected") as [expected|]; [|discriminate].
  destruct (JS.prop row "numericValue") as [numericValue|]; [|discriminate].
  destruct (JS.prop row "value") as [value|]; [|discriminate].
  exists passed, url, assertion. split_and!; try reflexivity.
  destruct (JS.truthy passed); [congruence|].
  unfold routePath_of, String_of in Hrow.
  destruct (JS.truthy url && negb (JS.converts url)); [discriminate|].
  destruct (JS.converts (JS.or assertion (JS.VStr "lighthouse_assertion")));
    [|discriminate].
  destruct (thresholdForAssertion H expected assertion); [|discriminate].
  destruct (actualOf H numericValue value); [|discriminate].
  cbn zeta. congruence.
Qed.

(** C7 (amended). The route of the finding made from a failing assertion
    record is: "/" when the record has no url (or a falsy one); the pathname
    of the parsed url, or "/" when that pathname is empty, when the url
    parses; and the url itself, as a string, when it does not parse. *)
Theorem C7_route_of_failing_assertion
    {E} (H : Host E) (row : JS.value) (f : Finding) :
  lighthouseFinding H row = Some (Some f) ->
  exists url,
    JS.prop row "url" = Some url /\
    f_route f = Some (routePath H url) /\
    (JS.truthy url = false -> routePath H url = "/") /\
    (forall pathname,
        JS.truthy url = true -> URL_pathname H (ToString H url) = Some pathname ->
        routePath H url = if String.eqb pathname "" then "/" else pathname) /\
    (JS.truthy url = true -> URL_pathname H (ToString H url) = None ->
     routePath H url = ToString H url).
Proof.
  intros Hrow.
  apply lighthouseFinding_inv in Hrow as (passed & url & assertion & _ & Hurl & _ & Hrow).
  destruct (JS.truthy passed); [discriminate|].
  cbn zeta in Hrow. inversion Hrow; subst f; clear Hrow. exists url. cbn [f_route].
  split; [exact Hurl|]. repeat split.
  - unfold routePath. intros ->. reflexivity.
  - unfold routePath. intros pathname -> ->. reflexivity.
  - unfold routePath. intros -> ->. reflexivity.
Qed.

Lemma C7_witness :
  match lighthouseFinding Demo.passing_host Demo.row_about with
  | Some (Some f) => f_route f = Some "/about"
  | _ => False
  end.
Proof.
  destruct (lighthouseFinding Demo.passing_host Demo.row_about) as [[f|]|] eqn:Hf;
    [| vm_compute in Hf; discriminate Hf | vm_compute in Hf; discriminate Hf].
  destruct (C7_route_of_failing_assertion Demo.passing_host Demo.row_about f Hf)
    as (url & Hurl & Hroute & _ & Hparsed & _).
  vm_compute in Hurl. inversion Hurl; subst url. rewrite Hroute.
  rewrite (Hparsed "/about"); [reflexivity | reflexivity | vm_compute; reflexivity].
Defined.

(** The claim as the specification words it: an url that does not parse
    gives the route "/". A relative url such as "about" does not parse, and
    the route is "about". *)
Lemma C7_counterexample :
  ~ (forall (E : Type) (H : Host E) (row url : JS.value) (f : Finding),
        lighthouseFinding H row = Some (Some f) ->
        JS.prop row "url" = Some url ->
        URL_pathname H (ToString H url) = None ->
        f_route f = Some "/").
Proof.
  intros Hclaim.
  specialize (Hclaim Z Demo.passing_host Demo.row_relative (JS.VStr "about")).
  destruct (lighthouseFinding Demo.passing_host Demo.row_relative) as [[f|]|] eqn:Hf;
    [| vm_compute in Hf; discriminate Hf | vm_compute in Hf; discriminate Hf].
  specialize (Hclaim f eq_refl eq_refl eq_refl).
  vm_compute in Hf. inversion Hf; subst f. discriminate Hclaim.
Qed.

(* ===================================================================== *)
(** ** Applying an edit plan *)
(* ===================================================================== *)

Section Apply.
Context {E : Type} (H : Host E) (cwd : string).

(** A text without line feed is a single line. *)
Lemma split_lines_single s : Text.no_lf s -> Text.split_lines s = [s].
Proof.
  unfold Text.no_lf.
  induction s as [| c | c c' r IHr IHc'] using string_ind2; intros Hs.
  - reflexivity.
  - cbn in *. destruct (Text.is_lf c); [discriminate | reflexivity].
  - rewrite split_lines_step. rewrite count_lf_step in Hs.
    destruct (Text.is_lf c) eqn:Hc; [discriminate|].
    rewrite count_lf_step in Hs.
    destruct (Text.is_lf c') eqn:Hc'; [cbn in Hs; discriminate|].
    rewrite andb_false_r.
    rewrite IHc' by (rewrite count_lf_step, Hc'; exact Hs). reflexivity.
Qed.

(** What spliceLines computes when it accepts the range. *)
Lemma spliceLines_Some text e updated :
  spliceLines text e = Some updated ->
  1 <= start_line e <= end_line e /\
  end_line e <= Z.of_nat (length (Text.split_lines text)) /\
  updated = Text.join_lines
              (take (Z.to_nat (start_line e - 1)) (Text.split_lines text)
               ++ Text.split_lines (replacement e)
               ++ drop (Z.to_nat (end_line e)) (Text.split_lines text)).
Proof.
  unfold spliceLines. intros Hs.
  destruct (start_line e - 1 <? 0) eqn:H1; [discriminate|].
  destruct (Z.of_nat (length (Text.split_lines text)) <? end_line e) eqn:H2;
    [discriminate|].
  destruct (end_line e <=? start_line e - 1) eqn:H3; [discriminate|].
  cbn in Hs. inversion Hs. repeat split; lia.
Qed.

Lemma spliceLines_valid text e :
  1 <= start_line e <= end_line e ->
  end_line e <= Z.of_nat (length (Text.split_lines text)) ->
  spliceLines text e
  = Some (Text.join_lines
            (take (Z.to_nat (start_line e - 1)) (Text.split_lines text)
             ++ Text.split_lines (replacement e)
             ++ drop (Z.to_nat (end_line e)) (Text.split_lines text))).
Proof.
  intros Hrange Hend. unfold spliceLines.
  replace (start_line e - 1 <? 0) with false by lia.
  replace (Z.of_nat (length (Text.split_lines text)) <? end_line e) with false by lia.
  replace (end_line e <=? start_line e - 1) with false by lia.
  reflexivity.
Qed.

(** The lines an accepted edit writes hold no line feed: the only line
    feeds of the new text are those that join the lines. *)
Lemma spliced_lines_no_lf text e :
  Forall Text.no_lf
    (take (Z.to_nat (start_line e - 1)) (Text.split_lines text)
     ++ Text.split_lines (replacement e)
     ++ drop (Z.to_nat (end_line e)) (Text.split_lines text)).
Proof.
  pose proof (split_lines_no_lf text) as Hold.
  pose proof (split_lines_no_lf (replacement e)) as Hnew.
  rewrite !Forall_app. repeat split.
  - apply Forall_take. exact Hold.
  - exact Hnew.
  - apply Forall_drop. exact Hold.
Qed.

(** One edit of a plan, run on a file that exists and whose range is valid. *)
Lemma applyEdits_step e rest touched st text updated :
  tree st !! path_join H cwd (file e) = Some text ->
  spliceLines text e = Some updated ->
  applyEdits H cwd (e :: rest) touched st
  = applyEdits H cwd rest (set_add touched (file e))
      (mkState (<[path_join H cwd (file e) := updated]> (tree st)) (failures_json st)
         (repair_report_json st) (escalation_json st) (history st) (world st)).
Proof.
  intros Hfile Hsplice. cbn [applyEdits]. unfold bind, readFile.
  rewrite Hfile, Hsplice. reflexivity.
Qed.

End Apply.

(** C6 (amended). An edit with start_line = end_line that names a line of
    the file replaces that line by the lines of the replacement text (by the
    replacement itself when it holds no line break). When the replacement is
    the empty string the line becomes an empty line: the file keeps all its
    lines, none is removed. *)
Theorem C6_single_line_edit
    {E} (H : Host E) (cwd : string) (st : State E) (sm : string) (e : Edit)
    (text : string) :
  start_line e = end_line e ->
  1 <= start_line e <= Z.of_nat (length (Text.split_lines text)) ->
  tree st !! path_join H cwd (file e) = Some text ->
  let lines := Text.split_lines text in
  let i := Z.to_nat (start_line e - 1) in
  let lines' := take i lines ++ Text.split_lines (replacement e) ++ drop (S i) lines in
  applyEditPlan H cwd {| summary := sm; edits := [e] |} st
  = (Ret (inr [file e]),
     mkState (<[path_join H cwd (file e) := Text.join_lines lines']> (tree st))
       (failures_json st) (repair_report_json st) (escalation_json st)
       (history st) (world st))
  /\ (Text.no_lf (replacement e) -> lines' = <[i := replacement e]> lines)
  /\ (replacement e = "" ->
      lines' = <[i := ""]> lines
      /\ length (Text.split_lines (Text.join_lines lines')) = length lines).
Proof.
  intros Hsame Hrange Hfile lines i lines'.
  assert (Hi : (i < length lines)%nat) by (subst i lines; lia).
  assert (Hend : Z.to_nat (end_line e) = S i) by (subst i; lia).
  assert (Hsingle : Text.no_lf (replacement e) -> lines' = <[i := replacement e]> lines).
  { intros Hno. subst lines'. rewrite (split_lines_single _ Hno).
    rewrite insert_take_drop by exact Hi. reflexivity. }
  split; [|split].
  - unfold applyEditPlan. cbn [edits].
    erewrite applyEdits_step; [| exact Hfile | apply spliceLines_valid; lia].
    rewrite Hend. reflexivity.
  - exact Hsingle.
  - intros Hempty. assert (Hno : Text.no_lf (replacement e)) by (rewrite Hempty; reflexivity).
    specialize (Hsingle Hno). rewrite Hempty in Hsingle. split; [exact Hsingle|].
    rewrite Hsingle. rewrite split_join_length.
    + apply length_insert.
    + intros Hnil. apply (f_equal length) in Hnil. rewrite length_insert in Hnil.
      cbn in Hnil. lia.
    + rewrite <- Hsingle. subst lines' lines i.
      replace (S (Z.to_nat (start_line e - 1))) with (Z.to_nat (end_line e)) by lia.
      apply spliced_lines_no_lf.
Qed.

(** Blanking line 2 of the three-line file src/app.ts leaves three lines. *)
Lemma C6_witness :
  exists st',
    applyEditPlan Demo.passing_host Demo.cwd Demo.blank_plan
      (Demo.initial Demo.project None) = (Ret (inr ["src/app.ts"]), st')
    /\ tree st' !! "/work/src/app.ts"
       = Some ("export const v = 1;" +:+ Text.lf +:+ Text.lf).
Proof.
  destruct (C6_single_line_edit Demo.passing_host Demo.cwd
              (Demo.initial Demo.project None) "remove marker" Demo.blank_line_2
              Demo.app_ts)
    as (Hrun & _ & _);
    [reflexivity | vm_compute; split; discriminate | vm_compute; reflexivity |].
  eexists. split; [exact Hrun|]. vm_compute. reflexivity.
Defined.

(** The claim as the specification words it: an empty replacement deletes
    the line. On the three-line file src/app.ts the edit of line 2 leaves
    three lines, the second one empty. *)
Lemma C6_counterexample :
  ~ (forall (E : Type) (H : Host E) (cwd : string) (st st' : State E) (sm : string)
            (e : Edit) (text : string) (touched : list string),
        start_line e = end_line e ->
        replacement e = "" ->
        tree st !! path_join H cwd (file e) = Some text ->
        applyEditPlan H cwd {| summary := sm; edits := [e] |} st
        = (Ret (inr touched), st') ->
        exists updated,
          tree st' !! path_join H cwd (file e) = Some updated /\
          Text.split_lines updated
          = take (Z.to_nat (start_line e - 1)) (Text.split_lines text)
            ++ drop (Z.to_nat (end_line e)) (Text.split_lines text)).
Proof.
  intros Hclaim.
  destruct (Hclaim Z Demo.passing_host Demo.cwd (Demo.initial Demo.project None)
              (snd (applyEditPlan Demo.passing_host Demo.cwd Demo.blank_plan
                      (Demo.initial Demo.project None)))
              "remove marker" Demo.blank_line_2 Demo.app_ts ["src/app.ts"])
    as (updated & Hfile & Hlines);
    [reflexivity | reflexivity | vm_compute; reflexivity | vm_compute; reflexivity |].
  vm_compute in Hfile. inversion Hfile; subst updated.
  vm_compute in Hlines. discriminate Hlines.
Qed.

(** The edits of a plan that name the file at path [p], in plan order. *)
Definition edits_of {E} (H : Host E) (cwd p : string) (es : list Edit) : list Edit :=
  List.filter (fun e => String.eqb (path_join H cwd (file e)) p) es.

(** [rewritten text es final]: the edits [es], one after the other, turn
    [text] into [final]. Each finds a text, splits it on CRLF or LF, keeps
    the lines before start_line and after end_line as they are, puts the
    lines of its replacement in between, and joins with LF. *)
Inductive rewritten : string -> list Edit -> string -> Prop :=
| rewritten_nil text : rewritten text [] text
| rewritten_cons text e rest final :
    1 <= start_line e <= end_line e ->
    end_line e <= Z.of_nat (length (Text.split_lines text)) ->
    rewritten
      (Text.join_lines
         (take (Z.to_nat (start_line e - 1)) (Text.split_lines text)
          ++ Text.split_lines (replacement e)
          ++ drop (Z.to_nat (end_line e)) (Text.split_lines text)))
      rest final ->
    rewritten text (e :: rest) final.

(** A rewritten text is joined with LF: its line feeds are those between
    its lines. *)
Lemma rewritten_joined text es final :
  rewritten text es final -> es <> [] ->
  exists lines,
    final = Text.join_lines lines
    /\ Forall Text.no_lf lines
    /\ Text.count_lf final = pred (length lines).
Proof.
  induction 1 as [text | text e rest final Hrange Hend Hrest IH]; [congruence|].
  intros _. destruct rest as [|e' rest'].
  - inversion Hrest; subst. eexists. split; [reflexivity|].
    split; [apply spliced_lines_no_lf | apply count_lf_join, spliced_lines_no_lf].
  - apply IH. discriminate.
Qed.

(** When every carriage return of the file and of the replacements is part
    of a CRLF, the rewritten text holds no carriage return. *)
Lemma rewritten_no_cr text es final :
  rewritten text es final -> es <> [] ->
  Text.stray_cr text = 0%nat ->
  Forall (fun e => Text.stray_cr (replacement e) = 0%nat) es ->
  Text.no_cr final.
Proof.
  induction 1 as [text | text e rest final Hrange Hend Hrest IH]; [congruence|].
  intros _ Hold Hnew. inversion Hnew as [|? ? He Hmore]; subst.
  assert (Hclean :
    Text.no_cr (Text.join_lines
                  (take (Z.to_nat (start_line e - 1)) (Text.split_lines text)
                   ++ Text.split_lines (replacement e)
                   ++ drop (Z.to_nat (end_line e)) (Text.split_lines text)))).
  { apply no_cr_join. rewrite !Forall_app. split_and!.
    - apply Forall_take, split_lines_no_cr. exact Hold.
    - apply split_lines_no_cr. exact He.
    - apply Forall_drop, split_lines_no_cr. exact Hold. }
  destruct rest as [|e' rest'].
  - inversion Hrest; subst. exact Hclean.
  - apply IH; [discriminate | apply no_cr_stray; exact Hclean | exact Hmore].
Qed.

(** An edit that puts back the lines it replaces leaves the file as it was
    but for its line ends: every CRLF has become LF. *)
Lemma rewritten_same_lines text e final :
  rewritten text [e] final ->
  Text.split_lines (replacement e)
  = drop (Z.to_nat (start_line e - 1))
      (take (Z.to_nat (end_line e)) (Text.split_lines text)) ->
  final = Text.crlf_to_lf text.
Proof.
  intros Hrw Hsame. inversion Hrw as [|? ? ? ? Hrange Hend Hrest]; subst.
  inversion Hrest; subst. rewrite Hsame, <- join_split_lines. f_equal.
  replace (take (Z.to_nat (start_line e - 1)) (Text.split_lines text))
    with (take (Z.to_nat (start_line e - 1))
            (take (Z.to_nat (end_line e)) (Text.split_lines text)))
    by (rewrite take_take; f_equal; lia).
  rewrite app_assoc, take_drop. apply take_drop.
Qed.

Section ApplyPlan.
Context {E : Type} (H : Host E) (cwd : string).

Lemma elem_of_set_add touched x f :
  f ∈ set_add touched x <-> f ∈ touched \/ f = x.
Proof.
  unfold set_add. case_bool_decide as Hin.
  - split; [auto | intros [Hf | ->]; assumption].
  - rewrite elem_of_app, list_elem_of_singleton. reflexivity.
Qed.

(** A successful run of the applier has read the file of its first edit,
    found the range inside it, written the new text and gone on. *)
Lemma applyEdits_cons_ok e rest touched st r st' :
  applyEdits H cwd (e :: rest) touched st = (Ret (inr r), st') ->
  exists text updated,
    tree st !! path_join H cwd (file e) = Some text
    /\ spliceLines text e = Some updated
    /\ applyEdits H cwd rest (set_add touched (file e))
         (mkState (<[path_join H cwd (file e) := updated]> (tree st)) (failures_json st)
            (repair_report_json st) (escalation_json st) (history st) (world st))
       = (Ret (inr r), st').
Proof.
  cbn [applyEdits]. unfold bind, readFile. intros Hrun.
  destruct (tree st !! path_join H cwd (file e)) as [text|] eqn:Hfile;
    [| destruct (isDirectory H _ _); discriminate].
  destruct (spliceLines text e) as [updated|] eqn:Hsplice; [|discriminate].
  exists text, updated. split_and!; [reflexivity | exact Hsplice | exact Hrun].
Qed.

(** The files a successful run reports are those its edits name. *)
Lemma applyEdits_reported es : forall touched st r st',
  applyEdits H cwd es touched st = (Ret (inr r), st') ->
  forall f, f ∈ r <-> f ∈ touched \/ f ∈ map file es.
Proof.
  induction es as [|e rest IH]; intros touched st r st' Hrun f.
  - cbn in Hrun. inversion Hrun; subst. cbn. rewrite elem_of_nil. tauto.
  - apply applyEdits_cons_ok in Hrun as (text & updated & _ & _ & Hrun).
    rewrite (IH _ _ _ _ Hrun f), elem_of_set_add. cbn [map].
    rewrite elem_of_cons. tauto.
Qed.

(** What a successful run has made of each file: a file that no edit names
    is as it was; a file that edits name existed, and holds what these
    edits, in the order of the plan, make of the text it held. *)
Lemma applyEdits_files es : forall touched st r st',
  applyEdits H cwd es touched st = (Ret (inr r), st') ->
  forall p,
    match edits_of H cwd p es with
    | [] => tree st' !! p = tree st !! p
    | named =>
        exists text final,
          tree st !! p = Some text
          /\ tree st' !! p = Some final
          /\ rewritten text named final
    end.
Proof.
  induction es as [|e rest IH]; intros touched st r st' Hrun p.
  - cbn in Hrun. inversion Hrun; subst. reflexivity.
  - apply applyEdits_cons_ok in Hrun as (text & updated & Hfile & Hsplice & Hrun).
    specialize (IH _ _ _ _ Hrun p). cbn [tree] in IH.
    apply spliceLines_Some in Hsplice as (Hrange & Hend & Hupdated).
    unfold edits_of in *. cbn [List.filter].
    destruct (String.eqb (path_join H cwd (file e)) p) eqn:Hp.
    + apply String.eqb_eq in Hp. subst p. rewrite lookup_insert_eq in IH.
      exists text. destruct (List.filter _ rest) as [|e' named].
      * exists updated. split_and!; [exact Hfile | exact IH |].
        apply rewritten_cons; [exact Hrange | exact Hend |].
        rewrite <- Hupdated. constructor.
      * destruct IH as (text' & final & Htext' & Hfinal & Hrw).
        exists final. split_and!; [exact Hfile | exact Hfinal |].
        apply rewritten_cons; [exact Hrange | exact Hend |].
        rewrite <- Hupdated. congruence.
    + apply String.eqb_neq in Hp.
      rewrite lookup_insert_ne in IH by exact Hp. exact IH.
Qed.

End ApplyPlan.

(** C9. An edit plan that is applied rewrites exactly the files its edits
    name. A file that no edit names keeps its content. A file that edits
    name existed before, and ends as what these edits, in the order of the
    plan, make of the text it held: each splits the text it finds on CRLF or
    LF, keeps the lines before start_line and after end_line unchanged, puts
    the lines of its replacement in between and joins with single line feeds.
    So the rewritten file is joined with LF (its line feeds are those
    between its lines); when every carriage return of the file and of the
    replacements was part of a CRLF it holds no carriage return at all; and
    a single edit that puts back the very lines it replaces leaves the file
    changed in its line ends only, every CRLF turned into LF. *)
Theorem C9_apply_rewrites_with_lf
    {E} (H : Host E) (cwd : string) (plan : EditPlan) (st st' : State E)
    (touched : list string) :
  applyEditPlan H cwd plan st = (Ret (inr touched), st') ->
  (forall f, f ∈ touched <-> f ∈ map file (edits plan))
  /\ forall p,
       match edits_of H cwd p (edits plan) with
       | [] => tree st' !! p = tree st !! p
       | named =>
           exists text final,
             tree st !! p = Some text
             /\ tree st' !! p = Some final
             /\ rewritten text named final
             /\ (exists lines,
                    final = Text.join_lines lines
                    /\ Forall Text.no_lf lines
                    /\ Text.count_lf final = pred (length lines))
             /\ (Text.stray_cr text = 0%nat ->
                 Forall (fun e => Text.stray_cr (replacement e) = 0%nat) named ->
                 Text.no_cr final)
             /\ (forall e,
                    named = [e] ->
                    Text.split_lines (replacement e)
                    = drop (Z.to_nat (start_line e - 1))
                        (take (Z.to_nat (end_line e)) (Text.split_lines text)) ->
                    final = Text.crlf_to_lf text)
       end.
Proof.
  unfold applyEditPlan. intros Hrun. split.
  - intros f. rewrite (applyEdits_reported H cwd _ _ _ _ _ Hrun f), elem_of_nil. tauto.
  - intros p. pose proof (applyEdits_files H cwd _ _ _ _ _ Hrun p) as Hp.
    destruct (edits_of H cwd p (edits plan)) as [|e named]; [exact Hp|].
    destruct Hp as (text & final & Htext & Hfinal & Hrw).
    exists text, final. split_and!; try assumption.
    + apply (rewritten_joined _ _ _ Hrw). discriminate.
    + apply (rewritten_no_cr _ _ _ Hrw). discriminate.
    + intros e0 Hone. rewrite Hone in Hrw. apply rewritten_same_lines. exact Hrw.
Qed.

(** A carriage return that is not part of a CRLF stays in its line; in the
    rewritten file it then stands before the line feed that joins the lines. *)
Example stray_carriage_return_is_kept :
  spliceLines ("a" +:+ String Text.CR Text.crlf +:+ "b")
    {| file := "f"; start_line := 2; end_line := 2; replacement := "X" |}
  = Some ("a" +:+ Text.crlf +:+ "X").
Proof. reflexivity. Qed.

(** On a file with CRLF line ends, rewriting line 2 leaves the file with LF
    line ends and without carriage return; package.json is not touched. *)
Lemma C9_witness :
  tree (snd (applyEditPlan Demo.passing_host Demo.cwd Demo.crlf_plan Demo.crlf_project))
    !! "/work/src/crlf.ts" = Some ("a" +:+ Text.lf +:+ "X" +:+ Text.lf +:+ "c")
  /\ tree (snd (applyEditPlan Demo.passing_host Demo.cwd Demo.crlf_plan Demo.crlf_project))
       !! "/work/package.json" = Some Demo.package_json.
Proof.
  destruct (C9_apply_rewrites_with_lf Demo.passing_host Demo.cwd Demo.crlf_plan
              Demo.crlf_project
              (snd (applyEditPlan Demo.passing_host Demo.cwd Demo.crlf_plan
                      Demo.crlf_project))
              ["src/crlf.ts"])
    as (_ & Hfiles); [vm_compute; reflexivity|].
  split.
  - specialize (Hfiles "/work/src/crlf.ts").
    change (edits_of Demo.passing_host Demo.cwd "/work/src/crlf.ts" (edits Demo.crlf_plan))
      with (edits Demo.crlf_plan) in Hfiles.
    destruct Hfiles as (text & final & Htext & Hfinal & Hrw & _).
    change (tree Demo.crlf_project !! "/work/src/crlf.ts") with (Some Demo.crlf_ts) in Htext.
    inversion Htext; subst text. rewrite Hfinal. f_equal.
    inversion Hrw as [|? ? ? ? _ _ Hrest]; subst. inversion Hrest; subst.
    reflexivity.
  - specialize (Hfiles "/work/package.json").
    change (edits_of Demo.passing_host Demo.cwd "/work/package.json"
              (edits Demo.crlf_plan)) with (@nil Edit) in Hfiles.
    rewrite Hfiles. vm_compute. reflexivity.
Defined.

(* ===================================================================== *)
(** ** The patch adapter: scope and budget *)
(* ===================================================================== *)

(** The predicted size of a plan in the specification's words: the sum over
    the edits of [(end_line - start_line + 1)] plus the number of lines of
    the replacement. *)
Fixpoint spec_predicted_lines (es : list Edit) : Z :=
  match es with
  | [] => 0
  | e :: rest =>
      (end_line e - start_line e + 1) + count_lines (replacement e)
      + spec_predicted_lines rest
  end.

Definition in_scope (failures : FailuresReport) (plan : EditPlan) : Prop :=
  Forall (fun e => file e ∈ allowed_files failures) (edits plan).

Section Patch.
Context {E : Type} (H : Host E) (cwd : string).

Lemma foldl_predicted es : forall acc,
  foldl (fun acc e => acc + predicted_lines_of e) acc es
  = acc + foldl (fun acc e => acc + predicted_lines_of e) 0 es.
Proof.
  induction es as [|e rest IH]; intros acc; cbn [foldl].
  - lia.
  - rewrite (IH (acc + predicted_lines_of e)), (IH (0 + predicted_lines_of e)). lia.
Qed.

(** The code counts no fewer lines than the specification's sum, and the
    same number when no edit ends before it starts. *)
Lemma predicted_ge_spec es maxPatchLines failures :
  spec_predicted_lines es <= predictedLines (scoreEditPlan es failures maxPatchLines).
Proof.
  cbn [scoreEditPlan predictedLines].
  induction es as [|e rest IH]; cbn [foldl spec_predicted_lines]; [lia|].
  rewrite foldl_predicted. unfold predicted_lines_of at 1. lia.
Qed.

Lemma predicted_eq_spec es maxPatchLines failures :
  Forall (fun e => start_line e <= end_line e) es ->
  predictedLines (scoreEditPlan es failures maxPatchLines) = spec_predicted_lines es.
Proof.
  cbn [scoreEditPlan predictedLines].
  induction es as [|e rest IH]; intros Hes; cbn [foldl spec_predicted_lines]; [lia|].
  inversion Hes as [|? ? He Hrest]; subst.
  rewrite foldl_predicted, (IH Hrest). unfold predicted_lines_of. lia.
Qed.

(** An applier that reports success found every range well-formed. *)
Lemma applyEdits_ranges es : forall touched st r st',
  applyEdits H cwd es touched st = (Ret (inr r), st') ->
  Forall (fun e => start_line e <= end_line e) es.
Proof.
  induction es as [|e rest IH]; intros touched st r st' Hrun; [constructor|].
  apply applyEdits_cons_ok in Hrun as (text & updated & _ & Hsplice & Hrun).
  apply spliceLines_Some in Hsplice as (Hrange & _ & _).
  constructor; [lia | eapply IH; exact Hrun].
Qed.

Lemma out_of_scope_nonempty failures plan :
  ~ in_scope failures plan ->
  (0 <? Z.of_nat (length (filter (fun f => f ∉ allowed_files failures)
                            (map file (edits plan))))) = true.
Proof.
  unfold in_scope. intros Hnot. apply Z.ltb_lt.
  destruct (filter _ _) as [|x xs] eqn:Hfilter; [|cbn; lia].
  exfalso. apply Hnot. apply Forall_forall. intros e He.
  destruct (decide (file e ∈ allowed_files failures)) as [Hin | Hout]; [exact Hin|].
  assert (Hmem : file e ∈ filter (fun f => f ∉ allowed_files failures)
                              (map file (edits plan))).
  { apply list_elem_of_filter. split; [exact Hout|].
    apply list_elem_of_fmap. eauto. }
  rewrite Hfilter in Hmem. inversion Hmem.
Qed.

Lemma in_scope_empty failures plan :
  in_scope failures plan ->
  filter (fun f => f ∉ allowed_files failures) (map file (edits plan)) = [].
Proof.
  unfold in_scope. intros Hin.
  induction (edits plan) as [|e rest IH]; [reflexivity|].
  inversion Hin as [|? ? He Hrest]; subst. cbn [map].
  rewrite filter_cons_False by (intros Hout; exact (Hout He)). exact (IH Hrest).
Qed.

(** The scope check: a plan with an edit outside the allowed files is
    refused before anything is written. *)
Lemma check_out_of_scope plan failures maxPatchLines (st : State E) :
  ~ in_scope failures plan ->
  checkAndApplyPlan H cwd plan failures maxPatchLines st
  = (Ret (PatchOutOfScope
            (filter (fun f => f ∉ allowed_files failures) (map file (edits plan))) plan),
     st).
Proof.
  intros Hnot. unfold checkAndApplyPlan.
  rewrite (out_of_scope_nonempty _ _ Hnot). reflexivity.
Qed.

(** The budget check: a plan inside the scope whose predicted size is over
    the budget is refused before anything is written. *)
Lemma check_over_budget plan failures (maxPatchLines : Z) (st : State E) :
  in_scope failures plan ->
  maxPatchLines < spec_predicted_lines (edits plan) ->
  checkAndApplyPlan H cwd plan failures (JS.Int maxPatchLines) st
  = (Ret (PatchBudgetExceeded
            (predictedLines (scoreEditPlan (edits plan) failures (JS.Int maxPatchLines)))
            (JS.Int maxPatchLines)),
     st).
Proof.
  intros Hin Hover. unfold checkAndApplyPlan.
  rewrite (in_scope_empty _ _ Hin). cbn [length Z.of_nat Z.ltb Z.compare].
  pose proof (predicted_ge_spec (edits plan) (JS.Int maxPatchLines) failures) as Hge.
  unfold JS.gt.
  replace (maxPatchLines <? predictedLines _) with true by lia. reflexivity.
Qed.

(** Against a budget that is not a number the budget check refuses nothing. *)
Lemma check_without_budget plan failures (st st' : State E) r :
  checkAndApplyPlan H cwd plan failures JS.NaN st = (Ret r, st') ->
  patch_reason r <> Some "patch_budget_exceeded".
Proof.
  unfold checkAndApplyPlan. intros Hrun.
  destruct (0 <? Z.of_nat (length (filter (fun f => f ∉ allowed_files failures)
                                     (map file (edits plan))))).
  { apply ret_inv in Hrun as [Hr _]. inversion Hr. discriminate. }
  cbn [JS.gt] in Hrun.
  destruct (score100 _ <? 50).
  { apply ret_inv in Hrun as [Hr _]. inversion Hr. discriminate. }
  apply bind_ret_inv in Hrun as (applied & st1 & _ & Hret).
  destruct applied; apply ret_inv in Hret as [Hr _]; inversion Hr; discriminate.
Qed.

(** What an accepted result says of its plan. *)
Lemma check_accepted plan failures (maxPatchLines : JS.num) (st st' : State E)
    sc lines touched proposal :
  checkAndApplyPlan H cwd plan failures maxPatchLines st
  = (Ret (PatchAccepted sc lines touched proposal), st') ->
  proposal = plan
  /\ in_scope failures plan
  /\ lines = spec_predicted_lines (edits plan)
  /\ JS.gt (JS.Int (spec_predicted_lines (edits plan))) maxPatchLines = false.
Proof.
  unfold checkAndApplyPlan. intros Hrun.
  destruct (0 <? Z.of_nat (length (filter (fun f => f ∉ allowed_files failures)
                                     (map file (edits plan))))) eqn:Hscope.
  { cbn in Hrun. discriminate. }
  destruct (JS.gt _ maxPatchLines) eqn:Hbudget.
  { cbn in Hrun. discriminate. }
  destruct (score100 _ <? 50). { cbn in Hrun. discriminate. }
  apply bind_ret_inv in Hrun as (applied & st1 & Happly & Hret).
  destruct applied as [details | done]; unfold ret in Hret; [discriminate|].
  assert (Hp : proposal = plan) by congruence. subst proposal.
  assert (Hl : lines = predictedLines (scoreEditPlan (edits plan) failures maxPatchLines))
    by congruence.
  assert (Hin : in_scope failures plan).
  { destruct (decide (in_scope failures plan)) as [Hin | Hnot]; [exact Hin|].
    rewrite (out_of_scope_nonempty _ _ Hnot) in Hscope. discriminate. }
  unfold applyEditPlan in Happly. apply applyEdits_ranges in Happly.
  rewrite (predicted_eq_spec _ _ _ Happly) in *.
  split_and!; [reflexivity | exact Hin | exact Hl | exact Hbudget].
Qed.

End Patch.



(** A maxPatchLines that is not numeric in quick-gate.config.json, as the
    word many, makes the budget of executeRepair NaN. *)
Example non_numeric_budget_is_NaN :
  match loadConfig Demo.patching_host Demo.cwd Demo.configured_many with
  | (Ret config, _) =>
      maxPatchLines (computePolicy Demo.patching_host JS.VUndefined config) = JS.NaN
  | (Throw _, _) => False
  end.
Proof. vm_compute. reflexivity. Qed.


(* ===================================================================== *)
(** ** The gate runner and executeRun *)
(* ===================================================================== *)

Section Gates.
Context {E : Type} (H : Host E) (cwd : string).

Lemma loadConfig_state st r st' : loadConfig H cwd st = (r, st') -> st' = st.
Proof.
  unfold loadConfig, bind, readFile. intros Hrun.
  destruct (tree st !! _);
    [|destruct (isDirectory H _ _); inversion Hrun; reflexivity].
  destruct (JSON_parse H _); [|inversion Hrun; reflexivity].
  destruct (config_of_user _); inversion Hrun; reflexivity.
Qed.

Lemma packageScripts_state st r st' : packageScripts H cwd st = (r, st') -> st' = st.
Proof.
  unfold packageScripts, bind, readFile. intros Hrun.
  destruct (tree st !! _);
    [|destruct (isDirectory H _ _); inversion Hrun; reflexivity].
  destruct (JSON_parse H _); [|inversion Hrun; reflexivity].
  destruct (JS.prop _ _); inversion Hrun; reflexivity.
Qed.

(** package.json is there and decodes to something that has properties. *)
Definition manifest_ok (st : State E) : Prop :=
  exists text pkg,
    tree st !! path_join H cwd "package.json" = Some text
    /\ JSON_parse H text = Some pkg
    /\ pkg <> JS.VNull /\ pkg <> JS.VUndefined.

(** The command overrides are an object (or any value with properties)
    whose entries for the gates, when they are truthy, are strings without
    NUL character. *)
Definition commands_ok (config : Config) : Prop :=
  forall g, exists v,
    JS.prop (cfg_commands config) (gate_name g) = Some v
    /\ (JS.truthy v = true -> exists s, v = JS.VStr s /\ has_nul s = false).

(** A record of the assertion results that can be made a finding of: it is
    not null, and its url, assertion and value convert to a string. *)
Definition row_ok (row : JS.value) : Prop :=
  row <> JS.VNull /\ row <> JS.VUndefined
  /\ forall k v, k ∈ ["url"; "assertion"; "value"] ->
                 JS.prop row k = Some v -> JS.converts v = true.

(** The assertion results do not exist, or are a file that decodes to an
    array (or a string) of such records. *)
Definition artifact_ok (files : gmap string string) (w : E) : Prop :=
  match files !! path_join H cwd ".lighthouseci/assertion-results.json" with
  | None => isDirectory H w (path_join H cwd ".lighthouseci/assertion-results.json") = false
  | Some text =>
      exists data rows,
        JSON_parse H text = Some data
        /\ iterate data = Some rows
        /\ Forall row_ok rows
  end.

(** No child process turns well-formed assertion results into ill-formed
    ones, and reading the clock, which is part of the world, does not
    either. *)
Definition commands_keep_artifact_ok : Prop :=
  (forall c files w,
      artifact_ok files w ->
      artifact_ok (snd (fst (spawnSync H c files w))) (snd (spawnSync H c files w)))
  /\ (forall files w, artifact_ok files w -> artifact_ok files (snd (Date_now H w))).

Lemma prop_total v k : v <> JS.VNull -> v <> JS.VUndefined -> exists x, JS.prop v k = Some x.
Proof. destruct v; cbn; intros Hn Hu; try congruence; eauto. Qed.

Lemma converts_or a b : JS.converts a = true -> JS.converts b = true ->
  JS.converts (JS.or a b) = true.
Proof. unfold JS.or. destruct (JS.truthy a); auto. Qed.

Lemma converts_nullish a b : JS.converts a = true -> JS.converts b = true ->
  JS.converts (JS.nullish a b) = true.
Proof. destruct a; cbn [JS.nullish]; auto. Qed.

Lemma lighthouseFinding_total row :
  row_ok row -> exists r, lighthouseFinding H row = Some r.
Proof.
  intros (Hn & Hu & Hconv). unfold lighthouseFinding.
  destruct (prop_total row "passed" Hn Hu) as [p ->].
  destruct (prop_total row "url" Hn Hu) as [u Hurl].
  destruct (prop_total row "assertion" Hn Hu) as [a Ha].
  destruct (prop_total row "expected" Hn Hu) as [x ->].
  destruct (prop_total row "numericValue" Hn Hu) as [n ->].
  destruct (prop_total row "value" Hn Hu) as [v Hv].
  assert (Hcu : JS.converts u = true)
    by (apply (Hconv "url"); [set_solver | exact Hurl]).
  assert (Hca : JS.converts a = true)
    by (apply (Hconv "assertion"); [set_solver | exact Ha]).
  assert (Hcv : JS.converts v = true)
    by (apply (Hconv "value"); [set_solver | exact Hv]).
  rewrite Hurl, Ha, Hv. destruct (JS.truthy p); [eauto|].
  unfold routePath_of, thresholdForAssertion, actualOf, String_of.
  rewrite Hcu, andb_false_r.
  rewrite !converts_or, converts_nullish by (assumption || reflexivity).
  destruct x, n; eauto.
Qed.

Lemma lighthouseFindings_total rows :
  Forall row_ok rows -> exists fs, lighthouseFindings H rows = Some fs.
Proof.
  induction 1 as [|row rest Hrow _ [fs IH]]; cbn [lighthouseFindings]; [eauto|].
  destruct (lighthouseFinding_total row Hrow) as [r ->]. rewrite IH. eauto.
Qed.

Lemma parseLighthouseFindings_returns st :
  artifact_ok (tree st) (world st) ->
  exists fs, parseLighthouseFindings H cwd st = (Ret fs, st).
Proof.
  unfold artifact_ok, parseLighthouseFindings, bind, readFile. intros Hok.
  destruct (tree st !! _) as [text|]; [|rewrite Hok; eexists; reflexivity].
  destruct Hok as (data & rows & -> & -> & Hrows).
  destruct (lighthouseFindings_total rows Hrows) as [fs ->]. eexists. reflexivity.
Qed.

Lemma runCommand_returns c st :
  valid_timeout (timeout_of c) = true ->
  exists result st',
    runCommand H c st = (Ret result, st')
    /\ tree st' = snd (fst (spawnSync H c (tree st) (world st)))
    /\ world st' = snd (spawnSync H c (tree st) (world st)).
Proof.
  unfold runCommand. intros ->. cbn [negb].
  destruct (spawnSync H c (tree st) (world st)) as [[r t] w].
  do 2 eexists. split_and!; reflexivity.
Qed.

Lemma findingForExitCode_returns g result st :
  exists f st', findingForExitCode H g result st = (Ret f, st')
                /\ tree st' = tree st /\ world st' = snd (Date_now H (world st)).
Proof.
  unfold findingForExitCode, bind, now. destruct (Date_now H (world st)).
  do 2 eexists. split_and!; reflexivity.
Qed.

(** A gate whose command resolves to a string is run to a result, whatever
    the exit code of the command. *)
Lemma runGate_returns mode scripts config changedFiles acc g st :
  commands_ok config -> commands_keep_artifact_ok ->
  artifact_ok (tree st) (world st) ->
  exists acc' st',
    runGate H cwd mode scripts config changedFiles acc g st = (Ret acc', st')
    /\ artifact_ok (tree st') (world st').
Proof.
  intros Hcommands [Hspawn Hclock] Hok. unfold runGate.
  destruct (negb (gate_enabled mode g)); [do 2 eexists; split; [reflexivity | exact Hok]|].
  destruct (Hcommands g) as (override & Hoverride & Hstring).
  assert (Hresolved :
    resolveGateCommand g scripts (cfg_commands config) = Some None
    \/ exists s, resolveGateCommand g scripts (cfg_commands config)
                 = Some (Some (JS.VStr s)) /\ has_nul s = false).
  { unfold resolveGateCommand. rewrite Hoverride.
    destruct (JS.truthy override) eqn:Htruthy.
    - destruct (Hstring eq_refl) as (s & -> & Hs). eauto.
    - destruct g; repeat match goal with
                         | |- context [if ?b then _ else _] => destruct b
                         end; eauto. }
  destruct Hresolved as [-> | (s & -> & Hs)];
    [do 2 eexists; split; [reflexivity | exact Hok]|].
  cbn [runGateCommand]. rewrite Hs.
  destruct (runCommand_returns (Shell s) st eq_refl)
    as (result & st1 & Hrun & Htree & Hworld).
  rewrite (bind_run _ _ _ _ _ Hrun).
  assert (Hok1 : artifact_ok (tree st1) (world st1))
    by (rewrite Htree, Hworld; apply Hspawn; exact Hok).
  destruct (exit_code result =? 0);
    [do 2 eexists; split; [reflexivity | exact Hok1]|].
  assert (Hexit : forall k : Finding -> M E GateRun,
             (forall f st2, exists acc', k f st2 = (Ret acc', st2)) ->
             exists acc' st', bind (findingForExitCode H g result) k st1 = (Ret acc', st')
                              /\ artifact_ok (tree st') (world st')).
  { intros k Hk.
    destruct (findingForExitCode_returns g result st1) as (f & st2 & Hf & Htree2 & Hworld2).
    rewrite (bind_run _ _ _ _ _ Hf). destruct (Hk f st2) as [acc' Hacc'].
    exists acc', st2. split; [exact Hacc'|].
    rewrite Htree2, Hworld2. apply Hclock. exact Hok1. }
  destruct g; try (apply Hexit; intros; eexists; reflexivity).
  destruct (parseLighthouseFindings_returns st1 Hok1) as [fs Hparse].
  rewrite (bind_run _ _ _ _ _ Hparse).
  destruct (0 <? Z.of_nat (length fs));
    [do 2 eexists; split; [reflexivity | exact Hok1]|].
  apply Hexit. intros. eexists. reflexivity.
Qed.

(** A loop whose body returns and keeps an invariant returns and keeps it. *)
Lemma foldM_returns {A B} (f : B -> A -> M E B) (Inv : State E -> Prop) :
  (forall acc x st, Inv st -> exists acc' st', f acc x st = (Ret acc', st') /\ Inv st') ->
  forall xs acc st, Inv st -> exists acc' st', foldM f acc xs st = (Ret acc', st') /\ Inv st'.
Proof.
  intros Hf. induction xs as [|x rest IH]; intros acc st Hinv; cbn [foldM].
  - do 2 eexists. split; [reflexivity | exact Hinv].
  - destruct (Hf acc x st Hinv) as (acc1 & st1 & Hstep & Hinv1).
    rewrite (bind_run _ _ _ _ _ Hstep). apply IH. exact Hinv1.
Qed.

End Gates.

(** C5 (amended). runDeterministicGates never throws because a gate command
    exits non-zero. It throws when package.json does not exist, and also
    when package.json is a directory or is not JSON. It returns a {gates,
    findings, traces} result, whatever the commands exit with, provided
    package.json decodes to a value other than null, the command overrides
    are strings without NUL character, and the assertion results, at the
    start and as the commands leave them, do not exist or decode to an array
    of records other than null whose url, assertion and value convert to a
    string. *)
Theorem C5_gate_runner_returns
    {E} (H : Host E) (cwd : string) (mode : string) (config : Config)
    (changedFiles : list string) (st : State E) :
  (existsSync H (path_join H cwd "package.json") st = false ->
   runDeterministicGates H cwd mode config changedFiles st = (Throw NoPackageJson, st))
  /\ (tree st !! path_join H cwd "package.json" = None ->
      isDirectory H (world st) (path_join H cwd "package.json") = true ->
      runDeterministicGates H cwd mode config changedFiles st = (Throw EISDIR, st))
  /\ (forall text,
        tree st !! path_join H cwd "package.json" = Some text ->
        JSON_parse H text = None ->
        runDeterministicGates H cwd mode config changedFiles st = (Throw SyntaxError, st))
  /\ (manifest_ok H cwd st -> commands_ok config ->
      artifact_ok H cwd (tree st) (world st) -> commands_keep_artifact_ok H cwd ->
      exists result st',
        runDeterministicGates H cwd mode config changedFiles st = (Ret result, st')).
Proof.
  split_and!.
  - unfold existsSync. intros Hmissing. apply orb_false_elim in Hmissing as [Hfile Hdir].
    apply bool_decide_eq_false in Hfile.
    unfold runDeterministicGates, packageScripts, bind, readFile.
    destruct (tree st !! _) as [text|]; [exfalso; apply Hfile; eauto|].
    rewrite Hdir. reflexivity.
  - intros Hfile Hdir. unfold runDeterministicGates, packageScripts, bind, readFile.
    rewrite Hfile, Hdir. reflexivity.
  - intros text Hfile Hparse.
    unfold runDeterministicGates, packageScripts, bind, readFile.
    rewrite Hfile, Hparse. reflexivity.
  - intros (text & pkg & Hfile & Hparse & Hnull & Hundef) Hcommands Hok Hkeep.
    destruct (prop_total pkg "scripts" Hnull Hundef) as [scripts Hscripts].
    unfold runDeterministicGates.
    assert (Hpkg : packageScripts H cwd st = (Ret (JS.or scripts (JS.VObj [])), st)).
    { unfold packageScripts, bind, readFile. rewrite Hfile, Hparse, Hscripts. reflexivity. }
    rewrite (bind_run _ _ _ _ _ Hpkg).
    destruct (foldM_returns
                (runGate H cwd mode (JS.or scripts (JS.VObj [])) config changedFiles)
                (fun st => artifact_ok H cwd (tree st) (world st))
                (fun acc g st1 Hinv =>
                   runGate_returns H cwd mode (JS.or scripts (JS.VObj [])) config
                     changedFiles acc g st1 Hcommands Hkeep Hinv)
                gatePlan {| run_gates := []; run_findings := []; run_traces := [] |}
                st Hok)
      as (result & st' & Hrun & _).
    exists result, st'. exact Hrun.
Qed.

(** With every command failing, the runner still returns: three findings
    in canary mode (lint has no command, typecheck and lighthouse exit 1). *)
Lemma C5_witness :
  exists result st',
    runDeterministicGates Demo.failing_host Demo.cwd "canary" default_config
      ["src/app.ts"] (Demo.initial Demo.project None) = (Ret result, st').
Proof.
  apply (C5_gate_runner_returns Demo.failing_host Demo.cwd "canary" default_config
           ["src/app.ts"] (Demo.initial Demo.project None)).
  - exists Demo.package_json, (JS.VObj []).
    split; [vm_compute; reflexivity|].
    split; [vm_compute; reflexivity|]. split; discriminate.
  - intros g. exists JS.VUndefined. split; [reflexivity | discriminate].
  - vm_compute. reflexivity.
  - split; [intros c files w Hok; exact Hok | intros files w Hok; exact Hok].
Defined.

(** The claim as the specification words it: with package.json present,
    the runner returns whatever package.json holds. A package.json holding a
    lone opening brace is not JSON, and the runner throws. *)
Lemma C5_counterexample :
  ~ (forall (E : Type) (H : Host E) (cwd mode : string) (config : Config)
            (changedFiles : list string) (st : State E),
        tree st !! path_join H cwd "package.json" <> None ->
        exists result st',
          runDeterministicGates H cwd mode config changedFiles st = (Ret result, st')).
Proof.
  intros Hclaim.
  destruct (Hclaim Z Demo.failing_host Demo.cwd "canary" default_config []
              (Demo.initial {[ "/work/package.json" := "{" ]} None))
    as (result & st' & Hrun); [vm_compute; discriminate|].
  vm_compute in Hrun. discriminate Hrun.
Qed.

(** Likewise for the assertion results: when the lighthouse command fails
    and the file it left is not JSON, the runner throws. *)
Example malformed_assertion_results_throw :
  fst (runDeterministicGates Demo.failing_host Demo.cwd "canary" default_config []
         (Demo.initial (<["/work/.lighthouseci/assertion-results.json" := "{"]>
                          Demo.project) None))
  = Throw SyntaxError.
Proof. vm_compute. reflexivity. Qed.

(** And for a record whose url is an object with a key toString of its own:
    it does not convert to a string, and the finding is not made. *)
Example unconvertible_url_throws :
  lighthouseFinding Demo.failing_host
    (JS.VObj [("passed", JS.VBool false);
              ("url", JS.VObj [("toString", JS.VNull)])])
  = None.
Proof. reflexivity. Qed.

(** C1. Whenever executeRun returns, the failures report it has written
    carries the findings that runDeterministicGates produced for that mode
    and those changed files, and its status is 'pass' exactly when that list
    of findings is empty; the status returned is the one written. *)
Theorem C1_status_pass_iff_no_findings
    {E} (H : Host E) (cwd : string) (m : string) (changedFiles : list string)
    (st st' : State E) (r : RunResult) :
  executeRun H cwd m changedFiles st = (Ret r, st') ->
  exists config gateResult st1 payload,
    loadConfig H cwd st = (Ret config, st)
    /\ runDeterministicGates H cwd m config changedFiles st = (Ret gateResult, st1)
    /\ failures_json st' = Some payload
    /\ findings payload = run_findings gateResult
    /\ gates payload = run_gates gateResult
    /\ mode payload = m
    /\ changed_files payload = changedFiles
    /\ run_status r = status payload
    /\ (status payload = pass <-> findings payload = []).
Proof.
  unfold executeRun. intros Hrun.
  apply bind_ret_inv in Hrun as (config & st0 & Hconfig & Hrun).
  pose proof (loadConfig_state H cwd _ _ _ Hconfig) as ->.
  apply bind_ret_inv in Hrun as (gateResult & st1 & Hgates & Hrun).
  apply bind_ret_inv in Hrun as ([] & st2 & Hgit & Hrun).
  destruct (negb (failures_schema_valid H _)); [discriminate Hrun|].
  unfold bind, writeFailures, log, ret in Hrun. cbn in Hrun.
  inversion Hrun; subst r st'; clear Hrun.
  exists config, gateResult, st1. eexists. cbn [failures_json].
  split; [exact Hconfig|]. split; [exact Hgates|]. split; [reflexivity|].
  cbn [findings gates mode changed_files status run_status].
  repeat split.
  - destruct (run_findings gateResult); [reflexivity | cbn; discriminate].
  - intros ->. reflexivity.
Qed.

(** With a lint script declared and every command succeeding, the run
    writes a report without findings and with status 'pass'. *)
Lemma C1_witness :
  exists payload,
    failures_json (snd (executeRun Demo.passing_host Demo.cwd "canary" ["src/app.ts"]
                          Demo.scripted_project)) = Some payload
    /\ status payload = pass /\ findings payload = [].
Proof.
  destruct (C1_status_pass_iff_no_findings Demo.passing_host Demo.cwd "canary"
              ["src/app.ts"] Demo.scripted_project
              (snd (executeRun Demo.passing_host Demo.cwd "canary" ["src/app.ts"]
                      Demo.scripted_project))
              {| run_status := pass |})
    as (config & gateResult & st1 & payload & _ & _ & Hwritten & _ & _ & _ & _ & Hstatus & Hiff);
    [vm_compute; reflexivity|].
  exists payload. split; [exact Hwritten|].
  cbn in Hstatus. split; [symmetry; exact Hstatus|].
  apply Hiff. symmetry. exact Hstatus.
Defined.

(* ===================================================================== *)
(** ** What the steps of the repair loop leave alone *)
(* ===================================================================== *)

(** The two terminal artifacts of executeRepair. *)
Definition terminal (ev : Event) : bool :=
  match ev with
  | Wrote RepairReportFile | Wrote EscalationFile => true
  | _ => false
  end.

(** From [st] to [st'] neither terminal artifact was written. *)
Definition frames {E} (st st' : State E) : Prop :=
  repair_report_json st' = repair_report_json st
  /\ escalation_json st' = escalation_json st
  /\ exists evs, history st' = history st ++ evs
                 /\ Forall (fun ev => terminal ev = false) evs.

(** A computation that writes neither terminal artifact, however it ends. *)
Definition silent {E A} (m : M E A) : Prop :=
  forall st r st', m st = (r, st') -> frames st st'.

Create HintDb silent.

Lemma frames_refl {E} (st : State E) : frames st st.
Proof.
  repeat split. exists []. split; [symmetry; apply app_nil_r | constructor].
Qed.

Lemma frames_trans {E} (st1 st2 st3 : State E) :
  frames st1 st2 -> frames st2 st3 -> frames st1 st3.
Proof.
  intros (Hr1 & He1 & evs1 & Hh1 & Hq1) (Hr2 & He2 & evs2 & Hh2 & Hq2).
  split; [congruence | split; [congruence|]].
  exists (evs1 ++ evs2). split.
  - rewrite Hh2, Hh1, app_assoc. reflexivity.
  - apply Forall_app. auto.
Qed.

Lemma silent_ret {E A} (a : A) : silent (@ret E A a).
Proof. intros st r st' Hrun. inversion Hrun; subst. apply frames_refl. Qed.

Lemma silent_throw {E A} (e : Error) : silent (@throw E A e).
Proof. intros st r st' Hrun. inversion Hrun; subst. apply frames_refl. Qed.

Lemma silent_bind {E A B} (m : M E A) (k : A -> M E B) :
  silent m -> (forall a, silent (k a)) -> silent (bind m k).
Proof.
  intros Hm Hk st r st' Hrun.
  apply bind_inv in Hrun as [(a & st1 & Hrun1 & Hrun2) | (e & Hrun1 & _)].
  - eapply frames_trans; [eapply Hm | eapply Hk]; eassumption.
  - eapply Hm. eassumption.
Qed.

Lemma silent_foldM {E A B} (f : B -> A -> M E B) :
  (forall acc x, silent (f acc x)) -> forall xs acc, silent (@foldM E A B f acc xs).
Proof.
  intros Hf. induction xs as [|x rest IH]; intros acc; cbn [foldM].
  - apply silent_ret.
  - apply silent_bind; [apply Hf | intros acc'; apply IH].
Qed.

(** A state that differs from [st] in its files, its failures report, its
    world, and by events that are not terminal writes. *)
Lemma frames_update {E} (st : State E) files failures evs w :
  Forall (fun ev => terminal ev = false) evs ->
  frames st (mkState files failures (repair_report_json st) (escalation_json st)
               (history st ++ evs) w).
Proof. intros Hevs. repeat split. exists evs. auto. Qed.

Lemma frames_same_history {E} (st : State E) files failures w :
  frames st (mkState files failures (repair_report_json st) (escalation_json st)
               (history st) w).
Proof. repeat split. exists []. split; [symmetry; apply app_nil_r | constructor]. Qed.

#[export] Hint Resolve silent_ret silent_throw : silent.

(** Break a goal [silent m] down along the structure of [m]. *)
Ltac silent_step :=
  first
    [ solve [auto with silent nocore]
    | apply silent_bind; [|intros ?]
    | apply silent_foldM; intros ? ?
    | match goal with
      | |- silent (if ?b then _ else _) => destruct b
      | |- silent (match ?x with _ => _ end) => destruct x
      end ].

Ltac silent_tac := repeat silent_step.

Section Silent.
Context {E : Type} (H : Host E) (cwd : string).

Lemma silent_now : silent (now H).
Proof.
  intros st r st' Hrun. unfold now in Hrun. destruct (Date_now H (world st)).
  inversion Hrun; subst. apply frames_same_history.
Qed.

Lemma silent_readFile rel : silent (readFile H cwd rel).
Proof.
  intros st r st' Hrun. apply readFile_state in Hrun as ->. apply frames_refl.
Qed.

Lemma silent_writeFile rel text : silent (writeFile H cwd rel text).
Proof. intros st r st' Hrun. inversion Hrun; subst. apply frames_same_history. Qed.

Lemma silent_runCommand c : silent (runCommand H c).
Proof.
  intros st r st' Hrun. unfold runCommand in Hrun.
  destruct (negb (valid_timeout (timeout_of c)));
    [inversion Hrun; subst; apply frames_refl|].
  destruct (spawnSync H c (tree st) (world st)) as [[res files] w].
  inversion Hrun; subst. apply frames_update. repeat constructor.
Qed.

Lemma silent_log ev : terminal ev = false -> silent (@log E ev).
Proof.
  intros Hev st r st' Hrun. inversion Hrun; subst. apply frames_update.
  repeat constructor. exact Hev.
Qed.

Lemma silent_writeFailures p : silent (@writeFailures E p).
Proof.
  intros st r st' Hrun. inversion Hrun; subst. apply frames_update. repeat constructor.
Qed.

Lemma silent_readFailures : silent (@readFailures E).
Proof.
  intros st r st' Hrun. unfold readFailures in Hrun.
  destruct (failures_json st); inversion Hrun; subst; apply frames_refl.
Qed.

#[local] Hint Resolve silent_now silent_readFile silent_writeFile silent_runCommand
  silent_writeFailures silent_readFailures : silent.
#[local] Hint Extern 1 (silent (log _)) => apply silent_log; reflexivity : silent.

Lemma silent_loadConfig : silent (loadConfig H cwd).
Proof. unfold loadConfig. silent_tac. Qed.

Lemma silent_packageScripts : silent (packageScripts H cwd).
Proof. unfold packageScripts. silent_tac. Qed.

Lemma silent_parseLighthouseFindings : silent (parseLighthouseFindings H cwd).
Proof. unfold parseLighthouseFindings. silent_tac. Qed.

Lemma silent_findingForExitCode g result : silent (findingForExitCode H g result).
Proof. unfold findingForExitCode. silent_tac. Qed.

Lemma silent_runGateCommand c : silent (runGateCommand H c).
Proof. unfold runGateCommand. silent_tac. Qed.

#[local] Hint Resolve silent_loadConfig silent_packageScripts silent_parseLighthouseFindings
  silent_findingForExitCode silent_runGateCommand : silent.

Lemma silent_runGate mode scripts config changedFiles acc g :
  silent (runGate H cwd mode scripts config changedFiles acc g).
Proof. unfold runGate. silent_tac. Qed.

#[local] Hint Resolve silent_runGate : silent.

Lemma silent_runDeterministicGates mode config changedFiles :
  silent (runDeterministicGates H cwd mode config changedFiles).
Proof. unfold runDeterministicGates. silent_tac. Qed.

Lemma silent_gitInfo : silent (gitInfo H).
Proof. unfold gitInfo. silent_tac. Qed.

#[local] Hint Resolve silent_runDeterministicGates silent_gitInfo : silent.

Lemma silent_executeRun mode changedFiles : silent (executeRun H cwd mode changedFiles).
Proof. unfold executeRun. silent_tac. Qed.

Lemma silent_executeSummarize : silent (executeSummarize H).
Proof. unfold executeSummarize. silent_tac. Qed.

Lemma silent_callOllama model prompt timeout purpose :
  silent (callOllama H model prompt timeout purpose).
Proof. unfold callOllama. silent_tac. Qed.

#[local] Hint Resolve silent_executeRun silent_executeSummarize silent_callOllama : silent.

Lemma silent_applyEdits es : forall touched, silent (applyEdits H cwd es touched).
Proof.
  induction es as [|e rest IH]; intros touched; cbn [applyEdits]; silent_tac.
Qed.

#[local] Hint Resolve silent_applyEdits : silent.

Lemma silent_applyEditPlan plan : silent (applyEditPlan H cwd plan).
Proof. unfold applyEditPlan. silent_tac. Qed.

Lemma silent_planOfOutput output : silent (planOfOutput H cwd output).
Proof. unfold planOfOutput. silent_tac. Qed.

#[local] Hint Resolve silent_applyEditPlan silent_planOfOutput : silent.

Lemma silent_checkAndApplyPlan plan failures maxPatchLines :
  silent (checkAndApplyPlan H cwd plan failures maxPatchLines).
Proof. unfold checkAndApplyPlan. silent_tac. Qed.

Lemma silent_requestPlan failures policy : silent (requestPlan H cwd failures policy).
Proof. unfold requestPlan. silent_tac. Qed.

#[local] Hint Resolve silent_checkAndApplyPlan silent_requestPlan : silent.

Lemma silent_runPatchModel failures policy maxPatchLines :
  silent (runPatchModel H cwd failures policy maxPatchLines).
Proof. unfold runPatchModel. silent_tac. Qed.

Lemma silent_runHintModel failures policy : silent (runHintModel H cwd failures policy).
Proof. unfold runHintModel. silent_tac. Qed.

Lemma silent_runLintProblemAutofix files : silent (runLintProblemAutofix H files).
Proof. unfold runLintProblemAutofix. silent_tac. Qed.

#[local] Hint Resolve silent_runPatchModel silent_runHintModel silent_runLintProblemAutofix
  : silent.

Lemma silent_runDeterministicPreFix failures : silent (runDeterministicPreFix H failures).
Proof. unfold runDeterministicPreFix. silent_tac. Qed.

Lemma silent_diffSnapshot : silent (diffSnapshot H).
Proof. unfold diffSnapshot. silent_tac. Qed.

Lemma silent_backupWorkspace attempt : silent (backupWorkspace H attempt).
Proof. unfold backupWorkspace. silent_tac. Qed.

Lemma silent_restoreWorkspace attempt : silent (restoreWorkspace H attempt).
Proof. unfold restoreWorkspace. silent_tac. Qed.

Lemma silent_runModelActions attempted0 current policy deterministicOnly :
  silent (runModelActions H cwd attempted0 current policy deterministicOnly).
Proof. unfold runModelActions. silent_tac. Qed.

#[local] Hint Resolve silent_runDeterministicPreFix silent_diffSnapshot silent_backupWorkspace
  silent_restoreWorkspace silent_runModelActions : silent.

Lemma silent_runRepairActions failures policy deterministicOnly :
  silent (runRepairActions H cwd failures policy deterministicOnly).
Proof. unfold runRepairActions. silent_tac. Qed.

End Silent.

#[export] Hint Resolve silent_now silent_readFile silent_writeFile silent_runCommand
  silent_writeFailures silent_readFailures silent_loadConfig silent_executeRun
  silent_executeSummarize silent_diffSnapshot silent_backupWorkspace
  silent_restoreWorkspace silent_runRepairActions : silent.

(* ===================================================================== *)
(** ** The repair loop *)
(* ===================================================================== *)

(** The artifact a result is written to. *)
Definition artifact_of (out : RepairOutcome) : Artifact :=
  match out with
  | Repaired _ => RepairReportFile
  | Escalated _ => EscalationFile
  end.

(** From [st] to [st'] exactly one terminal artifact was written, once: the
    one that holds [out]; the other one is as it was. *)
Definition finished {E} (st : State E) (out : RepairOutcome) (st' : State E) : Prop :=
  match out with
  | Repaired r =>
      repair_report_json st' = Some r /\ escalation_json st' = escalation_json st
  | Escalated e =>
      escalation_json st' = Some e /\ repair_report_json st' = repair_report_json st
  end
  /\ exists evs, history st' = history st ++ evs
                 /\ List.filter terminal evs = [Wrote (artifact_of out)].

(** The counter of non-improving attempts after an attempt recorded as [rec]. *)
Definition next_noImprovement (ls : LoopState) (rec : AttemptRecord) : Z :=
  if improved rec then 0 else noImprovement ls + 1.

(** The last [n] records of the log are attempts that did not improve. *)
Definition non_improving_tail (n : Z) (log : list AttemptRecord) : Prop :=
  0 <= n /\ n <= Z.of_nat (length log)
  /\ Forall (fun r => improved r = false) (drop (length log - Z.to_nat n) log).

Section Loop.
Context {E : Type} (H : Host E) (cwd : string).

Lemma filter_terminal_none evs :
  Forall (fun ev => terminal ev = false) evs -> List.filter terminal evs = [].
Proof.
  induction 1 as [|ev rest Hev _ IH]; [reflexivity|]. cbn. rewrite Hev. exact IH.
Qed.

Lemma frames_finished (st st1 st' : State E) out :
  frames st st1 -> finished st1 out st' -> finished st out st'.
Proof.
  intros (Hr & He & evs1 & Hh1 & Hq1) (Hslots & evs2 & Hh2 & Hf2).
  split.
  - destruct out; destruct Hslots; split; congruence.
  - exists (evs1 ++ evs2). split.
    + rewrite Hh2, Hh1, app_assoc. reflexivity.
    + rewrite List.filter_app, (filter_terminal_none _ Hq1). exact Hf2.
Qed.

Lemma escalate_finished e (st : State E) r st' :
  escalate e st = (r, st') -> r = Ret (Escalated e) /\ finished st (Escalated e) st'.
Proof.
  unfold escalate, bind, writeEscalation, ret. intros Hrun. inversion Hrun; subst.
  split; [reflexivity|]. split; [split; reflexivity|].
  exists [Wrote EscalationFile]. split; reflexivity.
Qed.

Lemma report_finished log (st : State E) r st' :
  report log st = (r, st') ->
  r = Ret (Repaired {| attempts := log |})
  /\ finished st (Repaired {| attempts := log |}) st'.
Proof.
  unfold report, bind, writeRepairReport, ret. intros Hrun. inversion Hrun; subst.
  split; [reflexivity|]. split; [split; reflexivity|].
  exists [Wrote RepairReportFile]. split; reflexivity.
Qed.

(** Peel one bind off [Hrun], naming the value [x] and the state [stx] it
    yields, and extend the frame fact [Hfr] over it. *)
Ltac advance Hfr Hrun x stx :=
  let H1 := fresh "Hstep" in
  apply bind_ret_inv in Hrun as (x & stx & H1 & Hrun);
  match type of H1 with
  | ?m ?st0 = _ =>
      let Hs := fresh "Hsilent" in
      let Hfr' := fresh "Hfr" in
      assert (Hs : silent m) by silent_tac;
      apply Hs in H1;
      pose proof (frames_trans _ _ _ Hfr H1) as Hfr';
      clear Hfr H1 Hs; rename Hfr' into Hfr
  end.

(** Close a branch of the loop body that returns through [escalate] or
    [report]. *)
Ltac returns_with Hfr Hrun lem :=
  let out := fresh "out" in
  let stw := fresh "stw" in
  let Hw := fresh "Hw" in
  let Hout := fresh "Hout" in
  let Hfin := fresh "Hfin" in
  let Hret := fresh "Hret" in
  apply bind_ret_inv in Hrun as (out & stw & Hw & Hret);
  apply lem in Hw as [Hout Hfin]; inversion Hout; subst out;
  apply ret_inv in Hret as [Hret ->]; inversion Hret; subst;
  split; [eapply frames_finished; eassumption|].

(** What one iteration does: it returns after writing exactly one terminal
    artifact, or it falls through having written none; in both cases one
    record was appended when the rerun was reached. *)
Lemma attemptBody_spec policy deterministicOnly started attempt ls st step st' :
  attemptBody H cwd policy deterministicOnly started attempt ls st = (Ret step, st') ->
  match step with
  | Return out =>
      finished st out st'
      /\ match out with
         | Escalated e =>
             reason_code e = NO_IMPROVEMENT ->
             exists rec,
               evidence_attempts e = Some (ls_attempts ls ++ [rec])
               /\ message e = NoMeasurableImprovement (next_noImprovement ls rec)
               /\ JS.ge (JS.Int (next_noImprovement ls rec))
                    (abortOnNoImprovement policy) = true
         | Repaired _ => True
         end
  | Continue ls' =>
      frames st st'
      /\ exists rec,
           ls_attempts ls' = ls_attempts ls ++ [rec]
           /\ noImprovement ls' = next_noImprovement ls rec
  end.
Proof.
  unfold attemptBody. intros Hrun.
  pose proof (frames_refl st) as Hfr.
  advance Hfr Hrun t st1.
  destruct (JS.gt (JS.Int (t - started)) (timeCapMs policy)).
  { returns_with Hfr Hrun escalate_finished. discriminate. }
  advance Hfr Hrun u st2. advance Hfr Hrun pre st3.
  advance Hfr Hrun acts st4. advance Hfr Hrun post st5.
  destruct (JS.gt (JS.Int (computePatchLines pre post)) (maxPatchLines policy)).
  { advance Hfr Hrun u' st6. returns_with Hfr Hrun escalate_finished. discriminate. }
  destruct (shortCircuitPass acts).
  { returns_with Hfr Hrun report_finished. exact I. }
  advance Hfr Hrun rerun st6. advance Hfr Hrun failures st7. advance Hfr Hrun u' st8.
  destruct (run_status rerun).
  { returns_with Hfr Hrun report_finished. exact I. }
  advance Hfr Hrun u'' st9.
  match type of Hrun with
  | context [ls_attempts ls ++ [?r]] => set (rec := r) in *
  end.
  change (if Z.of_nat (length (findings failures)) <? previousCount ls
          then 0 else noImprovement ls + 1)
    with (next_noImprovement ls rec) in Hrun.
  destruct (JS.ge (JS.Int (next_noImprovement ls rec)) (abortOnNoImprovement policy))
    eqn:Htrip.
  { returns_with Hfr Hrun escalate_finished. intros _. exists rec. cbn. auto. }
  apply ret_inv in Hrun as [Hret ->]. inversion Hret; subst step.
  split; [exact Hfr|]. exists rec. cbn. auto.
Qed.

End Loop.

Section LoopInvariant.
Context {E : Type} (H : Host E) (cwd : string).

Lemma tail_start : non_improving_tail 0 [].
Proof. repeat split; cbn; try lia. constructor. Qed.

(** Appending a record keeps the invariant: an improving attempt resets the
    counter, any other one lengthens the non-improving tail by one. *)
Lemma tail_step ls rec :
  non_improving_tail (noImprovement ls) (ls_attempts ls) ->
  non_improving_tail (next_noImprovement ls rec) (ls_attempts ls ++ [rec]).
Proof.
  intros (Hpos & Hlen & Htail). unfold next_noImprovement, non_improving_tail.
  rewrite length_app. cbn [length].
  destruct (improved rec) eqn:Himproved.
  - repeat split; try lia.
    rewrite drop_ge by (rewrite length_app; cbn; lia). constructor.
  - repeat split; try lia.
    replace (length (ls_attempts ls) + 1 - Z.to_nat (noImprovement ls + 1))%nat
      with (length (ls_attempts ls) - Z.to_nat (noImprovement ls))%nat by lia.
    rewrite drop_app_le by lia.
    apply Forall_app. split; [exact Htail|]. repeat constructor. exact Himproved.
Qed.

(** A shorter tail of a non-improving tail is non-improving. *)
Lemma tail_shorter n a log :
  non_improving_tail n log -> a <= n ->
  a <= Z.of_nat (length log)
  /\ Forall (fun r => improved r = false) (drop (length log - Z.to_nat a) log).
Proof.
  intros (Hpos & Hlen & Htail) Ha. split; [lia|].
  replace (length log - Z.to_nat a)%nat
    with ((length log - Z.to_nat n) + (Z.to_nat n - Z.to_nat a))%nat by lia.
  rewrite <- drop_drop. apply Forall_drop. exact Htail.
Qed.

(** The loop: however many iterations remain, a return has written exactly
    one terminal artifact; and a NO_IMPROVEMENT escalation carries a log
    whose non-improving tail is at least as long as the threshold. *)
Lemma repairLoop_spec policy deterministicOnly started remaining :
  forall attempt ls st out st',
    repairLoop H cwd policy deterministicOnly started remaining attempt ls st
    = (Ret out, st') ->
    non_improving_tail (noImprovement ls) (ls_attempts ls) ->
    finished st out st'
    /\ forall e, out = Escalated e -> reason_code e = NO_IMPROVEMENT ->
         exists log n a,
           evidence_attempts e = Some log
           /\ message e = NoMeasurableImprovement n
           /\ abortOnNoImprovement policy = JS.Int a
           /\ a <= n
           /\ non_improving_tail n log.
Proof.
  induction remaining as [|remaining IH]; intros attempt ls st out st' Hrun Hinv.
  - cbn [repairLoop] in Hrun. apply escalate_finished in Hrun as [Hout Hfin].
    inversion Hout; subst out. split; [exact Hfin|].
    intros e He. inversion He; subst e. discriminate.
  - cbn [repairLoop] in Hrun.
    apply bind_ret_inv in Hrun as (step & st1 & Hbody & Hrun).
    apply attemptBody_spec in Hbody. destruct step as [out1 | ls1].
    + apply ret_inv in Hrun as [Hret ->]. inversion Hret; subst out1.
      destruct Hbody as [Hfin Hesc]. split; [exact Hfin|].
      intros e He Hcode. subst out.
      destruct (Hesc Hcode) as (rec & Hlog & Hmsg & Htrip).
      unfold JS.ge in Htrip.
      destruct (abortOnNoImprovement policy) as [|a] eqn:Habort; [discriminate|].
      exists (ls_attempts ls ++ [rec]), (next_noImprovement ls rec), a.
      repeat split; try assumption; try lia.
      all: apply (tail_step ls rec Hinv).
    + destruct Hbody as (Hfr & rec & Hlog & Hcount).
      apply IH in Hrun as [Hfin Hesc].
      * split; [eapply frames_finished; eassumption | exact Hesc].
      * rewrite Hlog, Hcount. apply tail_step. exact Hinv.
Qed.

Lemma readFailures_state (st : State E) r st' : readFailures st = (r, st') -> st' = st.
Proof.
  unfold readFailures. destruct (failures_json st); intros Hrun; inversion Hrun; reflexivity.
Qed.

End LoopInvariant.

(** C3. Whenever executeRepair ends with an escalation whose reason_code is
    NO_IMPROVEMENT, the attempts log it carries holds at least
    abortOnNoImprovement records and the last abortOnNoImprovement of them
    all have improved = false. The counter reported in the message is at
    least the threshold, and counts a tail of the log made of non-improving
    attempts only: an attempt with improved = true resets it to zero. *)
Theorem C3_no_improvement_tail
    {E} (H : Host E) (cwd : string) (maxAttemptsArg : JS.value)
    (deterministicOnly : bool) (st st' : State E) (e : Escalation) :
  executeRepair H cwd maxAttemptsArg deterministicOnly st = (Ret (Escalated e), st') ->
  reason_code e = NO_IMPROVEMENT ->
  exists config a n log,
    loadConfig H cwd st = (Ret config, st)
    /\ abortOnNoImprovement (computePolicy H maxAttemptsArg config) = JS.Int a
    /\ evidence_attempts e = Some log
    /\ message e = NoMeasurableImprovement n
    /\ a <= n
    /\ a <= Z.of_nat (length log)
    /\ Forall (fun r => improved r = false) (drop (length log - Z.to_nat a) log)
    /\ non_improving_tail n log.
Proof.
  unfold executeRepair. intros Hrun Hcode.
  apply bind_ret_inv in Hrun as (config & st0 & Hconfig & Hrun).
  pose proof (loadConfig_state H cwd _ _ _ Hconfig) as ->.
  destruct (negb (forallb JS.converts _)); [discriminate Hrun|].
  apply bind_ret_inv in Hrun as (failures & st1 & Hread & Hrun).
  apply bind_ret_inv in Hrun as (started & st2 & Hnow & Hrun).
  apply repairLoop_spec in Hrun as [_ Hesc]; [|apply tail_start].
  destruct (Hesc e eq_refl Hcode) as (log & n & a & Hlog & Hmsg & Habort & Hle & Htail).
  destruct (tail_shorter n a log Htail Hle) as [Hlen Hlast].
  exists config, a, n, log. repeat split; try assumption; apply Htail.
Qed.

(** A deterministic-only repair of a project whose gates keep failing: two
    attempts without improvement, then NO_IMPROVEMENT with both records. *)
Lemma C3_witness :
  exists e log,
    fst (executeRepair Demo.failing_host Demo.cwd JS.VUndefined true
           (Demo.initial Demo.project (Some Demo.failing_report)))
    = Ret (Escalated e)
    /\ reason_code e = NO_IMPROVEMENT
    /\ evidence_attempts e = Some log
    /\ length log = 2%nat
    /\ Forall (fun r => improved r = false) log.
Proof.
  destruct (executeRepair Demo.failing_host Demo.cwd JS.VUndefined true
              (Demo.initial Demo.project (Some Demo.failing_report)))
    as [[[r|e]|err] st'] eqn:Hrun;
    [vm_compute in Hrun; discriminate Hrun | | vm_compute in Hrun; discriminate Hrun].
  assert (Hcode : reason_code e = NO_IMPROVEMENT).
  { vm_compute in Hrun. inversion Hrun. reflexivity. }
  destruct (C3_no_improvement_tail Demo.failing_host Demo.cwd JS.VUndefined true
              _ _ e Hrun Hcode)
    as (config & a & n & log & Hconfig & Habort & Hlog & _ & _ & _ & Hlast & _).
  vm_compute in Hconfig. inversion Hconfig; subst config.
  vm_compute in Habort. inversion Habort; subst a.
  exists e, log. split; [reflexivity|]. split; [exact Hcode|]. split; [exact Hlog|].
  assert (Hlen : length log = 2%nat).
  { vm_compute in Hrun. inversion Hrun; subst e. cbn in Hlog.
    inversion Hlog; subst log. reflexivity. }
  split; [exact Hlen|]. rewrite Hlen in Hlast. exact Hlast.
Defined.




(* ===================================================================== *)
(** ** A report without findings *)
(* ===================================================================== *)

(** Events of the model adapters, of the pre-fixer and of a gate run. *)
Definition repair_work (ev : Event) : bool :=
  match ev with
  | HintAdapterEntered | PatchAdapterEntered => true
  | Spawned (OllamaRun _ _ _) | Spawned (EslintFixProblem _) | Spawned (Shell _) => true
  | Wrote FailuresFile | Wrote RunMetadataFile | Wrote AgentBriefFile => true
  | _ => false
  end.

(** From [st] to [st'] no model was asked, no fixer and no gate was run. *)
Definition calm {E} (st st' : State E) : Prop :=
  exists evs, history st' = history st ++ evs
              /\ Forall (fun ev => repair_work ev = false) evs.

(** The record of the short-circuit branch for a report without findings. *)
Definition short_circuit_record (attempt patchLines : Z) : AttemptRecord :=
  {| attempt := attempt; patch_lines := patchLines; before_findings := 0;
     after_findings := 0; improved := true; worsened := false;
     attempt_status := pass; actions := [] |}.

Section NoFindings.
Context {E : Type} (H : Host E) (cwd : string).

Lemma calm_same_history (st st' : State E) : history st' = history st -> calm st st'.
Proof. intros Hh. exists []. split; [rewrite app_nil_r; exact Hh | constructor]. Qed.

Lemma calm_refl (st : State E) : calm st st.
Proof. apply calm_same_history. reflexivity. Qed.

Lemma calm_trans (st1 st2 st3 : State E) : calm st1 st2 -> calm st2 st3 -> calm st1 st3.
Proof.
  intros (evs1 & Hh1 & Hq1) (evs2 & Hh2 & Hq2). exists (evs1 ++ evs2). split.
  - rewrite Hh2, Hh1, app_assoc. reflexivity.
  - apply Forall_app. auto.
Qed.

Lemma calm_one (st st' : State E) ev :
  history st' = history st ++ [ev] -> repair_work ev = false -> calm st st'.
Proof. intros Hh Hev. exists [ev]. split; [exact Hh | repeat constructor; exact Hev]. Qed.

Lemma now_inv (st : State E) t st' :
  now H st = (Ret t, st') -> t = fst (Date_now H (world st)) /\ calm st st'
                             /\ world st' = snd (Date_now H (world st)).
Proof.
  unfold now. destruct (Date_now H (world st)) as [t0 w]. intros Hrun.
  inversion Hrun; subst. repeat split. apply calm_same_history. reflexivity.
Qed.

Lemma runCommand_calm c (st : State E) r st' :
  repair_work (Spawned c) = false -> runCommand H c st = (r, st') -> calm st st'.
Proof.
  unfold runCommand. intros Hc Hrun.
  destruct (negb (valid_timeout (timeout_of c)));
    [inversion Hrun; subst; apply calm_refl|].
  destruct (spawnSync H c (tree st) (world st)) as [[res files] w].
  inversion Hrun; subst. eapply calm_one; [reflexivity | exact Hc].
Qed.

Lemma backupWorkspace_calm attempt (st : State E) r st' :
  backupWorkspace H attempt st = (r, st') -> calm st st'.
Proof.
  unfold backupWorkspace. intros Hrun.
  apply bind_inv in Hrun as [(a & st1 & Hcmd & Hret) | (e & Hcmd & _)].
  - apply ret_inv in Hret as [_ ->]. eapply runCommand_calm; [|exact Hcmd]. reflexivity.
  - eapply runCommand_calm; [|exact Hcmd]. reflexivity.
Qed.

Lemma restoreWorkspace_calm attempt (st : State E) r st' :
  restoreWorkspace H attempt st = (r, st') -> calm st st'.
Proof.
  unfold restoreWorkspace. intros Hrun.
  apply bind_inv in Hrun as [(a & st1 & Hcmd & Hret) | (e & Hcmd & _)].
  - apply ret_inv in Hret as [_ ->]. eapply runCommand_calm; [|exact Hcmd]. reflexivity.
  - eapply runCommand_calm; [|exact Hcmd]. reflexivity.
Qed.

Lemma diffSnapshot_inv (st : State E) m st' :
  diffSnapshot H st = (Ret m, st') -> calm st st' /\ (hasGit H = false -> m = ∅).
Proof.
  unfold diffSnapshot. destruct (hasGit H); cbn [negb].
  - intros Hrun. apply bind_ret_inv in Hrun as (diff & st1 & Hcmd & Hret).
    split; [|discriminate].
    destruct (negb (exit_code diff =? 0)); apply ret_inv in Hret as [_ ->];
      (eapply runCommand_calm; [|exact Hcmd]; reflexivity).
  - intros Hrun. apply ret_inv in Hrun as [Hret ->]. inversion Hret; subst.
    split; [apply calm_refl | reflexivity].
Qed.

Lemma escalate_calm e (st : State E) r st' : escalate e st = (r, st') -> calm st st'.
Proof.
  unfold escalate, bind, writeEscalation, ret. intros Hrun. inversion Hrun; subst.
  eapply calm_one; reflexivity.
Qed.

Lemma report_calm log (st : State E) r st' : report log st = (r, st') -> calm st st'.
Proof.
  unfold report, bind, writeRepairReport, ret. intros Hrun. inversion Hrun; subst.
  eapply calm_one; reflexivity.
Qed.

Lemma computePatchLines_empty : computePatchLines ∅ ∅ = 0.
Proof.
  unfold computePatchLines. rewrite dom_empty_L, union_empty_l_L, elements_empty.
  reflexivity.
Qed.

(** The short-circuit of runRepairActions: whenever the findings at hand
    after the pre-fix are none, no model is consulted, whether or not the
    pre-fixer acted. *)
Lemma runModelActions_short_circuit attempted0 current policy deterministicOnly
    (st : State E) :
  findings current = [] ->
  runModelActions H cwd attempted0 current policy deterministicOnly st
  = (Ret {| attempted := attempted0; currentFailures := current;
            shortCircuitPass := true |}, st).
Proof. intros Hnone. unfold runModelActions. rewrite Hnone. reflexivity. Qed.

(** Without a lint finding the pre-fixer does nothing. *)
Lemma runDeterministicPreFix_no_lint failures (st : State E) :
  hasGateFailure failures lint = false ->
  runDeterministicPreFix H failures st = (Ret [], st).
Proof. intros Hlint. unfold runDeterministicPreFix. rewrite Hlint. reflexivity. Qed.

(** With no finding at hand the repair actions do nothing at all and ask
    for the short-circuit. *)
Lemma runRepairActions_no_findings failures policy deterministicOnly (st : State E) :
  findings failures = [] ->
  runRepairActions H cwd failures policy deterministicOnly st
  = (Ret {| attempted := []; currentFailures := failures; shortCircuitPass := true |}, st).
Proof.
  intros Hnone. unfold runRepairActions.
  rewrite (bind_run _ _ st [] st).
  - rewrite (bind_run _ _ st ([], failures) st) by reflexivity.
    apply runModelActions_short_circuit. exact Hnone.
  - apply runDeterministicPreFix_no_lint. unfold hasGateFailure. rewrite Hnone.
    reflexivity.
Qed.

(** The first attempt on a report without findings. *)
Lemma attemptBody_no_findings policy deterministicOnly started attempt ls
    (st st' : State E) step :
  findings (ls_failures ls) = [] ->
  previousCount ls = 0 ->
  ls_attempts ls = [] ->
  attemptBody H cwd policy deterministicOnly started attempt ls st = (Ret step, st') ->
  calm st st'
  /\ if JS.gt (JS.Int (fst (Date_now H (world st)) - started)) (timeCapMs policy)
     then step = Return (Escalated {| reason_code := UNKNOWN_BLOCKER;
                                      message := TimeCapReached (timeCapMs policy);
                                      evidence_attempts := None |})
     else exists patchLines,
         (hasGit H = false -> patchLines = 0)
         /\ if JS.gt (JS.Int patchLines) (maxPatchLines policy)
            then step = Return (Escalated
                   {| reason_code := PATCH_BUDGET_EXCEEDED;
                      message := PatchBudgetExceededAt attempt patchLines
                                   (maxPatchLines policy);
                      evidence_attempts := None |})
            else step = Return (Repaired
                   {| attempts := [short_circuit_record attempt patchLines] |}).
Proof.
  intros Hnone Hprev Hlog. unfold attemptBody. intros Hrun.
  apply bind_ret_inv in Hrun as (t & st1 & Hnow & Hrun).
  apply now_inv in Hnow as (-> & Hcalm1 & _).
  destruct (JS.gt (JS.Int (fst (Date_now H (world st)) - started)) (timeCapMs policy)).
  { apply bind_ret_inv in Hrun as (out & st2 & Hesc & Hret).
    apply ret_inv in Hret as [Hret ->]. inversion Hret; subst step.
    pose proof (escalate_calm _ _ _ _ Hesc) as Hcalm2.
    apply escalate_finished in Hesc as [Hout _]. inversion Hout; subst out.
    split; [eapply calm_trans; eassumption | reflexivity]. }
  apply bind_ret_inv in Hrun as (u & st2 & Hbackup & Hrun).
  apply backupWorkspace_calm in Hbackup.
  apply bind_ret_inv in Hrun as (pre & st3 & Hpre & Hrun).
  apply diffSnapshot_inv in Hpre as [Hcalm3 Hpre].
  rewrite (bind_run _ _ _ _ _ (runRepairActions_no_findings _ _ _ _ Hnone)) in Hrun.
  apply bind_ret_inv in Hrun as (post & st4 & Hpost & Hrun).
  apply diffSnapshot_inv in Hpost as [Hcalm4 Hpost].
  cbn [attempted currentFailures shortCircuitPass] in Hrun.
  assert (Hcalm : calm st st4).
  { eapply calm_trans; [eapply calm_trans; [eapply calm_trans|]|]; eassumption. }
  assert (Hzero : hasGit H = false -> computePatchLines pre post = 0).
  { intros Hgit. rewrite (Hpre Hgit), (Hpost Hgit). apply computePatchLines_empty. }
  destruct (JS.gt (JS.Int (computePatchLines pre post)) (maxPatchLines policy)) eqn:Hbudget.
  { apply bind_ret_inv in Hrun as (u' & st5 & Hrestore & Hrun).
    apply restoreWorkspace_calm in Hrestore.
    apply bind_ret_inv in Hrun as (out & st6 & Hesc & Hret).
    apply ret_inv in Hret as [Hret ->]. inversion Hret; subst step.
    pose proof (escalate_calm _ _ _ _ Hesc) as Hcalm6.
    apply escalate_finished in Hesc as [Hout _]. inversion Hout; subst out.
    split; [eapply calm_trans; [eapply calm_trans|]; eassumption|].
    exists (computePatchLines pre post). split; [exact Hzero|]. rewrite Hbudget.
    reflexivity. }
  apply bind_ret_inv in Hrun as (out & st5 & Hrep & Hret).
  apply ret_inv in Hret as [Hret ->]. inversion Hret; subst step.
  pose proof (report_calm _ _ _ _ Hrep) as Hcalm5.
  apply report_finished in Hrep as [Hout _]. inversion Hout; subst out.
  split; [eapply calm_trans; eassumption|].
  exists (computePatchLines pre post). split; [exact Hzero|]. rewrite Hbudget.
  rewrite Hprev, Hlog. reflexivity.
Qed.

End NoFindings.

(** C8 (amended). If the FailuresReport passed to executeRepair contains no
    finding, executeRepair returns from its first attempt, or before it,
    without entering the hint or patch adapters, running the pre-fixer or
    rerunning the gates. Provided maxAttempts is at least 1, the time cap is
    not exceeded at the first check and the measured patch-line delta (0
    without version control) does not exceed maxPatchLines, it returns a
    RepairReport of status 'pass' with exactly one attempt record: attempt
    1, before_findings = 0, after_findings = 0, improved = true, worsened =
    false, no actions. Otherwise it returns the escalation of the guard that
    comes first: UNKNOWN_BLOCKER for attempts exhausted (maxAttempts below
    1) or for the time cap, PATCH_BUDGET_EXCEEDED for the budget. *)
Theorem C8_zero_findings_first_attempt
    {E} (H : Host E) (cwd : string) (maxAttemptsArg : JS.value)
    (deterministicOnly : bool) (st st' : State E) (failures : FailuresReport)
    (out : RepairOutcome) :
  failures_json st = Some failures ->
  findings failures = [] ->
  executeRepair H cwd maxAttemptsArg deterministicOnly st = (Ret out, st') ->
  calm st st'
  /\ exists config,
      loadConfig H cwd st = (Ret config, st)
      /\ let policy := computePolicy H maxAttemptsArg config in
         let started := fst (Date_now H (world st)) in
         let checked := fst (Date_now H (snd (Date_now H (world st)))) in
         match iterations (maxAttempts policy) with
         | O =>
             out = Escalated {| reason_code := UNKNOWN_BLOCKER;
                                message := AttemptsExhausted (maxAttempts policy);
                                evidence_attempts := None |}
         | S _ =>
             if JS.gt (JS.Int (checked - started)) (timeCapMs policy)
             then out = Escalated {| reason_code := UNKNOWN_BLOCKER;
                                     message := TimeCapReached (timeCapMs policy);
                                     evidence_attempts := None |}
             else exists patchLines,
                 (hasGit H = false -> patchLines = 0)
                 /\ if JS.gt (JS.Int patchLines) (maxPatchLines policy)
                    then out = Escalated
                           {| reason_code := PATCH_BUDGET_EXCEEDED;
                              message := PatchBudgetExceededAt 1 patchLines
                                           (maxPatchLines policy);
                              evidence_attempts := None |}
                    else out = Repaired
                           {| attempts := [short_circuit_record 1 patchLines] |}
         end.
Proof.
  intros Hfile Hnone. unfold executeRepair. intros Hrun.
  apply bind_ret_inv in Hrun as (config & st0 & Hconfig & Hrun).
  pose proof (loadConfig_state H cwd _ _ _ Hconfig) as ->.
  destruct (negb (forallb JS.converts _)); [discriminate Hrun|].
  apply bind_ret_inv in Hrun as (failures' & st1 & Hread & Hrun).
  unfold readFailures in Hread. rewrite Hfile in Hread.
  inversion Hread; subst failures' st1; clear Hread.
  apply bind_ret_inv in Hrun as (started & st2 & Hnow & Hrun).
  apply now_inv in Hnow as (-> & Hcalm & Hworld).
  destruct (iterations (maxAttempts (computePolicy H maxAttemptsArg config)))
    as [|remaining] eqn:Hiter; cbn [repairLoop] in Hrun.
  - pose proof (escalate_calm _ _ _ _ Hrun) as Hcalm'.
    apply escalate_finished in Hrun as [Hout _]. inversion Hout; subst out.
    split; [eapply calm_trans; eassumption|].
    exists config. split; [exact Hconfig|]. cbn zeta. rewrite Hiter. reflexivity.
  - apply bind_ret_inv in Hrun as (step & st3 & Hbody & Hrun).
    apply attemptBody_no_findings in Hbody as [Hcalm' Hstep];
      [| exact Hnone | cbn; rewrite Hnone; reflexivity | reflexivity].
    rewrite Hworld in Hstep.
    split.
    + destruct (JS.gt _ (timeCapMs _)) in Hstep.
      * subst step. apply ret_inv in Hrun as [_ ->]. eapply calm_trans; eassumption.
      * destruct Hstep as (patchLines & _ & Hstep).
        destruct (JS.gt _ (maxPatchLines _)) in Hstep; subst step;
          apply ret_inv in Hrun as [_ ->]; eapply calm_trans; eassumption.
    + exists config. split; [exact Hconfig|]. cbn zeta. rewrite Hiter.
      destruct (JS.gt _ (timeCapMs _)).
      * subst step. apply ret_inv in Hrun as [Hret _]. inversion Hret. reflexivity.
      * destruct Hstep as (patchLines & Hzero & Hstep). exists patchLines.
        split; [exact Hzero|].
        destruct (JS.gt _ (maxPatchLines _)); subst step;
          apply ret_inv in Hrun as [Hret _]; inversion Hret; reflexivity.
Qed.

(** A repair started on a report without findings, with the defaults: the
    pass report with the single short-circuit record. *)
Lemma C8_witness :
  fst (executeRepair Demo.passing_host Demo.cwd JS.VUndefined false
         (Demo.initial Demo.project (Some Demo.clean_report)))
  = Ret (Repaired {| attempts := [short_circuit_record 1 0] |}).
Proof.
  destruct (executeRepair Demo.passing_host Demo.cwd JS.VUndefined false
              (Demo.initial Demo.project (Some Demo.clean_report)))
    as [[out|err] st'] eqn:Hrun; [|vm_compute in Hrun; discriminate Hrun].
  destruct (C8_zero_findings_first_attempt Demo.passing_host Demo.cwd JS.VUndefined
              false (Demo.initial Demo.project (Some Demo.clean_report)) st'
              Demo.clean_report out eq_refl eq_refl Hrun)
    as (_ & config & Hconfig & Hout).
  vm_compute in Hconfig. inversion Hconfig; subst config.
  cbn zeta in Hout.
  change (iterations _) with 3%nat in Hout.
  change (JS.gt _ (timeCapMs _)) with false in Hout.
  destruct Hout as (patchLines & Hzero & Hout).
  rewrite (Hzero eq_refl) in Hout.
  change (JS.gt _ (maxPatchLines _)) with false in Hout.
  cbn [fst]. rewrite Hout. reflexivity.
Defined.

(** The claim as the specification words it: a report without findings
    always ends as the pass report with one record. Called with
    --max-attempts 0 the loop body never runs, and the call escalates with
    UNKNOWN_BLOCKER. *)
Lemma C8_counterexample :
  ~ (forall (E : Type) (H : Host E) (cwd : string) (maxAttemptsArg : JS.value)
            (deterministicOnly : bool) (st st' : State E) (failures : FailuresReport)
            (out : RepairOutcome),
        failures_json st = Some failures ->
        findings failures = [] ->
        executeRepair H cwd maxAttemptsArg deterministicOnly st = (Ret out, st') ->
        exists rec,
          out = Repaired {| attempts := [rec] |}
          /\ after_findings rec = 0 /\ improved rec = true).
Proof.
  intros Hclaim.
  destruct (executeRepair Demo.passing_host Demo.cwd (JS.VStr "0") false
              (Demo.initial Demo.project (Some Demo.clean_report)))
    as [[out|err] st'] eqn:Hrun; [|vm_compute in Hrun; discriminate Hrun].
  destruct (Hclaim Z Demo.passing_host Demo.cwd (JS.VStr "0") false
              (Demo.initial Demo.project (Some Demo.clean_report)) st'
              Demo.clean_report out eq_refl eq_refl Hrun)
    as (rec & Hout & _).
  vm_compute in Hrun. rewrite Hout in Hrun. discriminate Hrun.
Qed.


(* ===================================================================== *)
(** * Further properties of the code *)
(* ===================================================================== *)

(* ===================================================================== *)
(** ** Which gates can lack a command *)
(* ===================================================================== *)

(** X1. resolveGateCommand (gates.js). A truthy entry of config.commands is the
    command of its gate, whatever package.json declares. Without one,
    typecheck and lighthouse always fall back on a command of their own
    (npx tsc, npx lhci), so that the source's [null], which runDeterministicGates
    reports as a missing-command finding, is returned for lint and build
    only, and exactly when package.json has no script of that name. *)
Theorem X1_resolveGateCommand_null_iff
    (g : Gate) (scripts : JS.value) (fields : list (string * JS.value)) :
  let override := JS.assoc (gate_name g) fields in
  let resolved := resolveGateCommand g scripts (JS.VObj fields) in
  (JS.truthy override = true -> resolved = Some (Some override))
  /\ (JS.truthy override = false ->
      (g = typecheck \/ g = lighthouse) -> exists s, resolved = Some (Some (JS.VStr s)))
  /\ (resolved = Some None <->
      (g = lint \/ g = build)
      /\ JS.truthy override = false
      /\ has_script scripts (gate_name g) = false).
Proof.
  intros override resolved. subst override resolved.
  unfold resolveGateCommand. cbn [JS.prop].
  destruct (JS.truthy (JS.assoc (gate_name g) fields)) eqn:Htruthy.
  - split; [reflexivity|]. split; [discriminate|].
    split; [discriminate | intros (_ & Hfalse & _); discriminate].
  - split; [discriminate|]. split.
    + intros _ [-> | ->].
      * destruct (has_script scripts "typecheck"); eauto.
      * cbn [gate_name]. repeat match goal with
                                | |- context [if ?b then _ else _] => destruct b
                                end; eauto.
    + destruct g; cbn [gate_name].
      * destruct (has_script scripts "lint"); split;
          [discriminate | intros (_ & _ & Hs); discriminate | auto | reflexivity].
      * destruct (has_script scripts "typecheck");
          (split; [discriminate | intros ([Hg | Hg] & _); discriminate]).
      * destruct (has_script scripts "build"); split;
          [discriminate | intros (_ & _ & Hs); discriminate | auto | reflexivity].
      * repeat match goal with
               | |- context [if ?b then _ else _] => destruct b
               end; (split; [discriminate | intros ([Hg | Hg] & _); discriminate]).
Qed.


(* ===================================================================== *)
(** ** Lighthouse findings *)
(* ===================================================================== *)

(** An assertion record that did not pass. *)
Definition failing_row (row : JS.value) : bool :=
  match JS.prop row "passed" with
  | Some passed => negb (JS.truthy passed)
  | None => false
  end.

(** The url of an assertion record. *)
Definition row_url (row : JS.value) : JS.value :=
  default JS.VUndefined (JS.prop row "url").

(** Characters of a finding id: lower-case letters, digits, underscore. *)
Definition id_char (c : ascii) : bool :=
  let n := nat_of_ascii c in
  ((48 <=? n) && (n <=? 57) || (97 <=? n) && (n <=? 122) || (n =? 95))%nat.

Fixpoint all_chars (p : ascii -> bool) (s : string) : bool :=
  match s with
  | EmptyString => true
  | String c rest => p c && all_chars p rest
  end.

Section LighthouseFindings.
Context {E : Type} (H : Host E) (cwd : string).

Lemma all_chars_app p a b :
  all_chars p (a +:+ b) = all_chars p a && all_chars p b.
Proof.
  induction a as [|c a IH]; [reflexivity|].
  change (String c a +:+ b) with (String c (a +:+ b)). cbn [all_chars].
  rewrite IH, andb_assoc. reflexivity.
Qed.

Lemma toLowerCase_app a b : toLowerCase (a +:+ b) = toLowerCase a +:+ toLowerCase b.
Proof.
  induction a as [|c a IH]; [reflexivity|].
  change (String c a +:+ b) with (String c (a +:+ b)). cbn [toLowerCase].
  rewrite IH. reflexivity.
Qed.

Lemma startsWith_app pre s : startsWith pre (pre +:+ s) = true.
Proof.
  unfold startsWith. induction pre as [|c pre IH].
  - destruct s; reflexivity.
  - change (String c pre +:+ s) with (String c (pre +:+ s)). cbn [String.prefix].
    destruct (ascii_dec c c) as [_ | Hne]; [exact IH | congruence].
Qed.

Lemma lower_alnum_id_char c : is_alnum c = true -> id_char (lower_ascii c) = true.
Proof. destruct c as [[] [] [] [] [] [] [] []]; vm_compute; congruence. Qed.

(** A slug, once lower-cased, holds identifier characters only. *)
Lemma slug_from_id_chars s : forall in_run,
  all_chars id_char (toLowerCase (slug_from in_run s)) = true.
Proof.
  induction s as [|c s IH]; intros in_run; [reflexivity|].
  cbn [slug_from]. destruct (is_alnum c) eqn:Hc.
  - cbn [toLowerCase all_chars]. rewrite (lower_alnum_id_char c Hc), IH. reflexivity.
  - destruct in_run; [apply IH|]. cbn [toLowerCase all_chars]. rewrite IH. reflexivity.
Qed.

Lemma lighthouseFinding_Some row f :
  lighthouseFinding H row = Some (Some f) ->
  failing_row row = true
  /\ f_gate f = lighthouse /\ f_severity f = high /\ f_files f = None
  /\ f_route f = Some (routePath H (row_url row))
  /\ exists metric,
       f_metric f = Some metric
       /\ f_id f = toLowerCase ("lh_" +:+ slug (routePath H (row_url row))
                                +:+ "_" +:+ slug metric).
Proof.
  unfold failing_row, row_url. intros Hf.
  apply lighthouseFinding_inv in Hf as (passed & url & assertion & -> & -> & _ & Hf).
  destruct (JS.truthy passed); [discriminate|].
  cbn zeta in Hf. inversion Hf; subst f; clear Hf. cbn.
  repeat split. eexists. split; reflexivity.
Qed.

Lemma lighthouseFinding_passed row :
  lighthouseFinding H row = Some None -> failing_row row = false.
Proof.
  unfold failing_row. intros Hf.
  apply lighthouseFinding_inv in Hf as (passed & url & assertion & -> & _ & _ & Hf).
  destruct (JS.truthy passed); [reflexivity | discriminate].
Qed.

Lemma lighthouseFindings_routes rows : forall fs,
  lighthouseFindings H rows = Some fs ->
  map f_route fs
  = map (fun row => Some (routePath H (row_url row))) (List.filter failing_row rows)
  /\ Forall (fun f => f_gate f = lighthouse /\ f_severity f = high /\ f_files f = None) fs.
Proof.
  induction rows as [|row rest IH]; intros fs Hfs; cbn [lighthouseFindings] in Hfs.
  - inversion Hfs; subst. split; [reflexivity | constructor].
  - destruct (lighthouseFinding H row) as [here|] eqn:Hrow; [|discriminate].
    destruct (lighthouseFindings H rest) as [more|]; [|discriminate].
    destruct (IH more eq_refl) as [Hroutes Hall].
    inversion Hfs; subst fs; clear Hfs. cbn [List.filter].
    destruct here as [f|].
    + apply lighthouseFinding_Some in Hrow
        as (Hfail & Hgate & Hsev & Hfiles & Hroute & _).
      rewrite Hfail. cbn [map]. rewrite Hroute, Hroutes. split; [reflexivity|].
      constructor; auto.
    + apply lighthouseFinding_passed in Hrow. rewrite Hrow. auto.
Qed.

End LighthouseFindings.

(** X2. parseLighthouseFindings (gates.js). Without the assertion-results file
    there is no finding. With it, there is one finding per assertion record
    that did not pass, in the order of the file, carrying the route of that
    record; records that passed yield nothing. Every finding is a
    lighthouse finding of severity high without files, and nothing on disk
    is changed. *)
Theorem X2_parseLighthouseFindings_one_per_failing_row
    {E} (H : Host E) (cwd : string) (st st' : State E) (fs : list Finding) :
  parseLighthouseFindings H cwd st = (Ret fs, st') ->
  st' = st
  /\ Forall (fun f => f_gate f = lighthouse /\ f_severity f = high /\ f_files f = None) fs
  /\ match tree st !! path_join H cwd ".lighthouseci/assertion-results.json" with
     | None => fs = []
     | Some text =>
         exists data rows,
           JSON_parse H text = Some data
           /\ iterate data = Some rows
           /\ map f_route fs
              = map (fun row => Some (routePath H (row_url row)))
                  (List.filter failing_row rows)
     end.
Proof.
  unfold parseLighthouseFindings, bind, readFile. intros Hrun.
  destruct (tree st !! path_join H cwd ".lighthouseci/assertion-results.json")
    as [text|].
  - destruct (JSON_parse H text) as [data|] eqn:Hdata; [|discriminate].
    destruct (iterate data) as [rows|] eqn:Hrows; [|discriminate].
    destruct (lighthouseFindings H rows) as [found|] eqn:Hfound; [|discriminate].
    inversion Hrun; subst. apply lighthouseFindings_routes in Hfound as [Hroutes Hall].
    split; [reflexivity|]. split; [exact Hall|].
    exists data, rows. split; [reflexivity|]. split; [exact Hrows | exact Hroutes].
  - destruct (isDirectory H _ _); [discriminate|].
    inversion Hrun; subst. split; [reflexivity|]. split; [constructor | reflexivity].
Qed.

(** X3. The id of a Lighthouse finding (gates.js) is built from the route and
    the metric with every run of other characters turned into one
    underscore, then lower-cased: it starts with lh_ and holds lower-case
    letters, digits and underscores only. *)
Theorem X3_lighthouse_finding_id_is_identifier
    {E} (H : Host E) (row : JS.value) (f : Finding) :
  lighthouseFinding H row = Some (Some f) ->
  startsWith "lh_" (f_id f) = true /\ all_chars id_char (f_id f) = true.
Proof.
  intros Hf. apply lighthouseFinding_Some in Hf as (_ & _ & _ & _ & _ & metric & _ & ->).
  rewrite !toLowerCase_app. split.
  { change (toLowerCase "lh_") with "lh_". apply startsWith_app. }
  rewrite !all_chars_app. unfold slug. rewrite !slug_from_id_chars. reflexivity.
Qed.

(* ===================================================================== *)
(** ** Decoding a model's answer *)
(* ===================================================================== *)

Section ParseJsonObject.
Context {E : Type} (H : Host E).

Lemma indexOf_from_app c a b : forall i,
  indexOf_from i c (a +:+ b)
  = match indexOf_from i c a with
    | Some j => Some j
    | None => indexOf_from (i + String.length a) c b
    end.
Proof.
  induction a as [|x a IH]; intros i.
  - change ("" +:+ b) with b. cbn. rewrite Nat.add_0_r. reflexivity.
  - change (String x a +:+ b) with (String x (a +:+ b)). cbn [indexOf_from String.length].
    destruct (Ascii.eqb c x); [reflexivity|].
    rewrite IH. replace (S i + String.length a)%nat with (i + S (String.length a))%nat by lia.
    reflexivity.
Qed.

Lemma lastIndexOf_from_app c a b : forall i,
  lastIndexOf_from i c (a +:+ b)
  = match lastIndexOf_from (i + String.length a) c b with
    | Some j => Some j
    | None => lastIndexOf_from i c a
    end.
Proof.
  induction a as [|x a IH]; intros i.
  - change ("" +:+ b) with b. cbn. rewrite Nat.add_0_r.
    destruct (lastIndexOf_from i c b); reflexivity.
  - change (String x a +:+ b) with (String x (a +:+ b)).
    cbn [lastIndexOf_from String.length]. rewrite IH.
    replace (S i + String.length a)%nat with (i + S (String.length a))%nat by lia.
    destruct (lastIndexOf_from (i + S (String.length a)) c b); reflexivity.
Qed.

Lemma substring_0_app a b : String.substring 0 (String.length a) (a +:+ b) = a.
Proof.
  induction a as [|x a IH]; [destruct b; reflexivity|].
  change (String x a +:+ b) with (String x (a +:+ b)). cbn. rewrite IH. reflexivity.
Qed.

Lemma substring_skip_app a b n :
  String.substring (String.length a) n (a +:+ b) = String.substring 0 n b.
Proof.
  induction a as [|x a IH]; [reflexivity|].
  change (String x a +:+ b) with (String x (a +:+ b)). cbn [String.length String.substring].
  exact IH.
Qed.

Lemma length_append a b :
  String.length (a +:+ b) = (String.length a + String.length b)%nat.
Proof.
  induction a as [|x a IH]; [reflexivity|].
  change (String x a +:+ b) with (String x (a +:+ b)). cbn. rewrite IH. reflexivity.
Qed.

Lemma append_assoc_s a b c : (a +:+ b) +:+ c = a +:+ (b +:+ c).
Proof.
  induction a as [|x a IH]; [reflexivity|].
  change (String x a +:+ b) with (String x (a +:+ b)).
  change (String x (a +:+ b) +:+ c) with (String x ((a +:+ b) +:+ c)).
  rewrite IH. reflexivity.
Qed.

Lemma lastIndexOf_from_None c s : forall i j,
  lastIndexOf_from i c s = None -> lastIndexOf_from j c s = None.
Proof.
  induction s as [|x s IH]; intros i j Hi; [reflexivity|].
  cbn [lastIndexOf_from] in *.
  destruct (lastIndexOf_from (S i) c s) eqn:Hrest; [discriminate|].
  rewrite (IH _ (S j) Hrest). destruct (Ascii.eqb c x); [discriminate | reflexivity].
Qed.

(** In [pre ++ obj ++ post], with no opening brace in [pre] and no closing
    brace in [post], the text from the first opening to the last closing
    brace is [obj], when [obj] starts with the one and ends with the other. *)
Lemma braces_span pre body post :
  indexOf_from 0 "{"%char pre = None ->
  lastIndexOf_from 0 "}"%char post = None ->
  let raw := pre +:+ "{" +:+ body +:+ "}" +:+ post in
  exists start stop,
    indexOf_from 0 "{"%char raw = Some start
    /\ lastIndexOf_from 0 "}"%char raw = Some stop
    /\ (stop <=? start)%nat = false
    /\ String.substring start (stop + 1 - start) raw = "{" +:+ body +:+ "}".
Proof.
  intros Hpre Hpost raw.
  exists (String.length pre), (String.length pre + S (String.length body))%nat.
  split; [|split; [|split]].
  - subst raw. rewrite indexOf_from_app, Hpre.
    change ("{" +:+ body +:+ "}" +:+ post) with (String "{" (body +:+ "}" +:+ post)).
    reflexivity.
  - assert (Hraw : raw = (pre +:+ "{" +:+ body) +:+ String "}" post).
    { subst raw. rewrite !append_assoc_s. reflexivity. }
    rewrite Hraw, lastIndexOf_from_app. cbn [lastIndexOf_from].
    rewrite (lastIndexOf_from_None _ _ _ _ Hpost).
    rewrite !length_append. reflexivity.
  - apply Nat.leb_gt. lia.
  - assert (Hraw : raw = pre +:+ ("{" +:+ body +:+ "}") +:+ post).
    { subst raw. rewrite !append_assoc_s. reflexivity. }
    rewrite Hraw.
    replace (String.length pre + S (String.length body) + 1 - String.length pre)%nat
      with (String.length ("{" +:+ body +:+ "}")).
    + rewrite substring_skip_app, substring_0_app. reflexivity.
    + rewrite !length_append. cbn. lia.
Qed.

End ParseJsonObject.

(** X4. parseJsonObject (model-adapter.js). When the trimmed answer of a model
    is not JSON as a whole but holds text between a first opening brace and
    a last closing brace, that text alone is decoded: prose before and
    after a JSON object is skipped (and the result is [null] when that text
    is not JSON either). *)
Theorem X4_parseJsonObject_skips_prose
    {E} (H : Host E) (text pre body post : string) :
  String_trim H text = pre +:+ "{" +:+ body +:+ "}" +:+ post ->
  indexOf_from 0 "{"%char pre = None ->
  lastIndexOf_from 0 "}"%char post = None ->
  JSON_parse H (String_trim H text) = None ->
  parseJsonObject H text = default JS.VNull (JSON_parse H ("{" +:+ body +:+ "}")).
Proof.
  intros Hraw Hpre Hpost Hwhole. unfold parseJsonObject. rewrite Hwhole, Hraw.
  destruct (braces_span pre body post Hpre Hpost) as (start & stop & -> & -> & -> & ->).
  destruct (String.eqb _ "") eqn:Hempty.
  - apply String.eqb_eq in Hempty. apply (f_equal String.length) in Hempty.
    rewrite !length_append in Hempty. cbn in Hempty. lia.
  - destruct (JSON_parse H ("{" +:+ body +:+ "}")); reflexivity.
Qed.

Section EditPlans.
Context {E : Type} (H : Host E) (cwd : string).

Lemma normalizeEdits_spec es : forall edits',
  normalizeEdits H es = Some edits' ->
  Forall (fun e => file e <> "") edits' /\ (length edits' <= length es)%nat.
Proof.
  induction es as [|e rest IH]; intros edits' Hes; cbn [normalizeEdits] in Hes.
  - inversion Hes; subst. split; [constructor | reflexivity].
  - destruct (normalizeEdit H e) as [[[[f s] t] r]|]; [|discriminate].
    destruct (normalizeEdits H rest) as [more|];
      [| destruct s, t; discriminate].
    destruct (IH more eq_refl) as [Hfiles Hlen].
    assert (Hskip : edits' = more -> Forall (fun e => file e <> "") edits'
                                     /\ (length edits' <= length (e :: rest))%nat).
    { intros ->. split; [exact Hfiles | cbn; lia]. }
    destruct s as [|s]; [apply Hskip; congruence|].
    destruct t as [|t]; [apply Hskip; congruence|].
    destruct (String.eqb f "") eqn:Hf; [apply Hskip; congruence|].
    inversion Hes; subst edits'; clear Hes. split.
    + constructor; [|exact Hfiles]. cbn. intros ->. discriminate Hf.
    + cbn. lia.
Qed.

Lemma normalizeEditPlan_Some payload plan :
  normalizeEditPlan H payload = Some (Some plan) ->
  edits plan <> []
  /\ Forall (fun e => file e <> "") (edits plan)
  /\ exists es, JS.prop payload "edits" = Some (JS.VArr es)
                /\ (length (edits plan) <= length es)%nat.
Proof.
  unfold normalizeEditPlan. destruct payload; try discriminate.
  destruct (JS.prop (JS.VObj fields) "edits") as [[| | | | |es|]|]; try discriminate.
  all: destruct (JS.prop (JS.VObj fields) "summary") as [sm|]; try discriminate.
  destruct (normalizeEdits H es) as [[|e edits']|] eqn:Hes; try discriminate.
  destruct (String_of H _) as [sm'|]; [|discriminate].
  intros Hplan. inversion Hplan; subst plan; clear Hplan. cbn [edits].
  apply normalizeEdits_spec in Hes as [Hfiles Hlen].
  split; [discriminate|]. split; [exact Hfiles|]. exists es. auto.
Qed.

(** What sanitizePlanPaths does to one edit that it keeps. *)
Definition sanitized (e e' : Edit) : Prop :=
  start_line e' = start_line e /\ end_line e' = end_line e
  /\ replacement e' = replacement e
  /\ file e' = if isAbsolute (file e) then path_relative H cwd (file e) else file e.

(** An absolute path that does not lie under the working directory. *)
Definition escapes (e : Edit) : Prop :=
  isAbsolute (file e) = true /\ startsWith (cwd +:+ "/") (file e) = false.

Lemma sanitizeEdits_spec es :
  match sanitizeEdits H cwd es with
  | Some es' => Forall2 sanitized es es' /\ Forall (fun e => ~ escapes e) es
  | None => Exists escapes es
  end.
Proof.
  induction es as [|e rest IH]; cbn [sanitizeEdits].
  - split; constructor.
  - destruct (isAbsolute (file e)) eqn:Habs.
    + destruct (startsWith (cwd +:+ "/") (file e)) eqn:Hunder.
      * destruct (sanitizeEdits H cwd rest) as [more|].
        -- destruct IH as [Hall Hnone]. split.
           ++ constructor; [|exact Hall]. unfold sanitized. cbn. rewrite Habs. auto.
           ++ constructor; [|exact Hnone]. intros [_ Hout]. congruence.
        -- apply Exists_cons_tl. exact IH.
      * apply Exists_cons_hd. split; assumption.
    + destruct (sanitizeEdits H cwd rest) as [more|].
      * destruct IH as [Hall Hnone]. split.
        -- constructor; [|exact Hall]. unfold sanitized. rewrite Habs. auto.
        -- constructor; [|exact Hnone]. intros [Hin _]. congruence.
      * apply Exists_cons_tl. exact IH.
Qed.

End EditPlans.

(** X5. normalizeEditPlan (model-adapter.js). A plan that comes out of the
    normalisation has at least one edit, every edit names a file (the
    entries without a file name or with a line number that is not an
    integer were dropped), and it has at most as many edits as the decoded
    answer had entries. *)
Theorem X5_normalizeEditPlan_keeps_usable_edits
    {E} (H : Host E) (payload : JS.value) (plan : EditPlan) :
  normalizeEditPlan H payload = Some (Some plan) ->
  edits plan <> []
  /\ Forall (fun e => file e <> "") (edits plan)
  /\ exists es, JS.prop payload "edits" = Some (JS.VArr es)
                /\ (length (edits plan) <= length es)%nat.
Proof. apply normalizeEditPlan_Some. Qed.

(** X6. sanitizePlanPaths (model-adapter.js). The plan is refused (the source's
    [null]) exactly when one of its edits names an absolute path outside
    the working directory. Otherwise every edit is kept, in order, with its
    line range and replacement; a relative path is kept as it is, an
    absolute path under the working directory is made relative to it. *)
Theorem X6_sanitizePlanPaths_spec
    {E} (H : Host E) (cwd : string) (plan : EditPlan) :
  match sanitizePlanPaths H cwd plan with
  | Some plan' =>
      summary plan' = summary plan
      /\ Forall2 (sanitized H cwd) (edits plan) (edits plan')
      /\ Forall (fun e => ~ escapes cwd e) (edits plan)
  | None => Exists (escapes cwd) (edits plan)
  end.
Proof.
  unfold sanitizePlanPaths. pose proof (sanitizeEdits_spec H cwd (edits plan)) as Hes.
  destruct (sanitizeEdits H cwd (edits plan)) as [es'|]; [|exact Hes].
  destruct Hes as [Hall Hnone]. cbn. auto.
Qed.

(* ===================================================================== *)
(** ** The files a patch may touch *)
(* ===================================================================== *)

(** The changed files followed by the files of every finding: what
    gatherFailureContext and inScopeFiles walk through. *)
Definition candidate_files (failures : FailuresReport) : list string :=
  changed_files failures
  ++ concat (map (fun f => default [] (f_files f)) (findings failures)).

Section AllowedFiles.

Lemma elem_of_pushFile acc f x :
  x ∈ pushFile acc f <-> x ∈ acc \/ (x = f /\ f <> "").
Proof.
  unfold pushFile. destruct (String.eqb f "") eqn:Hf; cbn [orb].
  - apply String.eqb_eq in Hf. split; [auto | intros [Hx | [_ Hne]]; [exact Hx | congruence]].
  - assert (Hne : f <> "") by (intros ->; discriminate Hf).
    case_bool_decide as Hin.
    + split; [auto | intros [Hx | [-> _]]; assumption].
    + rewrite elem_of_app, list_elem_of_singleton. split.
      * intros [Hx | ->]; auto.
      * intros [Hx | [-> _]]; auto.
Qed.

Lemma NoDup_pushFile acc f : NoDup acc -> NoDup (pushFile acc f).
Proof.
  intros Hacc. unfold pushFile. destruct (String.eqb f ""); cbn [orb]; [exact Hacc|].
  case_bool_decide as Hin; [exact Hacc|].
  apply NoDup_app. split; [exact Hacc|]. split.
  - intros x Hx Hx'. apply list_elem_of_singleton in Hx'. subst x. exact (Hin Hx).
  - apply NoDup_singleton.
Qed.

Lemma foldl_pushFile_spec xs : forall acc,
  NoDup acc ->
  NoDup (foldl pushFile acc xs)
  /\ (forall x, x ∈ foldl pushFile acc xs <-> x ∈ acc \/ (x ∈ xs /\ x <> ""))
  /\ exists more, foldl pushFile acc xs = acc ++ more.
Proof.
  induction xs as [|f rest IH]; intros acc Hacc; cbn [foldl].
  - split; [exact Hacc|]. split.
    + intros x. split; [auto | intros [Hx | [Hx _]]; [exact Hx | inversion Hx]].
    + exists []. rewrite app_nil_r. reflexivity.
  - destruct (IH (pushFile acc f) (NoDup_pushFile acc f Hacc)) as (Hnodup & Hmem & more & Hmore).
    split; [exact Hnodup|]. split.
    + intros x. rewrite Hmem, elem_of_pushFile, elem_of_cons. split.
      * intros [[Hx | [-> Hne]] | [Hx Hne]]; auto.
      * intros [Hx | [[-> | Hx] Hne]]; auto.
    + rewrite Hmore. unfold pushFile.
      destruct (String.eqb f "" || bool_decide (f ∈ acc)); [eauto|].
      exists ([f] ++ more). rewrite app_assoc. reflexivity.
Qed.

Lemma preferredFiles_spec failures :
  NoDup (preferredFiles failures)
  /\ forall x, x ∈ preferredFiles failures <-> x ∈ candidate_files failures /\ x <> "".
Proof.
  unfold preferredFiles.
  destruct (foldl_pushFile_spec (candidate_files failures) [] (NoDup_nil_2))
    as (Hnodup & Hmem & _).
  split; [exact Hnodup|]. intros x. rewrite (Hmem x). split.
  - intros [Hx | Hx]; [inversion Hx | exact Hx].
  - auto.
Qed.

Lemma allowed_files_candidates failures x :
  x ∈ allowed_files failures -> x ∈ candidate_files failures /\ x <> "".
Proof.
  unfold allowed_files. intros Hx. apply preferredFiles_spec.
  eapply (subseteq_take 12). exact Hx.
Qed.

End AllowedFiles.

(** X7. gatherFailureContext (model-adapter.js), allowed_files. The files a
    patch may touch are at most twelve, all different, none of them the
    empty path; each is a changed file or a file of a finding; and when
    there are no more than twelve such files, every one of them is
    allowed. *)
Theorem X7_allowed_files_spec (failures : FailuresReport) :
  NoDup (allowed_files failures)
  /\ (length (allowed_files failures) <= 12)%nat
  /\ (forall f, f ∈ allowed_files failures -> f ∈ candidate_files failures /\ f <> "")
  /\ ((length (preferredFiles failures) <= 12)%nat ->
      forall f, f ∈ candidate_files failures -> f <> "" -> f ∈ allowed_files failures).
Proof.
  destruct (preferredFiles_spec failures) as [Hnodup Hmem].
  split; [|split; [|split]].
  - unfold allowed_files.
    rewrite <- (take_drop 12 (preferredFiles failures)) in Hnodup.
    apply NoDup_app in Hnodup. apply Hnodup.
  - unfold allowed_files. rewrite length_take. lia.
  - apply allowed_files_candidates.
  - intros Hfew f Hf Hne. unfold allowed_files. rewrite take_ge by exact Hfew.
    apply Hmem. auto.
Qed.

(* ===================================================================== *)
(** ** The score of a plan inside the scope *)
(* ===================================================================== *)

Section Score.
Context {E : Type} (H : Host E) (cwd : string).

Lemma dedup_strings_spec xs : forall seen,
  NoDup (dedup_strings seen xs)
  /\ forall x, x ∈ dedup_strings seen xs <-> x ∈ xs /\ x ∉ seen.
Proof.
  induction xs as [|y rest IH]; intros seen; cbn [dedup_strings].
  - split; [constructor|]. intros x. split; [intros Hx; inversion Hx | intros [Hx _]; inversion Hx].
  - case_bool_decide as Hseen.
    + destruct (IH seen) as [Hnodup Hmem]. split; [exact Hnodup|].
      intros x. rewrite Hmem, elem_of_cons. split; [intros [Hx Hn]; auto|].
      intros [[-> | Hx] Hn]; [contradiction | auto].
    + destruct (IH (y :: seen)) as [Hnodup Hmem]. split.
      * constructor; [|exact Hnodup]. rewrite Hmem. intros [_ Hn]. apply Hn. left.
      * intros x. rewrite !elem_of_cons, Hmem, not_elem_of_cons. split.
        -- intros [-> | [Hx [Hne Hn]]]; auto.
        -- intros [[-> | Hx] Hn]; [auto|].
           destruct (decide (x = y)) as [-> | Hne]; auto.
Qed.

Lemma dedup_strings_nonempty x xs : dedup_strings [] (x :: xs) <> [].
Proof.
  cbn [dedup_strings]. case_bool_decide as Hin; [inversion Hin | discriminate].
Qed.

Lemma filter_all {A} (P : A -> Prop) `{forall x, Decision (P x)} (l : list A) :
  Forall P l -> filter P l = l.
Proof.
  induction 1 as [|x l Hx _ IH]; [reflexivity|].
  rewrite filter_cons_True by exact Hx. rewrite IH. reflexivity.
Qed.

(** Inside the scope every touched file overlaps the failure context: the
    score is 0.7 for the overlap plus 0.3 when the plan is within budget. *)
Lemma score_in_scope plan failures maxPatchLines :
  in_scope failures plan -> edits plan <> [] ->
  score100 (scoreEditPlan (edits plan) failures maxPatchLines)
  = 70 + 30 * (if JS.le (JS.Int (predictedLines
                                    (scoreEditPlan (edits plan) failures maxPatchLines)))
                    maxPatchLines then 1 else 0).
Proof.
  unfold in_scope. intros Hin Hne. cbn [scoreEditPlan score100 predictedLines].
  set (touched := dedup_strings [] (map file (edits plan))).
  assert (Hall : Forall (fun f => f ∈ changed_files failures
                   \/ f ∈ concat (map (fun f0 => default [] (f_files f0)) (findings failures)))
                   touched).
  { apply Forall_forall. intros f Hf. subst touched.
    apply dedup_strings_spec in Hf as [Hf _].
    apply list_elem_of_fmap in Hf as (e & -> & He).
    rewrite Forall_forall in Hin. apply Hin in He.
    apply allowed_files_candidates in He as [He _].
    unfold candidate_files in He. apply elem_of_app in He. exact He. }
  rewrite (filter_all _ _ Hall).
  assert (Hpos : 0 < Z.of_nat (length touched)).
  { subst touched. destruct (edits plan) as [|e rest]; [congruence|]. cbn [map].
    pose proof (dedup_strings_nonempty (file e) (map file rest)) as Hd.
    destruct (dedup_strings [] (file e :: map file rest)); [congruence | cbn; lia]. }
  replace (Z.of_nat (length touched) =? 0) with false by lia.
  f_equal. symmetry. apply Z.div_unique with (r := Z.of_nat (length touched)); lia.
Qed.

Lemma sanitizePlanPaths_nonempty plan plan' :
  sanitizePlanPaths H cwd plan = Some plan' -> edits plan <> [] -> edits plan' <> [].
Proof.
  unfold sanitizePlanPaths. intros Hs Hne.
  pose proof (sanitizeEdits_spec H cwd (edits plan)) as Hspec.
  destruct (sanitizeEdits H cwd (edits plan)) as [es'|]; [|discriminate].
  inversion Hs; subst plan'; clear Hs. cbn [edits]. destruct Hspec as [Hall _].
  intros Hnil. rewrite Hnil in Hall. inversion Hall; subst. congruence.
Qed.

Lemma planOfOutput_nonempty output st plan st' :
  planOfOutput H cwd output st = (Ret (Some plan), st') -> edits plan <> [].
Proof.
  unfold planOfOutput.
  destruct (normalizeEditPlan H (parseJsonObject H output)) as [[base|]|] eqn:Hnorm;
    intros Hrun; try discriminate.
  apply ret_inv in Hrun as [Hret _].
  assert (Hs : sanitizePlanPaths H cwd base = Some plan) by congruence.
  apply normalizeEditPlan_Some in Hnorm as (Hne & _).
  eapply sanitizePlanPaths_nonempty; eassumption.
Qed.

Lemma requestPlan_nonempty failures policy st plan st' :
  requestPlan H cwd failures policy st = (Ret (inr plan), st') -> edits plan <> [].
Proof.
  unfold requestPlan. intros Hrun.
  destruct (bool_decide _); [discriminate|].
  apply bind_ret_inv in Hrun as (fileContext & st0 & _ & Hrun).
  apply bind_ret_inv in Hrun as (response & st1 & _ & Hrun).
  destruct response as [reason | output]; [discriminate|].
  apply bind_ret_inv in Hrun as (plan1 & st2 & Hplan1 & Hrun).
  destruct plan1 as [p|].
  - apply ret_inv in Hrun as [Hret ->]. inversion Hret; subst p.
    eapply planOfOutput_nonempty. exact Hplan1.
  - apply bind_ret_inv in Hrun as (response' & st3 & _ & Hrun).
    destruct response' as [reason | output']; [discriminate|].
    apply bind_ret_inv in Hrun as (plan2 & st4 & Hplan2 & Hrun).
    destruct plan2 as [p|]; [|discriminate].
    apply ret_inv in Hrun as [Hret ->]. inversion Hret; subst p.
    eapply planOfOutput_nonempty. exact Hplan2.
Qed.

End Score.

(** X8. runPatchModel (model-adapter.js), the score check. A plan that has
    passed the scope check touches allowed files only, and these all belong
    to the failure context, so its overlap ratio is 1 and its score at
    least 0.7: runPatchModel never returns diff_score_too_low, and an
    accepted patch always carries the score 1 (0.7 when maxPatchLines is
    not a number, for which the budget check lets every plan through). *)
Theorem X8_runPatchModel_score_never_too_low
    {E} (H : Host E) (cwd : string) (failures : FailuresReport)
    (policy : ModelPolicy) (maxPatchLines : JS.num) (st st' : State E) (r : PatchResult) :
  runPatchModel H cwd failures policy maxPatchLines st = (Ret r, st') ->
  patch_reason r <> Some "diff_score_too_low"
  /\ forall sc lines touched plan,
       r = PatchAccepted sc lines touched plan ->
       sc = 100 \/ (sc = 70 /\ maxPatchLines = JS.NaN).
Proof.
  unfold runPatchModel. intros Hrun.
  apply bind_ret_inv in Hrun as ([] & st0 & _ & Hrun).
  apply bind_ret_inv in Hrun as (got & st1 & Hgot & Hrun).
  destruct got as [early | plan].
  { apply ret_inv in Hrun as [Hr _]. inversion Hr; subst r.
    unfold requestPlan in Hgot.
    assert (Hearly : patch_reason early <> Some "diff_score_too_low"
                     /\ patch_accepted early = false).
    { repeat (first [ minv Hgot | progress cbn ]);
        try (split; [discriminate | reflexivity]).
      all: destruct reason; split; (discriminate || reflexivity). }
    destruct Hearly as [Hreason Hacc]. split; [exact Hreason|].
    intros sc lines touched plan ->. discriminate Hacc. }
  pose proof (requestPlan_nonempty H cwd _ _ _ _ _ Hgot) as Hne.
  unfold checkAndApplyPlan in Hrun.
  destruct (0 <? Z.of_nat (length (filter (fun f => f ∉ allowed_files failures)
                                     (map file (edits plan))))) eqn:Hscope.
  { apply ret_inv in Hrun as [Hr _]. inversion Hr; subst r.
    split; [discriminate | intros ? ? ? ?; discriminate]. }
  assert (Hin : in_scope failures plan).
  { destruct (decide (in_scope failures plan)) as [Hin | Hnot]; [exact Hin|].
    rewrite (out_of_scope_nonempty _ _ Hnot) in Hscope. discriminate. }
  rewrite (score_in_scope plan failures maxPatchLines Hin Hne) in Hrun.
  destruct (JS.gt _ maxPatchLines) eqn:Hbudget.
  { apply ret_inv in Hrun as [Hr _]. inversion Hr; subst r.
    split; [discriminate | intros ? ? ? ?; discriminate]. }
  set (predicted := predictedLines (scoreEditPlan (edits plan) failures maxPatchLines)) in *.
  destruct (JS.le (JS.Int predicted) maxPatchLines) eqn:Hle.
  - change (70 + 30 * 1 <? 50) with false in Hrun. cbv iota in Hrun.
    apply bind_ret_inv in Hrun as (applied & st2 & _ & Hrun).
    destruct applied; apply ret_inv in Hrun as [Hr _]; inversion Hr; subst r.
    + split; [discriminate | intros ? ? ? ?; discriminate].
    + split; [discriminate|]. intros sc lines touched p Heq. inversion Heq. left. reflexivity.
  - change (70 + 30 * 0 <? 50) with false in Hrun. cbv iota in Hrun.
    apply bind_ret_inv in Hrun as (applied & st2 & _ & Hrun).
    destruct applied; apply ret_inv in Hrun as [Hr _]; inversion Hr; subst r.
    + split; [discriminate | intros ? ? ? ?; discriminate].
    + split; [discriminate|]. intros sc lines touched p Heq. inversion Heq. right.
      split; [reflexivity|].
      destruct maxPatchLines as [|m]; [reflexivity|].
      unfold JS.gt in Hbudget. unfold JS.le in Hle. lia.
Qed.

(* ===================================================================== *)
(** ** The files an applied plan reports, and a plan that fails half-way *)
(* ===================================================================== *)

Section Applier.
Context {E : Type} (H : Host E) (cwd : string).

(** Adding the files of the edits to an insertion-ordered set appends their
    first occurrences. *)
Lemma foldl_set_add_dedup xs : forall acc seen,
  (forall x, x ∈ seen <-> x ∈ acc) ->
  foldl set_add acc xs = acc ++ dedup_strings seen xs.
Proof.
  induction xs as [|y rest IH]; intros acc seen Hsame; cbn [foldl dedup_strings].
  - rewrite app_nil_r. reflexivity.
  - unfold set_add at 2. case_bool_decide as Hacc; case_bool_decide as Hseen.
    + apply IH. exact Hsame.
    + exfalso. apply Hseen, Hsame. exact Hacc.
    + exfalso. apply Hacc, Hsame. exact Hseen.
    + rewrite (IH (acc ++ [y]) (y :: seen)).
      * rewrite <- app_assoc. reflexivity.
      * intros x. rewrite elem_of_cons, elem_of_app, list_elem_of_singleton, Hsame. tauto.
Qed.

Lemma applyEdits_touched es : forall touched st r st',
  applyEdits H cwd es touched st = (Ret (inr r), st') ->
  r = foldl set_add touched (map file es).
Proof.
  induction es as [|e rest IH]; intros touched st r st' Hrun.
  - cbn in Hrun. inversion Hrun. reflexivity.
  - apply applyEdits_cons_ok in Hrun as (text & updated & _ & _ & Hrun).
    apply IH in Hrun. exact Hrun.
Qed.

(** Applying a plan in two parts. *)
Lemma applyEdits_app es1 es2 : forall touched st,
  applyEdits H cwd (es1 ++ es2) touched st
  = match applyEdits H cwd es1 touched st with
    | (Ret (inr t), st1) => applyEdits H cwd es2 t st1
    | other => other
    end.
Proof.
  induction es1 as [|e rest IH]; intros touched st; [reflexivity|].
  cbn [app applyEdits]. unfold bind, readFile.
  destruct (tree st !! path_join H cwd (file e)) as [text|];
    [|destruct (isDirectory H _ _); reflexivity].
  destruct (spliceLines text e) as [updated|]; [|reflexivity].
  cbn [writeFile]. apply IH.
Qed.

End Applier.

(** X9. applyEditPlan and scoreEditPlan (model-adapter.js). The touched_files
    that a successful application reports are the files of the edits, each
    once, in the order of their first edit: the same list as the
    touchedFiles of the scoring. *)
Theorem X9_applyEditPlan_touched_files
    {E} (H : Host E) (cwd : string) (plan : EditPlan) (failures : FailuresReport)
    (maxPatchLines : JS.num) (st st' : State E) (touched : list string) :
  applyEditPlan H cwd plan st = (Ret (inr touched), st') ->
  touched = touchedFiles (scoreEditPlan (edits plan) failures maxPatchLines)
  /\ NoDup touched.
Proof.
  unfold applyEditPlan. intros Hrun. apply applyEdits_touched in Hrun.
  rewrite (foldl_set_add_dedup _ [] []) in Hrun by reflexivity.
  subst touched. cbn [app scoreEditPlan touchedFiles].
  split; [reflexivity | apply dedup_strings_spec].
Qed.

(** X10. applyEditPlan (model-adapter.js) is not atomic. When the edits before
    [e] apply and [e] then names a path that does not exist, or a line
    range outside its file, the plan fails with that reason; when [e] names
    a directory, reading it throws. In each case the edits after [e] are
    not looked at, and the files are left as the edits before [e] wrote
    them. *)
Theorem X10_applyEditPlan_stops_at_first_failure
    {E} (H : Host E) (cwd : string) (sm sm' : string) (before after : list Edit)
    (e : Edit) (st st1 : State E) (touched : list string) :
  applyEditPlan H cwd {| summary := sm; edits := before |} st = (Ret (inr touched), st1) ->
  match tree st1 !! path_join H cwd (file e) with
  | None =>
      applyEditPlan H cwd {| summary := sm'; edits := before ++ e :: after |} st
      = if isDirectory H (world st1) (path_join H cwd (file e))
        then (Throw EISDIR, st1)
        else (Ret (inl (missing_file (file e))), st1)
  | Some text =>
      spliceLines text e = None ->
      applyEditPlan H cwd {| summary := sm'; edits := before ++ e :: after |} st
      = (Ret (inl (invalid_line_range (file e) (start_line e) (end_line e))), st1)
  end.
Proof.
  unfold applyEditPlan. cbn [edits]. intros Hbefore.
  rewrite applyEdits_app, Hbefore. cbn [applyEdits]. unfold bind, readFile.
  destruct (tree st1 !! path_join H cwd (file e)) as [text|];
    [|destruct (isDirectory H _ _); reflexivity].
  intros ->. reflexivity.
Qed.
(* ===================================================================== *)
(** ** Measuring a patch against the version-control baseline *)
(* ===================================================================== *)

Section PatchLines.

Lemma sum_abs_nonneg {A} (g : A -> Z) (l : list A) :
  0 <= foldr (fun f total => total + Z.abs (g f)) 0 l.
Proof. induction l as [|x l IH]; cbn [foldr]; lia. Qed.

Lemma sum_abs_zero {A} (g : A -> Z) (l : list A) :
  foldr (fun f total => total + Z.abs (g f)) 0 l = 0 <-> Forall (fun f => g f = 0) l.
Proof.
  induction l as [|x l IH]; cbn [foldr].
  - split; [constructor | reflexivity].
  - pose proof (sum_abs_nonneg g l) as Hpos. rewrite Forall_cons. split.
    + intros Hsum. split; [lia | apply IH; lia].
    + intros [Hx Hl]. apply IH in Hl. lia.
Qed.

Lemma sum_abs_ext {A} (g g' : A -> Z) (l : list A) :
  (forall f, Z.abs (g f) = Z.abs (g' f)) ->
  foldr (fun f total => total + Z.abs (g f)) 0 l
  = foldr (fun f total => total + Z.abs (g' f)) 0 l.
Proof.
  intros Hext. induction l as [|x l IH]; cbn [foldr]; [reflexivity|].
  rewrite IH, Hext. reflexivity.
Qed.

End PatchLines.

(** X11. computePatchLines (repair-command.js). The size of a patch, measured
    between two snapshots of the diff, is never negative, is the same in
    both directions, and is zero exactly when the two snapshots give every
    file the same count (a file that a snapshot does not list counting
    as 0). *)
Theorem X11_computePatchLines_distance (beforeMap afterMap : gmap string Z) :
  0 <= computePatchLines beforeMap afterMap
  /\ computePatchLines beforeMap afterMap = computePatchLines afterMap beforeMap
  /\ (computePatchLines beforeMap afterMap = 0 <->
      forall f, default 0 (afterMap !! f) = default 0 (beforeMap !! f)).
Proof.
  unfold computePatchLines. split; [|split].
  - apply (sum_abs_nonneg
             (fun f => default 0 (afterMap !! f) - default 0 (beforeMap !! f))).
  - rewrite (union_comm_L (dom afterMap)).
    apply (sum_abs_ext
             (fun f => default 0 (afterMap !! f) - default 0 (beforeMap !! f))
             (fun f => default 0 (beforeMap !! f) - default 0 (afterMap !! f))).
    intros f. lia.
  - rewrite (sum_abs_zero
               (fun f => default 0 (afterMap !! f) - default 0 (beforeMap !! f))).
    rewrite Forall_forall. split.
    + intros Hall f.
      destruct (decide (f ∈ dom beforeMap ∪ dom afterMap)) as [Hin | Hout].
      * apply elem_of_elements in Hin. specialize (Hall f Hin). cbn in Hall. lia.
      * apply not_elem_of_union in Hout as [Hb Ha].
        apply not_elem_of_dom in Hb, Ha. rewrite Hb, Ha. reflexivity.
    + intros Hsame f _. cbn. rewrite (Hsame f). lia.
Qed.

(** A text without tabulation. *)
Definition no_tab (s : string) : Prop := all_chars (fun c => negb (is_tab c)) s = true.

Definition tab : string := String (ascii_of_nat 9) EmptyString.

Section Numstat.
Context {E : Type} (H : Host E).

Lemma split_tabs_from_single s : forall in_tabs,
  no_tab s -> split_tabs_from in_tabs s = [s].
Proof.
  unfold no_tab. induction s as [|c s IH]; intros in_tabs Hs; [reflexivity|].
  cbn [all_chars] in Hs. apply andb_true_iff in Hs as [Hc Hs].
  cbn [split_tabs_from]. apply negb_true_iff in Hc. rewrite Hc.
  rewrite (IH false Hs). reflexivity.
Qed.

Lemma split_tabs_from_column s rest :
  no_tab s ->
  split_tabs_from false (s +:+ String (ascii_of_nat 9) rest)
  = s :: split_tabs_from true rest.
Proof.
  unfold no_tab. induction s as [|c s IH]; intros Hs.
  - reflexivity.
  - cbn [all_chars] in Hs. apply andb_true_iff in Hs as [Hc Hs].
    change (String c s +:+ String (ascii_of_nat 9) rest)
      with (String c (s +:+ String (ascii_of_nat 9) rest)).
    cbn [split_tabs_from]. apply negb_true_iff in Hc. rewrite Hc.
    rewrite (IH Hs). reflexivity.
Qed.

(** After a run of tabs, a column that is not empty starts a new entry. *)
Lemma split_tabs_from_after_tabs s rest :
  no_tab s -> s <> "" ->
  split_tabs_from true (s +:+ rest) = split_tabs_from false (s +:+ rest).
Proof.
  unfold no_tab. destruct s as [|c s]; intros Hs Hne; [congruence|].
  cbn [all_chars] in Hs. apply andb_true_iff in Hs as [Hc Hs].
  change (String c s +:+ rest) with (String c (s +:+ rest)).
  cbn [split_tabs_from]. apply negb_true_iff in Hc. rewrite Hc. reflexivity.
Qed.

End Numstat.

(** X12. diffSnapshot (repair-command.js), one row of the numstat output. A row
    made of the added count, the removed count and the file name, with
    tabs between them, sets the entry of that file to added plus removed,
    a count that is not a number (the dash of a binary file) counting as 0.
    A row without tab is skipped. *)
Theorem X12_numstat_row_counts
    {E} (H : Host E) (map : gmap string Z) (added removed f : string) :
  no_tab added -> no_tab removed -> no_tab f -> removed <> "" ->
  numstat_row H map (added +:+ tab +:+ removed +:+ tab +:+ f)
  = <[f := finite_or_zero (StringToNumber H added)
           + finite_or_zero (StringToNumber H removed)]> map
  /\ forall row, no_tab row -> numstat_row H map row = map.
Proof.
  intros Hadded Hremoved Hf Hne. split.
  - unfold numstat_row, split_tabs, tab.
    change (added +:+ String (ascii_of_nat 9) "" +:+ removed
            +:+ String (ascii_of_nat 9) "" +:+ f)
      with (added +:+ String (ascii_of_nat 9) (removed +:+ String (ascii_of_nat 9) f)).
    rewrite (split_tabs_from_column _ _ Hadded).
    rewrite (split_tabs_from_after_tabs _ _ Hremoved Hne).
    rewrite (split_tabs_from_column _ _ Hremoved).
    rewrite (split_tabs_from_single _ _ Hf). reflexivity.
  - intros row Hrow. unfold numstat_row, split_tabs.
    rewrite (split_tabs_from_single _ _ Hrow). reflexivity.
Qed.

(* ===================================================================== *)
(** ** The deterministic pre-fixer *)
(* ===================================================================== *)

(** What every file handed to the linter satisfies. *)
Definition lintable {E} (H : Host E) (failures : FailuresReport) (f : string) : Prop :=
  f ∈ candidate_files failures
  /\ startsWith "." f = false
  /\ isAbsolute f = false
  /\ includes ".." f = false
  /\ includes "node_modules" f = false
  /\ path_extname H f <> ""
  /\ isEligibleFile f = true.

Section PreFix.
Context {E : Type} (H : Host E).

Lemma inScopeFiles_candidates failures f :
  f ∈ inScopeFiles failures -> f ∈ candidate_files failures.
Proof.
  unfold inScopeFiles.
  destruct (foldl_pushFile_spec (candidate_files failures) [] (NoDup_nil_2))
    as (_ & Hmem & _).
  intros Hf. apply Hmem in Hf as [Hf | [Hf _]]; [inversion Hf | exact Hf].
Qed.

Lemma scopedFiles_lintable failures :
  Forall (lintable H failures) (scopedFiles H failures)
  /\ (length (scopedFiles H failures) <= 20)%nat.
Proof.
  unfold scopedFiles. split; [|rewrite length_take; lia].
  apply Forall_take. apply Forall_forall. intros f Hf.
  apply list_elem_of_In, filter_In in Hf as [Hin Hok].
  apply list_elem_of_In, inScopeFiles_candidates in Hin.
  repeat (apply andb_true_iff in Hok as [Hok ?]).
  unfold lintable. repeat split; try (apply negb_true_iff; assumption); try assumption.
  intros Hext. rewrite Hext in *. discriminate.
Qed.

End PreFix.


(* ===================================================================== *)
(** ** fs-utils.js: the list of changed files *)
(* ===================================================================== *)

Inductive ChangedFilesError : Type :=
| ChangedFilesMissing
| ChangedFilesIsDirectory
| ChangedFilesNotJson
| ChangedFilesNotArray
| ChangedFilesNotText.

(** fs-utils.js, loadChangedFiles: a JSON array, or one path per line. The
    file is read at the resolved path the command line gives; the errors are
    those of reading (no such file, a directory), of [JSON.parse], the one
    the function throws itself, and the TypeError of [String] on an entry
    that does not convert. *)
Definition loadChangedFiles {E} (H : Host E) (changedFilesPath : string) (st : State E)
  : ChangedFilesError + list string :=
  match tree st !! changedFilesPath with
  | None =>
      inl (if isDirectory H (world st) changedFilesPath then ChangedFilesIsDirectory
           else ChangedFilesMissing)
  | Some text =>
      let raw := String_trim H text in
      if String.eqb raw "" then inr []
      else if startsWith "[" raw then
        match JSON_parse H raw with
        | None => inl ChangedFilesNotJson
        | Some (JS.VArr parsed) =>
            if forallb JS.converts parsed then inr (map (ToString H) parsed)
            else inl ChangedFilesNotText
        | Some _ => inl ChangedFilesNotArray
        end
      else
        inr (List.filter (fun line => negb (String.eqb line ""))
               (map (String_trim H) (Text.split_lines raw)))
  end.

Section ChangedFiles.
Context {E : Type} (H : Host E).

Lemma all_chars_no_cr s :
  Text.no_cr s -> all_chars (fun c => negb (Text.is_cr c)) s = true.
Proof.
  unfold Text.no_cr. induction s as [|c s IH]; [reflexivity|].
  cbn [Text.count_cr all_chars]. destruct (Text.is_cr c); [discriminate|].
  intros Hs. apply IH. exact Hs.
Qed.

(** A line without line feed or carriage return, followed by a line feed,
    is split off as it is. *)
Lemma split_lines_line x s :
  Text.no_lf x -> Text.no_cr x ->
  Text.split_lines (x +:+ String Text.LF s) = x :: Text.split_lines s.
Proof.
  unfold Text.no_lf, Text.no_cr. induction x as [|c x IH]; intros Hlf Hcr.
  - reflexivity.
  - cbn [Text.count_lf Text.count_cr] in Hlf, Hcr.
    destruct (Text.is_lf c) eqn:Hc; [discriminate|].
    destruct (Text.is_cr c) eqn:Hc'; [discriminate|].
    change (String c x +:+ String Text.LF s) with (String c (x +:+ String Text.LF s)).
    cbn [Text.split_lines]. rewrite Hc, Hc'. cbn [andb].
    rewrite (IH Hlf Hcr).
    destruct x; reflexivity.
Qed.

Lemma split_lines_join ls :
  ls <> [] -> Forall Text.no_lf ls -> Forall Text.no_cr ls ->
  Text.split_lines (Text.join_lines ls) = ls.
Proof.
  induction ls as [|x rest IH]; intros Hne Hlf Hcr; [congruence|].
  inversion Hlf as [|? ? Hx Hrest]; subst. inversion Hcr as [|? ? Hx' Hrest']; subst.
  destruct rest as [|y rest].
  - apply split_lines_single. exact Hx.
  - rewrite join_lines_cons by discriminate.
    change (x +:+ Text.lf +:+ Text.join_lines (y :: rest))
      with (x +:+ String Text.LF (Text.join_lines (y :: rest))).
    rewrite (split_lines_line _ _ Hx Hx'), IH; [reflexivity | discriminate | assumption..].
Qed.

End ChangedFiles.

(** A path as a line of the changed-files list: not empty, without line
    break, and left alone by [trim]. *)
Definition plain_path {E} (H : Host E) (f : string) : Prop :=
  f <> "" /\ Text.no_lf f /\ Text.no_cr f /\ String_trim H f = f.

(** X14. loadChangedFiles (fs-utils.js) reads back a list written one path per
    line: when the text of the file, trimmed, is the paths joined by line
    feeds (an end-of-line after the last one is trimmed away) and does not
    start with an opening bracket, the paths are returned as they were
    written, in order. *)
Theorem X14_loadChangedFiles_reads_lines
    {E} (H : Host E) (changedFilesPath text : string) (st : State E)
    (files : list string) :
  files <> [] ->
  Forall (plain_path H) files ->
  tree st !! changedFilesPath = Some text ->
  String_trim H text = Text.join_lines files ->
  startsWith "[" (Text.join_lines files) = false ->
  loadChangedFiles H changedFilesPath st = inr files.
Proof.
  intros Hne Hplain Hfile Htrim Hjson. unfold loadChangedFiles.
  rewrite Hfile. cbv zeta. rewrite Htrim, Hjson.
  assert (Hnonempty : String.eqb (Text.join_lines files) "" = false).
  { destruct files as [|f rest]; [congruence|].
    inversion Hplain as [|? ? (Hf & _) _]; subst.
    apply String.eqb_neq. destruct rest as [|g rest].
    - exact Hf.
    - rewrite join_lines_cons by discriminate. destruct f; [congruence | discriminate]. }
  rewrite Hnonempty. f_equal.
  rewrite split_lines_join; [| exact Hne | | ].
  - clear -Hplain. induction Hplain as [|f rest (Hf & _ & _ & Hsame) _ IH]; [reflexivity|].
    cbn [map List.filter]. rewrite Hsame.
    apply String.eqb_neq in Hf. rewrite Hf. cbn [negb]. rewrite IH. reflexivity.
  - eapply Forall_impl; [exact Hplain | intros f Hf; apply Hf].
  - eapply Forall_impl; [exact Hplain | intros f Hf; apply Hf].
Qed.

(* ===================================================================== *)
(** ** cli.js: the command line *)
(* ===================================================================== *)

(** The value of an option: [true] for a bare flag, else the next token. *)
Inductive ArgValue : Type :=
| ArgTrue
| ArgText (s : string).

(** [token.startsWith('--')] and [token.replace(/^--/, '')] *)
Definition is_flag (token : string) : bool := startsWith "--" token.

Definition flag_key (token : string) : string :=
  match token with
  | String _ (String _ key) => if is_flag token then key else token
  | _ => token
  end.

(** [argv[i + 1] && !argv[i + 1].startsWith('--')] *)
Definition takes_value (next : string) : bool :=
  negb (String.eqb next "") && negb (is_flag next).

(** [args[key] = value] on the plain object [args]. The key [__proto__] is
    the accessor that Object.prototype defines: its setter ignores a string
    and [true], and no entry is made. *)
Definition set_arg (key : string) (value : ArgValue) (args : gmap string ArgValue)
  : gmap string ArgValue :=
  if String.eqb key "__proto__" then args else <[key := value]> args.

(** cli.js, parseArgs: the loop over argv, from the token at hand on. *)
Fixpoint parseArgs_from (args : gmap string ArgValue) (argv : list string)
  : gmap string ArgValue :=
  match argv with
  | [] => args
  | token :: rest =>
      if negb (is_flag token) then parseArgs_from args rest
      else
        match rest with
        | next :: rest' =>
            if takes_value next
            then parseArgs_from (set_arg (flag_key token) (ArgText next) args) rest'
            else parseArgs_from (set_arg (flag_key token) ArgTrue args) rest
        | [] => set_arg (flag_key token) ArgTrue args
        end
  end.

Definition parseArgs (argv : list string) : gmap string ArgValue :=
  parseArgs_from ∅ argv.

Section ParseArgs.

Lemma lookup_set_arg_ne k k' v args : k <> k' -> set_arg k v args !! k' = args !! k'.
Proof.
  unfold set_arg. intros Hk. destruct (String.eqb k "__proto__"); [reflexivity|].
  apply lookup_insert_ne. exact Hk.
Qed.

Lemma lookup_set_arg_eq k v args : k <> "__proto__" -> set_arg k v args !! k = Some v.
Proof.
  unfold set_arg. intros Hk. apply String.eqb_neq in Hk. rewrite Hk.
  apply lookup_insert_eq.
Qed.

Lemma lookup_set_arg_proto k v args :
  set_arg k v args !! "__proto__" = args !! "__proto__".
Proof.
  unfold set_arg. destruct (String.eqb k "__proto__") eqn:Hk; [reflexivity|].
  apply String.eqb_neq in Hk. apply lookup_insert_ne. exact Hk.
Qed.

Lemma is_flag_dashes key : is_flag ("--" +:+ key) = true.
Proof. apply (startsWith_app "--" key). Qed.

Lemma flag_key_dashes key : flag_key ("--" +:+ key) = key.
Proof.
  pose proof (is_flag_dashes key) as Hflag.
  change ("--" +:+ key) with (String "-" (String "-" key)) in *.
  unfold flag_key. rewrite Hflag. reflexivity.
Qed.

Lemma flag_key_inv token : is_flag token = true -> token = "--" +:+ flag_key token.
Proof.
  intros Hflag. destruct token as [|a [|b key]].
  - discriminate Hflag.
  - unfold is_flag, startsWith in Hflag. cbn [String.prefix] in Hflag.
    destruct (ascii_dec "-" a); discriminate Hflag.
  - unfold flag_key. rewrite Hflag.
    unfold is_flag, startsWith in Hflag. cbn [String.prefix] in Hflag.
    destruct (ascii_dec "-" a) as [<- |]; [|discriminate].
    destruct (ascii_dec "-" b) as [<- |]; [|discriminate]. reflexivity.
Qed.

(** Parsing can be cut in two at any flag: a flag is never taken for the
    value of the flag before it. *)
Lemma parseArgs_from_flag flag rest pre :
  is_flag flag = true ->
  (forall args, parseArgs_from args (pre ++ flag :: rest)
                = parseArgs_from (parseArgs_from args pre) (flag :: rest))
  /\ (forall token args, parseArgs_from args (token :: pre ++ flag :: rest)
                         = parseArgs_from (parseArgs_from args (token :: pre)) (flag :: rest)).
Proof.
  intros Hflag. assert (Hno : takes_value flag = false).
  { unfold takes_value. rewrite Hflag, andb_false_r. reflexivity. }
  induction pre as [|x pre [IH1 IH2]].
  - split; [reflexivity|]. intros token args. cbn [app parseArgs_from].
    destruct (negb (is_flag token)); [reflexivity|]. rewrite Hno. reflexivity.
  - split; [intros args; apply IH2|].
    intros token args. cbn [app]. cbn [parseArgs_from].
    destruct (negb (is_flag token)); [apply IH2|].
    destruct (takes_value x); [apply IH1 | apply IH2].
Qed.

Lemma parseArgs_from_cons token rest args :
  parseArgs_from args (token :: rest)
  = if negb (is_flag token) then parseArgs_from args rest
    else match rest with
         | next :: rest' =>
             if takes_value next
             then parseArgs_from (set_arg (flag_key token) (ArgText next) args) rest'
             else parseArgs_from (set_arg (flag_key token) ArgTrue args) rest
         | [] => set_arg (flag_key token) ArgTrue args
         end.
Proof. reflexivity. Qed.

(** Tokens other than [--key] leave the entry of [key] alone. *)
Lemma parseArgs_from_other key post :
  ("--" +:+ key) ∉ post ->
  (forall args, parseArgs_from args post !! key = args !! key)
  /\ (forall token args, token <> "--" +:+ key ->
        parseArgs_from args (token :: post) !! key = args !! key).
Proof.
  induction post as [|x post IH]; intros Hpost.
  - split; [reflexivity|]. intros token args Htoken. cbn [parseArgs_from].
    destruct (negb (is_flag token)) eqn:Hflag; [reflexivity|].
    apply lookup_set_arg_ne. intros Hkey. apply Htoken.
    apply negb_false_iff in Hflag. rewrite (flag_key_inv token Hflag), Hkey. reflexivity.
  - apply not_elem_of_cons in Hpost as [Hx Hpost]. destruct (IH Hpost) as [IH1 IH2].
    split; [intros args; apply IH2; congruence|].
    intros token args Htoken. rewrite (parseArgs_from_cons token (x :: post) args).
    destruct (negb (is_flag token)) eqn:Hflag; [apply IH2; congruence|].
    assert (Hkey : flag_key token <> key).
    { intros Hkey. apply Htoken. apply negb_false_iff in Hflag.
      rewrite (flag_key_inv token Hflag), Hkey. reflexivity. }
    destruct (takes_value x).
    + rewrite IH1. apply lookup_set_arg_ne. exact Hkey.
    + rewrite IH2 by congruence. apply lookup_set_arg_ne. exact Hkey.
Qed.

(** No token makes an entry for [__proto__]. *)
Lemma parseArgs_from_proto argv :
  (forall args, parseArgs_from args argv !! "__proto__" = args !! "__proto__")
  /\ (forall token args,
        parseArgs_from args (token :: argv) !! "__proto__" = args !! "__proto__").
Proof.
  induction argv as [|x argv [IH1 IH2]].
  - split; [reflexivity|]. intros token args. cbn [parseArgs_from].
    destruct (negb (is_flag token)); [reflexivity | apply lookup_set_arg_proto].
  - split; [intros args; apply IH2|].
    intros token args. rewrite (parseArgs_from_cons token (x :: argv) args).
    destruct (negb (is_flag token)); [apply IH2|].
    destruct (takes_value x).
    + rewrite IH1. apply lookup_set_arg_proto.
    + rewrite IH2. apply lookup_set_arg_proto.
Qed.

End ParseArgs.

(** X15. parseArgs (cli.js). The last occurrence of an option decides: when
    [--key] does not occur again after it, its entry is the token that
    follows it, provided there is one, it is not empty and it does not
    start with two dashes; otherwise the option is the bare flag [true].
    Whatever stands before it on the command line makes no difference. The
    one key for which this fails is [__proto__], which never gets an
    entry. *)
Theorem X15_parseArgs_last_occurrence (pre post : list string) (key : string) :
  ("--" +:+ key) ∉ post ->
  (key <> "__proto__" ->
   parseArgs (pre ++ ("--" +:+ key) :: post) !! key
   = Some match post with
          | next :: _ => if takes_value next then ArgText next else ArgTrue
          | [] => ArgTrue
          end)
  /\ parseArgs (pre ++ ("--" +:+ key) :: post) !! "__proto__" = None.
Proof.
  intros Hpost. split.
  - intros Hkey. unfold parseArgs.
    destruct (parseArgs_from_flag ("--" +:+ key) post pre (is_flag_dashes key)) as [-> _].
    rewrite parseArgs_from_cons, (is_flag_dashes key), (flag_key_dashes key). cbn [negb].
    destruct post as [|next post']; [apply lookup_set_arg_eq; exact Hkey|].
    apply not_elem_of_cons in Hpost as [Hnext Hpost'].
    destruct (parseArgs_from_other key post' Hpost') as [Hother1 Hother2].
    destruct (takes_value next).
    + rewrite Hother1. apply lookup_set_arg_eq. exact Hkey.
    + rewrite Hother2 by congruence. apply lookup_set_arg_eq. exact Hkey.
  - unfold parseArgs.
    destruct (parseArgs_from_proto (pre ++ ("--" +:+ key) :: post)) as [-> _].
    apply lookup_empty.
Qed.
(* ===================================================================== *)
(** ** One turn of the gate runner, and the whole run *)
(* ===================================================================== *)

(** The three kinds of finding the gate runner produces: for a command
    that exited non-zero; for a gate without command, carrying the changed
    files; for a Lighthouse assertion, carrying a route. *)
Definition finding_kind (changedFiles : list string) (f : Finding) : Prop :=
  (f_files f = None /\ f_route f = None)
  \/ (f_files f = Some changedFiles /\ f_route f = None
      /\ (f_gate f = lint \/ f_gate f = build))
  \/ (f_files f = None /\ is_Some (f_route f) /\ f_gate f = lighthouse).

(** What one gate contributes: its status [s], its findings [fs], the
    commands it ran [ts]. *)
Definition step_outcome (mode : string) (g : Gate) (s : GateStatus)
    (fs : list Finding) (ts : list CommandTrace) : Prop :=
  match s with
  | gate_skipped => gate_enabled mode g = false /\ fs = [] /\ ts = []
  | gate_pass =>
      gate_enabled mode g = true /\ fs = [] /\ exists t, ts = [t] /\ exit_code t = 0
  | gate_fail =>
      gate_enabled mode g = true /\ fs <> []
      /\ (ts = [] \/ exists t, ts = [t] /\ exit_code t <> 0)
  end.

Definition gate_step (mode : string) (changedFiles : list string) (g : Gate)
    (s : GateStatus) (fs : list Finding) (ts : list CommandTrace) : Prop :=
  Forall (fun f => f_gate f = g /\ finding_kind changedFiles f) fs
  /\ Forall (fun t => exists c, command t = Shell c) ts
  /\ step_outcome mode g s fs ts.

(** The slots of the three decoded artifacts. *)
Definition same_artifacts {E} (st st' : State E) : Prop :=
  failures_json st' = failures_json st
  /\ repair_report_json st' = repair_report_json st
  /\ escalation_json st' = escalation_json st.

Section GateRun.
Context {E : Type} (H : Host E) (cwd : string).

Lemma runCommand_inv c (st : State E) r st' :
  valid_timeout (timeout_of c) = true ->
  runCommand H c st = (r, st') ->
  exists t, r = Ret t /\ command t = c
            /\ history st' = history st ++ [Spawned c]
            /\ same_artifacts st st'.
Proof.
  unfold runCommand. intros ->. cbn [negb].
  destruct (spawnSync H c (tree st) (world st)) as [[res files] w].
  intros Hrun. inversion Hrun; subst. eexists. repeat split.
Qed.

(** A command with a timeout that spawnSync refuses is not spawned. *)
Lemma runCommand_refused c (st : State E) r st' :
  valid_timeout (timeout_of c) = false ->
  runCommand H c st = (r, st') -> r = Throw RangeError /\ st' = st.
Proof.
  unfold runCommand. intros ->. cbn [negb]. intros Hrun. inversion Hrun. auto.
Qed.

Lemma now_history (st : State E) r st' :
  now H st = (r, st') ->
  exists t, r = Ret t /\ history st' = history st /\ same_artifacts st st'.
Proof.
  unfold now. destruct (Date_now H (world st)) as [t w].
  intros Hrun. inversion Hrun; subst. eexists. repeat split.
Qed.

Lemma parseLighthouseFindings_state (st : State E) r st' :
  parseLighthouseFindings H cwd st = (r, st') -> st' = st.
Proof.
  unfold parseLighthouseFindings, bind, readFile. intros Hrun.
  destruct (tree st !! _);
    [|destruct (isDirectory H _ _); inversion Hrun; reflexivity].
  destruct (JSON_parse H _); [|inversion Hrun; reflexivity].
  destruct (iterate _); [|inversion Hrun; reflexivity].
  destruct (lighthouseFindings H _); inversion Hrun; reflexivity.
Qed.

Lemma lighthouseFindings_kind changedFiles rows : forall fs,
  lighthouseFindings H rows = Some fs ->
  Forall (fun f => f_gate f = lighthouse /\ finding_kind changedFiles f) fs.
Proof.
  induction rows as [|row rest IH]; intros fs Hfs; cbn [lighthouseFindings] in Hfs.
  - inversion Hfs. constructor.
  - destruct (lighthouseFinding H row) as [here|] eqn:Hrow; [|discriminate].
    destruct (lighthouseFindings H rest) as [more|]; [|discriminate].
    specialize (IH more eq_refl). inversion Hfs; subst fs; clear Hfs.
    destruct here as [f|]; [|exact IH]. constructor; [|exact IH].
    apply lighthouseFinding_Some in Hrow as (_ & Hgate & _ & Hfiles & Hroute & _).
    split; [exact Hgate|]. right. right. rewrite Hroute. eauto.
Qed.

Lemma parseLighthouseFindings_kind changedFiles (st : State E) fs st' :
  parseLighthouseFindings H cwd st = (Ret fs, st') ->
  Forall (fun f => f_gate f = lighthouse /\ finding_kind changedFiles f) fs.
Proof.
  unfold parseLighthouseFindings, bind, readFile. intros Hrun.
  destruct (tree st !! _);
    [|destruct (isDirectory H _ _); inversion Hrun; constructor].
  destruct (JSON_parse H _); [|discriminate].
  destruct (iterate _); [|discriminate].
  destruct (lighthouseFindings H _) as [found|] eqn:Hfound; [|discriminate].
  inversion Hrun; subst. eapply lighthouseFindings_kind. exact Hfound.
Qed.

Lemma findingForExitCode_inv changedFiles g result (st : State E) r st' :
  findingForExitCode H g result st = (r, st') ->
  exists f, r = Ret f /\ f_gate f = g /\ finding_kind changedFiles f
            /\ history st' = history st /\ same_artifacts st st'.
Proof.
  unfold findingForExitCode. intros Hrun.
  apply bind_inv in Hrun as [(t & st1 & Hnow & Hret) | (e & Hnow & _)].
  - apply now_history in Hnow as (_ & _ & Hh & Hsame).
    apply ret_inv in Hret as [-> ->]. eexists. split; [reflexivity|].
    cbn. split; [reflexivity|]. split; [left; auto | auto].
  - apply now_history in Hnow as (t & Hr & _). discriminate.
Qed.

(** What resolveGateCommand leaves without command is lint or build. *)
Lemma resolveGateCommand_none g scripts configCommands :
  resolveGateCommand g scripts configCommands = Some None -> g = lint \/ g = build.
Proof.
  unfold resolveGateCommand. destruct (JS.prop configCommands (gate_name g)); [|discriminate].
  destruct (JS.truthy v); [discriminate|].
  destruct g; auto; repeat match goal with
                           | |- context [if ?b then _ else _] => destruct b
                           end; discriminate.
Qed.

(** One turn of the loop of runDeterministicGates. *)
Lemma runGate_spec mode scripts config changedFiles acc g (st : State E) acc' st' :
  runGate H cwd mode scripts config changedFiles acc g st = (Ret acc', st') ->
  exists s fs ts,
    run_gates acc' = run_gates acc ++ [{| g_name := g; g_status := s |}]
    /\ run_findings acc' = run_findings acc ++ fs
    /\ run_traces acc' = run_traces acc ++ ts
    /\ history st' = history st ++ map (fun t => Spawned (command t)) ts
    /\ same_artifacts st st'
    /\ gate_step mode changedFiles g s fs ts.
Proof.
  unfold runGate. intros Hrun.
  destruct (gate_enabled mode g) eqn:Henabled; cbn [negb] in Hrun.
  2:{ apply ret_inv in Hrun as [Hr ->]. inversion Hr; subst acc'; clear Hr.
      exists gate_skipped, [], []. cbn. rewrite !app_nil_r.
      unfold same_artifacts, gate_step, step_outcome. split_and!; try done; constructor. }
  destruct (resolveGateCommand g scripts (cfg_commands config)) as [[c|]|] eqn:Hcommand;
    [| | discriminate].
  2:{ apply ret_inv in Hrun as [Hr ->]. inversion Hr; subst acc'; clear Hr.
      apply resolveGateCommand_none in Hcommand.
      exists gate_fail, [missingCommandFinding g changedFiles], [].
      cbn [run_gates run_findings run_traces map]. rewrite !app_nil_r.
      unfold same_artifacts, gate_step, step_outcome. split_and!; try done; [|auto].
      apply Forall_cons. split; [|constructor]. split; [reflexivity|].
      right. left. cbn. auto. }
  apply bind_ret_inv in Hrun as (result & st1 & Hcmd & Hrun).
  destruct c as [| | | |s| |]; try discriminate Hcmd. cbn [runGateCommand] in Hcmd.
  destruct (has_nul s); [discriminate Hcmd|].
  apply runCommand_inv in Hcmd as (t & Ht & Hc & Hh1 & Hsame1); [|reflexivity].
  inversion Ht; subst t; clear Ht.
  assert (Htrace : Forall (fun t => exists c, command t = Shell c) [result])
    by (repeat constructor; eauto).
  assert (Hspawned : map (fun t => Spawned (command t)) [result] = [Spawned (Shell s)])
    by (cbn; rewrite Hc; reflexivity).
  destruct (exit_code result =? 0) eqn:Hexit.
  { apply ret_inv in Hrun as [Hr ->]. inversion Hr; subst acc'; clear Hr.
    exists gate_pass, [], [result]. cbn [run_gates run_findings run_traces].
    rewrite app_nil_r, Hspawned.
    unfold gate_step, step_outcome. split_and!; try done.
    exists result. split; [reflexivity | lia]. }
  assert (Hexit_finding :
    forall acc'0 st'0,
      bind (findingForExitCode H g result)
        (fun f => ret {| run_gates := run_gates acc ++ [{| g_name := g; g_status := gate_fail |}];
                         run_findings := run_findings acc ++ [f];
                         run_traces := run_traces acc ++ [result] |}) st1
      = (Ret acc'0, st'0) ->
      exists s fs ts,
        run_gates acc'0 = run_gates acc ++ [{| g_name := g; g_status := s |}]
        /\ run_findings acc'0 = run_findings acc ++ fs
        /\ run_traces acc'0 = run_traces acc ++ ts
        /\ history st'0 = history st ++ map (fun t => Spawned (command t)) ts
        /\ same_artifacts st st'0
        /\ gate_step mode changedFiles g s fs ts).
  { intros acc0 st0 Hrun0.
    apply bind_ret_inv in Hrun0 as (f & st2 & Hf & Hret).
    apply (findingForExitCode_inv changedFiles) in Hf as (f' & Hf' & Hgate & Hkind & Hh2 & Hsame2).
    inversion Hf'; subst f'; clear Hf'.
    apply ret_inv in Hret as [Hr ->]. inversion Hr; subst acc0; clear Hr.
    exists gate_fail, [f], [result]. cbn [run_gates run_findings run_traces].
    rewrite Hspawned, Hh2, Hh1.
    destruct Hsame1 as (? & ? & ?), Hsame2 as (? & ? & ?).
    unfold same_artifacts, gate_step, step_outcome. split_and!; try done; try congruence.
    - apply Forall_cons. split; [split; assumption | constructor].
    - right. exists result. split; [reflexivity | lia]. }
  destruct g; try (apply Hexit_finding; exact Hrun).
  apply bind_ret_inv in Hrun as (found & st2 & Hparse & Hrun).
  pose proof (parseLighthouseFindings_state _ _ _ Hparse) as ->.
  apply (parseLighthouseFindings_kind changedFiles) in Hparse.
  destruct (0 <? Z.of_nat (length found)) eqn:Hfound; [|apply Hexit_finding; exact Hrun].
  apply ret_inv in Hrun as [Hr ->]. inversion Hr; subst acc'; clear Hr.
  exists gate_fail, found, [result]. cbn [run_gates run_findings run_traces].
  rewrite Hspawned.
  unfold gate_step, step_outcome. split_and!; try done.
  - intros ->. discriminate Hfound.
  - right. exists result. split; [reflexivity | lia].
Qed.

Lemma step_outcome_traces mode g s fs ts :
  step_outcome mode g s fs ts ->
  (length ts <= if gate_enabled mode g then 1 else 0)%nat
  /\ (s = gate_skipped <-> gate_enabled mode g = false).
Proof.
  unfold step_outcome. intros Hs.
  destruct s; [destruct Hs as (-> & _ & t & -> & _)
              | destruct Hs as (-> & _ & [-> | (t & -> & _)])
              | destruct Hs as (-> & _ & ->)];
    cbn; (split; [lia | split; congruence]).
Qed.

Lemma step_outcome_fail mode g s fs ts :
  step_outcome mode g s fs ts -> (s = gate_fail <-> fs <> []).
Proof.
  unfold step_outcome. intros Hs.
  destruct s; [destruct Hs as (_ & -> & _) | destruct Hs as (_ & Hne & _)
              | destruct Hs as (_ & -> & _)];
    split; congruence.
Qed.

Lemma same_artifacts_trans (st1 st2 st3 : State E) :
  same_artifacts st1 st2 -> same_artifacts st2 st3 -> same_artifacts st1 st3.
Proof. intros (? & ? & ?) (? & ? & ?). repeat split; congruence. Qed.

(** The whole run, gate by gate. *)
Lemma runDeterministicGates_steps mode config changedFiles (st : State E) result st' :
  runDeterministicGates H cwd mode config changedFiles st = (Ret result, st') ->
  exists s1 s2 s3 s4 fs1 fs2 fs3 fs4 ts1 ts2 ts3 ts4,
    run_gates result
    = [ {| g_name := lint; g_status := s1 |}; {| g_name := typecheck; g_status := s2 |};
        {| g_name := build; g_status := s3 |}; {| g_name := lighthouse; g_status := s4 |} ]
    /\ run_findings result = fs1 ++ fs2 ++ fs3 ++ fs4
    /\ run_traces result = ts1 ++ ts2 ++ ts3 ++ ts4
    /\ history st' = history st ++ map (fun t => Spawned (command t)) (run_traces result)
    /\ same_artifacts st st'
    /\ gate_step mode changedFiles lint s1 fs1 ts1
    /\ gate_step mode changedFiles typecheck s2 fs2 ts2
    /\ gate_step mode changedFiles build s3 fs3 ts3
    /\ gate_step mode changedFiles lighthouse s4 fs4 ts4.
Proof.
  unfold runDeterministicGates, gatePlan. intros Hrun.
  apply bind_ret_inv in Hrun as (scripts & st0 & Hscripts & Hrun).
  pose proof (packageScripts_state H cwd _ _ _ Hscripts) as ->.
  cbn [foldM] in Hrun.
  apply bind_ret_inv in Hrun as (acc1 & st1 & Hg1 & Hrun).
  apply bind_ret_inv in Hrun as (acc2 & st2 & Hg2 & Hrun).
  apply bind_ret_inv in Hrun as (acc3 & st3 & Hg3 & Hrun).
  apply bind_ret_inv in Hrun as (acc4 & st4 & Hg4 & Hrun).
  apply ret_inv in Hrun as [Hr ->]. inversion Hr; subst acc4; clear Hr.
  apply runGate_spec in Hg1 as (s1 & fs1 & ts1 & Hgs1 & Hfs1 & Hts1 & Hh1 & Hsame1 & Hstep1).
  apply runGate_spec in Hg2 as (s2 & fs2 & ts2 & Hgs2 & Hfs2 & Hts2 & Hh2 & Hsame2 & Hstep2).
  apply runGate_spec in Hg3 as (s3 & fs3 & ts3 & Hgs3 & Hfs3 & Hts3 & Hh3 & Hsame3 & Hstep3).
  apply runGate_spec in Hg4 as (s4 & fs4 & ts4 & Hgs4 & Hfs4 & Hts4 & Hh4 & Hsame4 & Hstep4).
  exists s1, s2, s3, s4, fs1, fs2, fs3, fs4, ts1, ts2, ts3, ts4.
  cbn [run_gates run_findings run_traces] in *.
  assert (Htraces : run_traces result = ts1 ++ ts2 ++ ts3 ++ ts4).
  { rewrite Hts4, Hts3, Hts2, Hts1. cbn. rewrite <- !app_assoc. reflexivity. }
  split; [rewrite Hgs4, Hgs3, Hgs2, Hgs1; reflexivity|].
  split; [rewrite Hfs4, Hfs3, Hfs2, Hfs1; cbn; rewrite <- !app_assoc; reflexivity|].
  split; [exact Htraces|].
  split; [rewrite Htraces, Hh4, Hh3, Hh2, Hh1, !map_app, <- !app_assoc; reflexivity|].
  split; [eauto using same_artifacts_trans|]. auto.
Qed.

End GateRun.

(** X16. runDeterministicGates (gates.js), the gates of a run. The result lists
    the four gates in the order lint, typecheck, build, lighthouse,
    whatever happened; a gate is reported as skipped exactly when it is
    build and the mode is not 'full'. The traces are the commands that were
    spawned, in order and nothing else: at most one shell command per gate
    (three at most outside full mode); no artifact is written. *)
Theorem X16_runDeterministicGates_gates
    {E} (H : Host E) (cwd : string) (mode : string) (config : Config)
    (changedFiles : list string) (st st' : State E) (result : GateRun) :
  runDeterministicGates H cwd mode config changedFiles st = (Ret result, st') ->
  map g_name (run_gates result) = gatePlan
  /\ (forall gr, gr ∈ run_gates result ->
        (g_status gr = gate_skipped <-> g_name gr = build /\ mode <> "full"))
  /\ history st' = history st ++ map (fun t => Spawned (command t)) (run_traces result)
  /\ Forall (fun t => exists c, command t = Shell c) (run_traces result)
  /\ (length (run_traces result) <= if String.eqb mode "full" then 4 else 3)%nat
  /\ same_artifacts st st'.
Proof.
  intros Hrun. apply runDeterministicGates_steps in Hrun
    as (s1 & s2 & s3 & s4 & fs1 & fs2 & fs3 & fs4 & ts1 & ts2 & ts3 & ts4
        & Hgates & Hfindings & Htraces & Hhistory & Hsame
        & (_ & Hts1 & Hstep1) & (_ & Hts2 & Hstep2) & (_ & Hts3 & Hstep3)
        & (_ & Hts4 & Hstep4)).
  destruct (step_outcome_traces _ _ _ _ _ Hstep1) as [Hl1 Hs1],
    (step_outcome_traces _ _ _ _ _ Hstep2) as [Hl2 Hs2],
    (step_outcome_traces _ _ _ _ _ Hstep3) as [Hl3 Hs3],
    (step_outcome_traces _ _ _ _ _ Hstep4) as [Hl4 Hs4].
  cbn [gate_enabled] in Hl1, Hl2, Hl3, Hl4, Hs1, Hs2, Hs3, Hs4.
  split; [rewrite Hgates; reflexivity|].
  split.
  { intros gr Hgr. rewrite Hgates in Hgr.
    repeat (apply elem_of_cons in Hgr as [-> | Hgr]); [.. | inversion Hgr];
      cbn [g_status g_name].
    - rewrite Hs1. split; [discriminate | intros [Hg _]; discriminate].
    - rewrite Hs2. split; [discriminate | intros [Hg _]; discriminate].
    - rewrite Hs3. split.
      + intros Hmode. split; [reflexivity|]. intros ->. discriminate Hmode.
      + intros [_ Hmode]. apply String.eqb_neq. exact Hmode.
    - rewrite Hs4. split; [discriminate | intros [Hg _]; discriminate]. }
  split; [exact Hhistory|].
  split; [rewrite Htraces, !Forall_app; auto|].
  split; [|exact Hsame].
  rewrite Htraces, !length_app. destruct (String.eqb mode "full"); lia.
Qed.

(** X17. runDeterministicGates (gates.js), findings against gate statuses. Every
    finding belongs to a gate that the same result reports as failed, and
    every gate reported as failed has a finding: the list of findings is
    empty exactly when no gate failed. *)
Theorem X17_findings_iff_failed_gates
    {E} (H : Host E) (cwd : string) (mode : string) (config : Config)
    (changedFiles : list string) (st st' : State E) (result : GateRun) :
  runDeterministicGates H cwd mode config changedFiles st = (Ret result, st') ->
  (forall f, f ∈ run_findings result ->
     {| g_name := f_gate f; g_status := gate_fail |} ∈ run_gates result)
  /\ (forall gr, gr ∈ run_gates result -> g_status gr = gate_fail ->
        exists f, f ∈ run_findings result /\ f_gate f = g_name gr)
  /\ (run_findings result = [] <->
      Forall (fun gr => g_status gr <> gate_fail) (run_gates result)).
Proof.
  intros Hrun. apply runDeterministicGates_steps in Hrun
    as (s1 & s2 & s3 & s4 & fs1 & fs2 & fs3 & fs4 & ts1 & ts2 & ts3 & ts4
        & Hgates & Hfindings & _ & _ & _
        & (Hfs1 & _ & Hstep1) & (Hfs2 & _ & Hstep2) & (Hfs3 & _ & Hstep3)
        & (Hfs4 & _ & Hstep4)).
  apply step_outcome_fail in Hstep1, Hstep2, Hstep3, Hstep4.
  rewrite Forall_forall in Hfs1, Hfs2, Hfs3, Hfs4.
  assert (Hgate : forall g s fs f,
            (forall x, x ∈ fs -> f_gate x = g /\ finding_kind changedFiles x) ->
            (s = gate_fail <-> fs <> []) -> f ∈ fs ->
            {| g_name := f_gate f; g_status := gate_fail |}
            = {| g_name := g; g_status := s |}).
  { intros g s fs f Hall Hs Hf. destruct (Hall f Hf) as [-> _].
    f_equal. symmetry. apply Hs. intros ->. inversion Hf. }
  assert (Hwitness : forall g s fs,
            (forall x, x ∈ fs -> f_gate x = g /\ finding_kind changedFiles x) ->
            (s = gate_fail <-> fs <> []) -> s = gate_fail ->
            exists f, f ∈ fs /\ f_gate f = g).
  { intros g s fs Hall Hs Hfailed. apply Hs in Hfailed.
    destruct fs as [|f fs]; [congruence|].
    exists f. split; [left | apply Hall; left]. }
  split; [|split].
  - intros f Hf. rewrite Hfindings in Hf. rewrite Hgates.
    rewrite !elem_of_app in Hf. rewrite !elem_of_cons.
    destruct Hf as [Hf | [Hf | [Hf | Hf]]];
      [ left; eapply Hgate; eassumption
      | right; left; eapply Hgate; eassumption
      | right; right; left; eapply Hgate; eassumption
      | right; right; right; left; eapply Hgate; eassumption ].
  - intros gr Hgr Hfailed. rewrite Hgates in Hgr. rewrite Hfindings.
    repeat (apply elem_of_cons in Hgr as [-> | Hgr]); [.. | inversion Hgr];
      cbn [g_status g_name] in *.
    + destruct (Hwitness _ _ _ Hfs1 Hstep1 Hfailed) as (f & Hf & Hg).
      exists f. rewrite !elem_of_app. auto.
    + destruct (Hwitness _ _ _ Hfs2 Hstep2 Hfailed) as (f & Hf & Hg).
      exists f. rewrite !elem_of_app. auto.
    + destruct (Hwitness _ _ _ Hfs3 Hstep3 Hfailed) as (f & Hf & Hg).
      exists f. rewrite !elem_of_app. auto.
    + destruct (Hwitness _ _ _ Hfs4 Hstep4 Hfailed) as (f & Hf & Hg).
      exists f. rewrite !elem_of_app. auto.
  - rewrite Hfindings, Hgates. rewrite !Forall_cons. cbn [g_status].
    rewrite Hstep1, Hstep2, Hstep3, Hstep4. split.
    + intros Hnil. repeat (apply app_eq_nil in Hnil as [? Hnil]). subst.
      split_and!; try (intros Hne; apply Hne; reflexivity). constructor.
    + intros (H1 & H2 & H3 & H4 & _).
      destruct fs1; [|exfalso; apply H1; discriminate].
      destruct fs2; [|exfalso; apply H2; discriminate].
      destruct fs3; [|exfalso; apply H3; discriminate].
      destruct fs4; [|exfalso; apply H4; discriminate]. reflexivity.
Qed.

(* ===================================================================== *)
(** ** summarize-command.js: the scope of a finding *)
(* ===================================================================== *)

Inductive Scope : Type := single_file | single_route | cross_route.

(** summarize-command.js, scopeForFinding *)
Definition scopeForFinding (finding : Finding) : Scope :=
  match f_files finding with
  | Some [_] => single_file
  | files =>
      if match f_route finding with
         | Some route => negb (String.eqb route "")
         | None => false
         end
         && match files with
            | None => true
            | Some fs => (length fs <=? 1)%nat
            end
      then single_route
      else cross_route
  end.

(** X18. scopeForFinding (summarize-command.js) on the findings of the gate
    runner (gates.js). A finding of a gate run is scoped to a single file
    only when it reports a gate without command (lint or build) and exactly
    one file changed; it is scoped to a single route only when it is a
    Lighthouse finding; every finding made from the exit code of a command
    is cross-route. *)
Theorem X18_scope_of_gate_findings
    {E} (H : Host E) (cwd : string) (mode : string) (config : Config)
    (changedFiles : list string) (st st' : State E) (result : GateRun) (f : Finding) :
  runDeterministicGates H cwd mode config changedFiles st = (Ret result, st') ->
  f ∈ run_findings result ->
  match scopeForFinding f with
  | single_file =>
      exists one, changedFiles = [one] /\ f_files f = Some [one]
                  /\ (f_gate f = lint \/ f_gate f = build)
  | single_route => f_gate f = lighthouse /\ f_files f = None
  | cross_route => True
  end.
Proof.
  intros Hrun Hf. apply runDeterministicGates_steps in Hrun
    as (s1 & s2 & s3 & s4 & fs1 & fs2 & fs3 & fs4 & ts1 & ts2 & ts3 & ts4
        & _ & Hfindings & _ & _ & _
        & (Hfs1 & _) & (Hfs2 & _) & (Hfs3 & _) & (Hfs4 & _)).
  assert (Hkind : finding_kind changedFiles f).
  { rewrite Hfindings, !elem_of_app in Hf. rewrite Forall_forall in Hfs1, Hfs2, Hfs3, Hfs4.
    destruct Hf as [Hf | [Hf | [Hf | Hf]]];
      [apply Hfs1 in Hf | apply Hfs2 in Hf | apply Hfs3 in Hf | apply Hfs4 in Hf];
      apply Hf. }
  unfold scopeForFinding.
  destruct Hkind as [[Hfiles Hroute] | [(Hfiles & Hroute & Hgate) | (Hfiles & Hroute & Hgate)]];
    rewrite Hfiles.
  - rewrite Hroute. exact I.
  - rewrite Hroute. destruct changedFiles as [|one [|two more]]; cbn; eauto.
  - destruct (f_route f) as [route|]; [|exact I].
    destruct (negb (String.eqb route "")); cbn; auto.
Qed.
(* ===================================================================== *)
(** ** Which effects a computation can have *)
(* ===================================================================== *)

(** From [st] to [st'] only events that [allowed] admits were performed,
    and a decoded artifact changed only if its write is among them. *)
Definition traced {E} (allowed : Event -> bool) (st st' : State E) : Prop :=
  exists evs,
    history st' = history st ++ evs
    /\ Forall (fun ev => allowed ev = true) evs
    /\ (Wrote FailuresFile ∉ evs -> failures_json st' = failures_json st)
    /\ (Wrote RepairReportFile ∉ evs -> repair_report_json st' = repair_report_json st)
    /\ (Wrote EscalationFile ∉ evs -> escalation_json st' = escalation_json st).

(** A computation that performs admitted events only, however it ends. *)
Definition only {E A} (allowed : Event -> bool) (m : M E A) : Prop :=
  forall st r st', m st = (r, st') -> traced allowed st st'.

Create HintDb only.

Lemma traced_refl {E} allowed (st : State E) : traced allowed st st.
Proof. exists []. rewrite app_nil_r. split_and!; try done. Qed.

Lemma traced_trans {E} allowed (st1 st2 st3 : State E) :
  traced allowed st1 st2 -> traced allowed st2 st3 -> traced allowed st1 st3.
Proof.
  intros (evs1 & Hh1 & Ha1 & Hf1 & Hr1 & He1) (evs2 & Hh2 & Ha2 & Hf2 & Hr2 & He2).
  exists (evs1 ++ evs2). split_and!.
  - rewrite Hh2, Hh1, app_assoc. reflexivity.
  - apply Forall_app. auto.
  - intros Hn. apply not_elem_of_app in Hn as [Hn1 Hn2]. rewrite Hf2, Hf1; auto.
  - intros Hn. apply not_elem_of_app in Hn as [Hn1 Hn2]. rewrite Hr2, Hr1; auto.
  - intros Hn. apply not_elem_of_app in Hn as [Hn1 Hn2]. rewrite He2, He1; auto.
Qed.

(** A state that differs from [st] in its files and its world only. *)
Lemma traced_files {E} allowed (st : State E) files w :
  traced allowed st
    (mkState files (failures_json st) (repair_report_json st) (escalation_json st)
       (history st) w).
Proof. exists []. cbn. rewrite app_nil_r. split_and!; try done. Qed.

(** One admitted event that is not the write of a decoded artifact. *)
Lemma traced_event {E} allowed (st : State E) files w ev :
  allowed ev = true ->
  traced allowed st
    (mkState files (failures_json st) (repair_report_json st) (escalation_json st)
       (history st ++ [ev]) w).
Proof. intros Hev. exists [ev]. cbn. split_and!; try done. repeat constructor. exact Hev. Qed.

Lemma only_ret {E A} allowed (a : A) : only allowed (@ret E A a).
Proof. intros st r st' Hrun. inversion Hrun; subst. apply traced_refl. Qed.

Lemma only_throw {E A} allowed (e : Error) : only allowed (@throw E A e).
Proof. intros st r st' Hrun. inversion Hrun; subst. apply traced_refl. Qed.

Lemma only_bind {E A B} allowed (m : M E A) (k : A -> M E B) :
  only allowed m -> (forall a, only allowed (k a)) -> only allowed (bind m k).
Proof.
  intros Hm Hk st r st' Hrun.
  apply bind_inv in Hrun as [(a & st1 & Hrun1 & Hrun2) | (e & Hrun1 & _)].
  - eapply traced_trans; [eapply Hm | eapply Hk]; eassumption.
  - eapply Hm. eassumption.
Qed.

Lemma only_foldM {E A B} allowed (f : B -> A -> M E B) :
  (forall acc x, only allowed (f acc x)) ->
  forall xs acc, only allowed (@foldM E A B f acc xs).
Proof.
  intros Hf. induction xs as [|x rest IH]; intros acc; cbn [foldM].
  - apply only_ret.
  - apply only_bind; [apply Hf | intros acc'; apply IH].
Qed.

#[export] Hint Resolve only_ret only_throw : only.

(** Break a goal [only allowed m] down along the structure of [m]. *)
Ltac only_step :=
  first
    [ solve [eauto with only nocore]
    | apply only_bind; [|intros ?]
    | apply only_foldM; intros ? ?
    | match goal with
      | |- only _ (if ?b then _ else _) => destruct b eqn:?
      | |- only _ (match ?x with _ => _ end) => destruct x eqn:?
      end ].

Ltac only_tac := repeat only_step.

Section Only.
Context {E : Type} (H : Host E) (cwd : string) (allowed : Event -> bool).

Lemma only_now : only allowed (now H).
Proof.
  intros st r st' Hrun. unfold now in Hrun. destruct (Date_now H (world st)).
  inversion Hrun; subst. apply traced_files.
Qed.

Lemma only_readFile rel : only allowed (readFile H cwd rel).
Proof.
  intros st r st' Hrun. apply readFile_state in Hrun as ->. apply traced_refl.
Qed.

Lemma only_writeFile rel text : only allowed (writeFile H cwd rel text).
Proof. intros st r st' Hrun. inversion Hrun; subst. apply traced_files. Qed.

Lemma only_runCommand c : allowed (Spawned c) = true -> only allowed (runCommand H c).
Proof.
  intros Hc st r st' Hrun. unfold runCommand in Hrun.
  destruct (negb (valid_timeout (timeout_of c)));
    [inversion Hrun; subst; apply traced_refl|].
  destruct (spawnSync H c (tree st) (world st)) as [[res files] w].
  inversion Hrun; subst. apply traced_event. exact Hc.
Qed.

Lemma only_log ev : allowed ev = true -> only allowed (@log E ev).
Proof. intros Hev st r st' Hrun. inversion Hrun; subst. apply traced_event. exact Hev. Qed.

Lemma only_readFailures : only allowed (@readFailures E).
Proof.
  intros st r st' Hrun. unfold readFailures in Hrun.
  destruct (failures_json st); inversion Hrun; subst; apply traced_refl.
Qed.

Lemma only_writeFailures p :
  allowed (Wrote FailuresFile) = true -> only allowed (@writeFailures E p).
Proof.
  intros Hev st r st' Hrun. inversion Hrun; subst. exists [Wrote FailuresFile]. cbn.
  split_and!; try done; [repeat constructor; exact Hev|].
  intros Hn. exfalso. apply Hn. left.
Qed.

Lemma only_writeRepairReport p :
  allowed (Wrote RepairReportFile) = true -> only allowed (@writeRepairReport E p).
Proof.
  intros Hev st r st' Hrun. inversion Hrun; subst. exists [Wrote RepairReportFile]. cbn.
  split_and!; try done; [repeat constructor; exact Hev|].
  intros Hn. exfalso. apply Hn. left.
Qed.

Lemma only_writeEscalation p :
  allowed (Wrote EscalationFile) = true -> only allowed (@writeEscalation E p).
Proof.
  intros Hev st r st' Hrun. inversion Hrun; subst. exists [Wrote EscalationFile]. cbn.
  split_and!; try done; [repeat constructor; exact Hev|].
  intros Hn. exfalso. apply Hn. left.
Qed.

#[local] Hint Resolve only_now only_readFile only_writeFile only_runCommand only_log
  only_readFailures only_writeFailures only_writeRepairReport only_writeEscalation : only.

(** *** The gate run *)

Hypothesis gate_commands : forall s, allowed (Spawned (Shell s)) = true.
Hypothesis git_commands :
  hasGit H = true ->
  allowed (Spawned GitRemoteUrl) = true /\ allowed (Spawned GitBranch) = true
  /\ allowed (Spawned GitDiffNumstat) = true.
Hypothesis run_artifacts :
  allowed (Wrote FailuresFile) = true /\ allowed (Wrote RunMetadataFile) = true
  /\ allowed (Wrote AgentBriefFile) = true.

Lemma only_loadConfig : only allowed (loadConfig H cwd).
Proof. unfold loadConfig. only_tac. Qed.

Lemma only_packageScripts : only allowed (packageScripts H cwd).
Proof. unfold packageScripts. only_tac. Qed.

Lemma only_parseLighthouseFindings : only allowed (parseLighthouseFindings H cwd).
Proof. unfold parseLighthouseFindings. only_tac. Qed.

Lemma only_findingForExitCode g result : only allowed (findingForExitCode H g result).
Proof. unfold findingForExitCode. only_tac. Qed.

Lemma only_runGateCommand c : only allowed (runGateCommand H c).
Proof. unfold runGateCommand. only_tac. Qed.

#[local] Hint Resolve only_loadConfig only_packageScripts only_parseLighthouseFindings
  only_findingForExitCode only_runGateCommand : only.

Lemma only_runGate mode scripts config changedFiles acc g :
  only allowed (runGate H cwd mode scripts config changedFiles acc g).
Proof. unfold runGate. only_tac. Qed.

#[local] Hint Resolve only_runGate : only.

Lemma only_runDeterministicGates mode config changedFiles :
  only allowed (runDeterministicGates H cwd mode config changedFiles).
Proof. unfold runDeterministicGates. only_tac. Qed.

Lemma only_gitInfo : only allowed (gitInfo H).
Proof.
  unfold gitInfo. destruct (hasGit H) eqn:Hgit; [|apply only_ret].
  destruct (git_commands eq_refl) as (Hurl & Hbranch & _). only_tac.
Qed.

#[local] Hint Resolve only_runDeterministicGates only_gitInfo : only.

Lemma only_executeRun mode changedFiles :
  only allowed (executeRun H cwd mode changedFiles).
Proof.
  destruct run_artifacts as (Hfailures & Hmeta & _). unfold executeRun. only_tac.
Qed.

Lemma only_executeSummarize : only allowed (executeSummarize H).
Proof.
  destruct run_artifacts as (_ & _ & Hbrief). unfold executeSummarize. only_tac.
Qed.

#[local] Hint Resolve only_executeRun only_executeSummarize : only.

(** *** The repair loop *)

Variable deterministicOnly : bool.

Hypothesis workspace_commands :
  forall attempt rsync,
    allowed (Spawned (Backup attempt rsync)) = true
    /\ allowed (Spawned (Restore attempt rsync)) = true.
Hypothesis fixer_commands : forall files, allowed (Spawned (EslintFixProblem files)) = true.
Hypothesis terminal_artifacts :
  allowed (Wrote RepairReportFile) = true /\ allowed (Wrote EscalationFile) = true.
Hypothesis model_events :
  deterministicOnly = false ->
  allowed HintAdapterEntered = true /\ allowed PatchAdapterEntered = true
  /\ forall model prompt timeout, allowed (Spawned (OllamaRun model prompt timeout)) = true.

Lemma only_runLintProblemAutofix files : only allowed (runLintProblemAutofix H files).
Proof. unfold runLintProblemAutofix. only_tac. Qed.

#[local] Hint Resolve only_runLintProblemAutofix : only.

Lemma only_runDeterministicPreFix failures :
  only allowed (runDeterministicPreFix H failures).
Proof. unfold runDeterministicPreFix. only_tac. Qed.

Lemma only_diffSnapshot : only allowed (diffSnapshot H).
Proof.
  unfold diffSnapshot. destruct (hasGit H) eqn:Hgit; [|apply only_ret].
  destruct (git_commands eq_refl) as (_ & _ & Hdiff). cbn [negb]. only_tac.
Qed.

Lemma only_backupWorkspace attempt : only allowed (backupWorkspace H attempt).
Proof.
  destruct (workspace_commands attempt (hasRsync H)) as [Hbackup _].
  unfold backupWorkspace. only_tac.
Qed.

Lemma only_restoreWorkspace attempt : only allowed (restoreWorkspace H attempt).
Proof.
  destruct (workspace_commands attempt (hasRsync H)) as [_ Hrestore].
  unfold restoreWorkspace. only_tac.
Qed.

Lemma only_escalate e : only allowed (@escalate E e).
Proof. destruct terminal_artifacts as [_ Hesc]. unfold escalate. only_tac. Qed.

Lemma only_report log : only allowed (@report E log).
Proof. destruct terminal_artifacts as [Hrep _]. unfold report. only_tac. Qed.

#[local] Hint Resolve only_runDeterministicPreFix only_diffSnapshot only_backupWorkspace
  only_restoreWorkspace only_escalate only_report : only.

Lemma only_applyEdits es : forall touched, only allowed (applyEdits H cwd es touched).
Proof. induction es as [|e rest IH]; intros touched; cbn [applyEdits]; only_tac. Qed.

#[local] Hint Resolve only_applyEdits : only.

Lemma only_runModelActions attempted0 current policy :
  only allowed (runModelActions H cwd attempted0 current policy deterministicOnly).
Proof.
  unfold runModelActions.
  destruct (Z.of_nat (length (findings current)) =? 0); [apply only_ret|].
  destruct deterministicOnly eqn:Hmode; [apply only_ret|].
  destruct (model_events eq_refl) as (Hhint & Hpatch & Hollama).
  destruct (negb _); [apply only_ret|].
  unfold runHintModel, runPatchModel, requestPlan, checkAndApplyPlan, applyEditPlan,
    planOfOutput, callOllama.
  only_tac.
Qed.

#[local] Hint Resolve only_runModelActions : only.

Lemma only_runRepairActions failures policy :
  only allowed (runRepairActions H cwd failures policy deterministicOnly).
Proof. unfold runRepairActions. only_tac. Qed.

#[local] Hint Resolve only_runRepairActions : only.

Lemma only_attemptBody policy started attempt ls :
  only allowed (attemptBody H cwd policy deterministicOnly started attempt ls).
Proof. unfold attemptBody. only_tac. Qed.

#[local] Hint Resolve only_attemptBody : only.

Lemma only_repairLoop policy started remaining : forall attempt ls,
  only allowed (repairLoop H cwd policy deterministicOnly started remaining attempt ls).
Proof.
  induction remaining as [|remaining IH]; intros attempt ls; cbn [repairLoop]; only_tac.
Qed.

#[local] Hint Resolve only_repairLoop : only.

Lemma only_executeRepair maxAttemptsArg :
  only allowed (executeRepair H cwd maxAttemptsArg deterministicOnly).
Proof. unfold executeRepair. only_tac. Qed.

End Only.

(** Events that are the spawn of a child process. *)
Definition is_spawn (ev : Event) : bool :=
  match ev with Spawned _ => true | _ => false end.

(** Events of the model adapters: entering one, or running a model. *)
Definition model_event (ev : Event) : bool :=
  match ev with
  | HintAdapterEntered | PatchAdapterEntered | Spawned (OllamaRun _ _ _) => true
  | _ => false
  end.

(** The three version-control commands. *)
Definition git_event (ev : Event) : bool :=
  match ev with
  | Spawned GitRemoteUrl | Spawned GitBranch | Spawned GitDiffNumstat => true
  | _ => false
  end.

Section Effects.
Context {E : Type} (H : Host E) (cwd : string).

Lemma traced_spawns (st st' : State E) :
  traced is_spawn st st' ->
  same_artifacts st st'
  /\ exists evs, history st' = history st ++ evs
                 /\ Forall (fun ev => is_spawn ev = true) evs.
Proof.
  intros (evs & Hh & Hall & Hf & Hr & He).
  assert (Hnot : forall a, Wrote a ∉ evs).
  { intros a Hin. rewrite Forall_forall in Hall. apply Hall in Hin. discriminate. }
  split; [split_and!; auto | eauto].
Qed.

(** What executeRun does before it validates and writes. *)
Lemma executeRun_prefix mode changedFiles :
  only is_spawn
    (let* config := loadConfig H cwd in
     let* gateResult := runDeterministicGates H cwd mode config changedFiles in
     let* _ := gitInfo H in
     ret (config, gateResult)).
Proof.
  apply only_bind; [apply only_loadConfig | intros config].
  apply only_bind; [apply only_runDeterministicGates; reflexivity | intros gateResult].
  apply only_bind; [apply only_gitInfo; intros _; auto | intros ?; apply only_ret].
Qed.

(** When no lint and no typecheck finding is at hand, but some finding is,
    the repair actions are two notes. *)
Lemma runModelActions_not_patchable attempted0 current policy (st : State E) :
  findings current <> [] ->
  hasGateFailure current lint = false ->
  hasGateFailure current typecheck = false ->
  runModelActions H cwd attempted0 current policy false st
  = (Ret {| attempted :=
              attempted0
              ++ [RequiresManualOrModelPatch;
                  SkipModelPatch (dedup_gates [] (map f_gate (findings current)))];
            currentFailures := current;
            shortCircuitPass := false |}, st).
Proof.
  intros Hne Hlint Htype. unfold runModelActions.
  destruct (findings current) as [|f rest] eqn:Hfs; [congruence|].
  replace (Z.of_nat (length (f :: rest)) =? 0) with false
    by (symmetry; apply Z.eqb_neq; cbn [length]; lia).
  rewrite Hlint, Htype. cbn [orb negb].
  assert (Hother : hasGateFailure current build || hasGateFailure current lighthouse = true).
  { unfold hasGateFailure in *. rewrite Hfs in *. cbn [existsb] in *.
    apply orb_false_iff in Hlint as [Hl _]. apply orb_false_iff in Htype as [Ht _].
    destruct (f_gate f); cbn in *; try discriminate; rewrite ?orb_true_r; reflexivity. }
  rewrite Hother, <- app_assoc. reflexivity.
Qed.

End Effects.


(** X20. executeRepair (repair-command.js) in deterministic-only mode, which
    the command line selects with --deterministic-only or when Ollama is
    not installed: however the repair ends, neither model adapter was
    entered and no model was run. *)
Theorem X20_deterministic_only_runs_no_model
    {E} (H : Host E) (cwd : string) (maxAttemptsArg : JS.value)
    (st st' : State E) (r : Res RepairOutcome) :
  executeRepair H cwd maxAttemptsArg true st = (r, st') ->
  exists evs, history st' = history st ++ evs
              /\ Forall (fun ev => model_event ev = false) evs.
Proof.
  intros Hrun.
  apply (only_executeRepair H cwd (fun ev => negb (model_event ev))) in Hrun;
    try (intros; split_and?; reflexivity); [|discriminate].
  destruct Hrun as (evs & Hh & Hall & _). exists evs. split; [exact Hh|].
  eapply Forall_impl; [exact Hall|]. intros ev Hev. apply negb_true_iff. exact Hev.
Qed.

(** X21. runRepairActions (repair-command.js) on findings that no local repair
    covers. When the report has findings but none for lint or typecheck
    (so that build or lighthouse failed), nothing is run at all, neither
    the pre-fixer nor a model nor the gates: the actions are the two notes
    requires_manual_or_model_patch and skip_model_patch, the latter with
    the gates that failed, and no short-circuit is asked for. *)
Theorem X21_runRepairActions_not_patchable
    {E} (H : Host E) (cwd : string) (failures : FailuresReport) (policy : Policy)
    (st : State E) :
  findings failures <> [] ->
  hasGateFailure failures lint = false ->
  hasGateFailure failures typecheck = false ->
  runRepairActions H cwd failures policy false st
  = (Ret {| attempted :=
              [RequiresManualOrModelPatch;
               SkipModelPatch (dedup_gates [] (map f_gate (findings failures)))];
            currentFailures := failures;
            shortCircuitPass := false |}, st).
Proof.
  intros Hne Hlint Htype. unfold runRepairActions.
  rewrite (bind_run _ _ st [] st) by (apply runDeterministicPreFix_no_lint; exact Hlint).
  rewrite (bind_run _ _ st ([], failures) st) by reflexivity.
  cbn [fst snd]. apply (runModelActions_not_patchable H cwd [] failures policy st); assumption.
Qed.

(** X22. hasGit (env-check.js) guards every use of version control: on a
    machine without git neither executeRun (run-command.js, gitInfo) nor
    executeRepair (repair-command.js, diffSnapshot) spawns a git command,
    however they end. *)
Theorem X22_without_git_no_git_command
    {E} (H : Host E) (cwd : string) :
  hasGit H = false ->
  (forall mode changedFiles (st st' : State E) r,
      executeRun H cwd mode changedFiles st = (r, st') ->
      exists evs, history st' = history st ++ evs
                  /\ Forall (fun ev => git_event ev = false) evs)
  /\ (forall maxAttemptsArg deterministicOnly (st st' : State E) r,
        executeRepair H cwd maxAttemptsArg deterministicOnly st = (r, st') ->
        exists evs, history st' = history st ++ evs
                    /\ Forall (fun ev => git_event ev = false) evs).
Proof.
  intros Hgit.
  assert (Hevents : forall (st st' : State E),
            traced (fun ev => negb (git_event ev)) st st' ->
            exists evs, history st' = history st ++ evs
                        /\ Forall (fun ev => git_event ev = false) evs).
  { intros st st' (evs & Hh & Hall & _). exists evs. split; [exact Hh|].
    eapply Forall_impl; [exact Hall|]. intros ev Hev. apply negb_true_iff. exact Hev. }
  split.
  - intros mode changedFiles st st' r Hrun. apply Hevents.
    apply (only_executeRun H cwd (fun ev => negb (git_event ev))) in Hrun;
      try (intros; split_and?; reflexivity); [exact Hrun|].
    rewrite Hgit. discriminate.
  - intros maxAttemptsArg deterministicOnly st st' r Hrun. apply Hevents.
    apply (only_executeRepair H cwd (fun ev => negb (git_event ev))) in Hrun;
      try (intros; split_and?; reflexivity); [exact Hrun|].
    rewrite Hgit. discriminate.
Qed.
(* ===================================================================== *)
(** ** One attempt of the repair loop, case by case *)
(* ===================================================================== *)

(** The record of the short-circuit branch, and the record of an attempt
    that reran the gates and counted [count] findings. *)
Definition short_record (k patchLines before : Z) (acts : list Action) : AttemptRecord :=
  {| attempt := k; patch_lines := patchLines; before_findings := before;
     after_findings := 0; improved := true; worsened := false;
     attempt_status := pass; actions := acts |}.

Definition rerun_record (k patchLines before count : Z) (s : Status)
    (acts : list Action) : AttemptRecord :=
  {| attempt := k; patch_lines := patchLines; before_findings := before;
     after_findings := count; improved := count <? before; worsened := before <? count;
     attempt_status := s; actions := acts |}.

(** From [st] to [st'] events were performed, the last ones being [tail]. *)
Definition ends_with {E} (st st' : State E) (tail : list Event) : Prop :=
  exists evs, history st' = history st ++ evs ++ tail.

(** The restore of the backup of attempt [k], when [b] holds. *)
Definition restored {E} (H : Host E) (k : Z) (b : bool) : list Event :=
  if b then [Spawned (Restore k (hasRsync H))] else [].

(** The six ways through the body of the loop of executeRepair, for attempt
    [k] entered with the loop variables [ls] in state [st]. *)
Inductive attempt_case {E} (H : Host E) (policy : Policy) (k : Z) (ls : LoopState)
    (st : State E) : Step -> State E -> Prop :=
| time_cap_reached st' :
    ends_with st st' [Wrote EscalationFile] ->
    attempt_case H policy k ls st
      (Return (Escalated {| reason_code := UNKNOWN_BLOCKER;
                            message := TimeCapReached (timeCapMs policy);
                            evidence_attempts := None |})) st'
| budget_exceeded patchLines st' :
    JS.gt (JS.Int patchLines) (maxPatchLines policy) = true ->
    (hasGit H = false -> patchLines = 0) ->
    ends_with st st' [Spawned (Restore k (hasRsync H)); Wrote EscalationFile] ->
    attempt_case H policy k ls st
      (Return (Escalated {| reason_code := PATCH_BUDGET_EXCEEDED;
                            message := PatchBudgetExceededAt k patchLines
                                         (maxPatchLines policy);
                            evidence_attempts := None |})) st'
| short_circuit patchLines acts st' :
    (hasGit H = false -> patchLines = 0) ->
    ends_with st st' [Wrote RepairReportFile] ->
    attempt_case H policy k ls st
      (Return (Repaired {| attempts :=
                 ls_attempts ls ++ [short_record k patchLines (previousCount ls) acts] |}))
      st'
| rerun_passed patchLines acts st' :
    (hasGit H = false -> patchLines = 0) ->
    findings (ls_failures ls) <> [] ->
    ends_with st st' [Wrote RepairReportFile] ->
    attempt_case H policy k ls st
      (Return (Repaired {| attempts :=
                 ls_attempts ls
                 ++ [rerun_record k patchLines (previousCount ls) 0 pass acts] |}))
      st'
| no_improvement patchLines acts failures st' :
    let count := Z.of_nat (length (findings failures)) in
    let rec := rerun_record k patchLines (previousCount ls) count fail acts in
    let n := if improved rec then 0 else noImprovement ls + 1 in
    (hasGit H = false -> patchLines = 0) ->
    findings (ls_failures ls) <> [] ->
    findings failures <> [] ->
    JS.ge (JS.Int n) (abortOnNoImprovement policy) = true ->
    ends_with st st' (restored H k (worsened rec) ++ [Wrote EscalationFile]) ->
    attempt_case H policy k ls st
      (Return (Escalated {| reason_code := NO_IMPROVEMENT;
                            message := NoMeasurableImprovement n;
                            evidence_attempts := Some (ls_attempts ls ++ [rec]) |})) st'
| next_attempt patchLines acts failures st' :
    let count := Z.of_nat (length (findings failures)) in
    let rec := rerun_record k patchLines (previousCount ls) count fail acts in
    let n := if improved rec then 0 else noImprovement ls + 1 in
    (hasGit H = false -> patchLines = 0) ->
    findings (ls_failures ls) <> [] ->
    findings failures <> [] ->
    JS.ge (JS.Int n) (abortOnNoImprovement policy) = false ->
    ends_with st st' (restored H k (worsened rec)) ->
    attempt_case H policy k ls st
      (Continue {| ls_failures := failures; previousCount := count;
                   noImprovement := n; ls_attempts := ls_attempts ls ++ [rec] |}) st'.

Section Attempt.
Context {E : Type} (H : Host E) (cwd : string).

Definition extends (st st' : State E) : Prop :=
  exists evs, history st' = history st ++ evs.

Lemma extends_refl st : extends st st.
Proof. exists []. rewrite app_nil_r. reflexivity. Qed.

Lemma extends_trans st1 st2 st3 : extends st1 st2 -> extends st2 st3 -> extends st1 st3.
Proof.
  intros [evs1 H1] [evs2 H2]. exists (evs1 ++ evs2). rewrite H2, H1, app_assoc. reflexivity.
Qed.

Lemma extends_ends_with st1 st2 st3 tail :
  extends st1 st2 -> history st3 = history st2 ++ tail -> ends_with st1 st3 tail.
Proof. intros [evs H1] H2. exists evs. rewrite H2, H1, app_assoc. reflexivity. Qed.

Lemma run_extends {A} (m : M E A) st r st' :
  only (fun _ => true) m -> m st = (r, st') -> extends st st'.
Proof. intros Hm Hrun. apply Hm in Hrun as (evs & Hh & _). exists evs. exact Hh. Qed.

(** What executeRun has written when it returns. *)
Lemma executeRun_post m changedFiles (st : State E) result st' :
  executeRun H cwd m changedFiles st = (Ret result, st') ->
  exists payload,
    failures_json st' = Some payload
    /\ run_status result = status payload
    /\ (status payload = pass <-> findings payload = []).
Proof.
  unfold executeRun. intros Hrun.
  apply bind_ret_inv in Hrun as (config & st0 & _ & Hrun).
  apply bind_ret_inv in Hrun as (gateResult & st1 & _ & Hrun).
  apply bind_ret_inv in Hrun as ([] & st2 & _ & Hrun).
  destruct (negb (failures_schema_valid H _)); [discriminate Hrun|].
  unfold bind, writeFailures, log, ret in Hrun. cbn in Hrun.
  inversion Hrun; subst result st'; clear Hrun. eexists. cbn [failures_json].
  split; [reflexivity|]. cbn [run_status status findings]. split; [reflexivity|].
  destruct (run_findings gateResult) as [|f fs]; [split; reflexivity|].
  replace (0 <? Z.of_nat (length (f :: fs))) with true
    by (symmetry; apply Z.ltb_lt; cbn [length]; lia).
  split; discriminate.
Qed.

Lemma readFailures_inv (st : State E) failures st' :
  readFailures st = (Ret failures, st') -> failures_json st = Some failures /\ st' = st.
Proof.
  unfold readFailures. destruct (failures_json st); intros Hrun; inversion Hrun; auto.
Qed.

Lemma escalate_inv e (st : State E) r st' :
  escalate e st = (r, st') ->
  r = Ret (Escalated e) /\ history st' = history st ++ [Wrote EscalationFile].
Proof.
  unfold escalate, bind, writeEscalation, ret. intros Hrun. inversion Hrun; subst. auto.
Qed.

Lemma report_inv log (st : State E) r st' :
  report log st = (r, st') ->
  r = Ret (Repaired {| attempts := log |})
  /\ history st' = history st ++ [Wrote RepairReportFile].
Proof.
  unfold report, bind, writeRepairReport, ret. intros Hrun. inversion Hrun; subst. auto.
Qed.

Lemma restoreWorkspace_inv k (st : State E) r st' :
  restoreWorkspace H k st = (r, st') ->
  history st' = history st ++ [Spawned (Restore k (hasRsync H))].
Proof.
  unfold restoreWorkspace. intros Hrun.
  apply bind_inv in Hrun as [(t & st1 & Hcmd & Hret) | (e & Hcmd & _)].
  - apply runCommand_inv in Hcmd as (_ & _ & _ & Hh & _); [|reflexivity].
    apply ret_inv in Hret as [_ ->]. exact Hh.
  - apply runCommand_inv in Hcmd as (t & Hr & _); [discriminate | reflexivity].
Qed.

(** Every effect is admitted by the predicate that admits all. *)
Ltac any_effect :=
  first [ apply only_now | apply only_backupWorkspace | apply only_diffSnapshot
        | apply only_runRepairActions | apply only_executeRun | apply only_readFailures
        | apply only_executeSummarize | apply only_loadConfig ];
  intros; split_and?; reflexivity.

Ltac next_step Hext Hrun x stx :=
  let H1 := fresh "Hstep" in
  apply bind_ret_inv in Hrun as (x & stx & H1 & Hrun);
  let Hx := fresh "Hx" in
  pose proof H1 as Hx;
  apply run_extends in Hx; [|any_effect];
  let Hext' := fresh "Hext" in
  pose proof (extends_trans _ _ _ Hext Hx) as Hext';
  clear Hext Hx; rename Hext' into Hext.

Lemma attemptBody_cases policy deterministicOnly started k ls (st : State E) step st' :
  attemptBody H cwd policy deterministicOnly started k ls st = (Ret step, st') ->
  attempt_case H policy k ls st step st'.
Proof.
  unfold attemptBody. intros Hrun.
  pose proof (extends_refl st) as Hext.
  next_step Hext Hrun t st1. clear Hstep.
  destruct (JS.gt (JS.Int (t - started)) (timeCapMs policy)).
  { apply bind_ret_inv in Hrun as (out & st2 & Hesc & Hret).
    apply escalate_inv in Hesc as [Hout Hh]. inversion Hout; subst out.
    apply ret_inv in Hret as [Hr ->]. inversion Hr; subst step.
    apply time_cap_reached. eapply extends_ends_with; eassumption. }
  next_step Hext Hrun u st2. clear Hstep.
  next_step Hext Hrun pre st3. apply diffSnapshot_inv in Hstep as [_ Hpre].
  next_step Hext Hrun acts st4. rename Hstep into Hacts.
  next_step Hext Hrun post st5. apply diffSnapshot_inv in Hstep as [_ Hpost].
  assert (Hzero : hasGit H = false -> computePatchLines pre post = 0).
  { intros Hgit. rewrite (Hpre Hgit), (Hpost Hgit). apply computePatchLines_empty. }
  destruct (JS.gt (JS.Int (computePatchLines pre post)) (maxPatchLines policy)) eqn:Hbudget.
  { apply bind_ret_inv in Hrun as (u' & st6 & Hrestore & Hrun).
    apply restoreWorkspace_inv in Hrestore.
    apply bind_ret_inv in Hrun as (out & st7 & Hesc & Hret).
    apply escalate_inv in Hesc as [Hout Hh]. inversion Hout; subst out.
    apply ret_inv in Hret as [Hr ->]. inversion Hr; subst step.
    apply budget_exceeded; [exact Hbudget | exact Hzero|].
    eapply extends_ends_with; [exact Hext|].
    rewrite Hh, Hrestore, <- app_assoc. reflexivity. }
  destruct (shortCircuitPass acts) eqn:Hshort.
  { apply bind_ret_inv in Hrun as (out & st6 & Hrep & Hret).
    apply report_inv in Hrep as [Hout Hh]. inversion Hout; subst out.
    apply ret_inv in Hret as [Hr ->]. inversion Hr; subst step.
    apply (short_circuit H policy k ls st (computePatchLines pre post) (attempted acts));
      [exact Hzero|].
    eapply extends_ends_with; eassumption. }
  assert (Hfindings : findings (ls_failures ls) <> []).
  { intros Hnone.
    rewrite (runRepairActions_no_findings H cwd _ policy deterministicOnly st3 Hnone)
      in Hacts.
    inversion Hacts; subst acts. discriminate Hshort. }
  next_step Hext Hrun rerun st6. apply executeRun_post in Hstep
    as (payload & Hwritten & Hstatus & Hiff).
  next_step Hext Hrun failures st7. apply readFailures_inv in Hstep as [Hread ->].
  assert (failures = payload) by congruence. subst payload.
  next_step Hext Hrun u' st8. clear Hstep.
  destruct (run_status rerun) eqn:Hrerun.
  { apply bind_ret_inv in Hrun as (out & st9 & Hrep & Hret).
    apply report_inv in Hrep as [Hout Hh]. inversion Hout; subst out.
    apply ret_inv in Hret as [Hr ->]. inversion Hr; subst step.
    assert (Hnone : findings failures = []) by (apply Hiff; congruence).
    rewrite Hnone. cbn [length Z.of_nat].
    apply (rerun_passed H policy k ls st (computePatchLines pre post) (attempted acts));
      [exact Hzero | exact Hfindings|].
    eapply extends_ends_with; eassumption. }
  assert (Hsome : findings failures <> []).
  { intros Hnone. apply Hiff in Hnone. congruence. }
  apply bind_ret_inv in Hrun as (u'' & st9 & Hrestore & Hrun).
  assert (Hrestored :
    history st9
    = history st8
      ++ restored H k (previousCount ls <? Z.of_nat (length (findings failures)))).
  { unfold restored. destruct (previousCount ls <? Z.of_nat (length (findings failures))).
    - apply restoreWorkspace_inv in Hrestore. exact Hrestore.
    - apply ret_inv in Hrestore as [_ ->]. rewrite app_nil_r. reflexivity. }
  destruct (JS.ge _ (abortOnNoImprovement policy)) eqn:Htrip.
  { apply bind_ret_inv in Hrun as (out & st10 & Hesc & Hret).
    apply escalate_inv in Hesc as [Hout Hh]. inversion Hout; subst out.
    apply ret_inv in Hret as [Hr ->]. inversion Hr; subst step.
    apply (no_improvement H policy k ls st (computePatchLines pre post) (attempted acts)
             failures); [exact Hzero | exact Hfindings | exact Hsome | exact Htrip |].
    eapply extends_ends_with; [exact Hext|].
    rewrite Hh, Hrestored, <- app_assoc. reflexivity. }
  apply ret_inv in Hrun as [Hr ->]. inversion Hr; subst step.
  apply (next_attempt H policy k ls st (computePatchLines pre post) (attempted acts)
           failures); [exact Hzero | exact Hfindings | exact Hsome | exact Htrip |].
  eapply extends_ends_with; eassumption.
Qed.

(** A rule for the loop: an invariant [Inv] kept by every attempt that
    continues, and a property [Post] established by every attempt that
    returns and by the exhaustion of the attempts. *)
Lemma repairLoop_rule policy deterministicOnly started
    (Inv : nat -> Z -> LoopState -> State E -> Prop)
    (Post : RepairOutcome -> State E -> Prop) :
  (forall remaining k ls st step st',
      Inv (S remaining) k ls st ->
      attempt_case H policy k ls st step st' ->
      match step with
      | Return out => Post out st'
      | Continue ls' => Inv remaining (k + 1) ls' st'
      end) ->
  (forall k ls st st',
      Inv O k ls st ->
      history st' = history st ++ [Wrote EscalationFile] ->
      Post (Escalated {| reason_code := UNKNOWN_BLOCKER;
                         message := AttemptsExhausted (maxAttempts policy);
                         evidence_attempts := None |}) st') ->
  forall remaining k ls st out st',
    Inv remaining k ls st ->
    repairLoop H cwd policy deterministicOnly started remaining k ls st = (Ret out, st') ->
    Post out st'.
Proof.
  intros Hbody Hdone.
  induction remaining as [|remaining IH]; intros k ls st out st' Hinv Hrun;
    cbn [repairLoop] in Hrun.
  - apply escalate_inv in Hrun as [Hout Hh]. inversion Hout; subst out.
    eapply Hdone; eassumption.
  - apply bind_ret_inv in Hrun as (step & st1 & Hstep & Hrun).
    apply attemptBody_cases in Hstep. specialize (Hbody _ _ _ _ _ _ Hinv Hstep).
    destruct step as [out1 | ls1].
    + apply ret_inv in Hrun as [Hr ->]. inversion Hr; subst out1. exact Hbody.
    + eapply IH; eassumption.
Qed.

(** executeRepair, up to the loop. *)
Lemma executeRepair_inv maxAttemptsArg deterministicOnly (st : State E) out st' :
  executeRepair H cwd maxAttemptsArg deterministicOnly st = (Ret out, st') ->
  exists config failures started st0,
    loadConfig H cwd st = (Ret config, st)
    /\ failures_json st = Some failures
    /\ history st0 = history st
    /\ repairLoop H cwd (computePolicy H maxAttemptsArg config) deterministicOnly started
         (iterations (maxAttempts (computePolicy H maxAttemptsArg config))) 1
         {| ls_failures := failures;
            previousCount := Z.of_nat (length (findings failures));
            noImprovement := 0;
            ls_attempts := [] |} st0
       = (Ret out, st').
Proof.
  unfold executeRepair. intros Hrun.
  apply bind_ret_inv in Hrun as (config & st0 & Hconfig & Hrun).
  pose proof (loadConfig_state H cwd _ _ _ Hconfig) as ->.
  destruct (negb (forallb JS.converts _)); [discriminate Hrun|].
  apply bind_ret_inv in Hrun as (failures & st1 & Hread & Hrun).
  apply readFailures_inv in Hread as [Hread ->].
  apply bind_ret_inv in Hrun as (started & st2 & Hnow & Hrun).
  apply now_history in Hnow as (_ & _ & Hh & _).
  exists config, failures, started, st2. auto.
Qed.

End Attempt.

(* ===================================================================== *)
(** ** What the attempts log of a repair says *)
(* ===================================================================== *)

(** The attempts log a result carries: the report's, or the evidence of a
    NO_IMPROVEMENT escalation. *)
Definition attempts_of (out : RepairOutcome) : option (list AttemptRecord) :=
  match out with
  | Repaired r => Some (attempts r)
  | Escalated e => evidence_attempts e
  end.

(** The records are numbered from [k] on, and each starts from the count
    of findings the one before it ended with, the first from [before]. *)
Fixpoint chained (k before : Z) (log : list AttemptRecord) : Prop :=
  match log with
  | [] => True
  | r :: rest =>
      attempt r = k /\ before_findings r = before
      /\ chained (k + 1) (after_findings r) rest
  end.

Definition last_after (before : Z) (log : list AttemptRecord) : Z :=
  match last log with
  | Some r => after_findings r
  | None => before
  end.

(** An attempt that did not end the repair: the gates failed again. *)
Definition failed_attempt (r : AttemptRecord) : Prop :=
  attempt_status r = fail /\ 0 < after_findings r.

Section AttemptsLog.
Context {E : Type} (H : Host E) (cwd : string).

Lemma chained_snoc log : forall k before r,
  chained k before log ->
  attempt r = k + Z.of_nat (length log) ->
  before_findings r = last_after before log ->
  chained k before (log ++ [r]).
Proof.
  induction log as [|x log IH]; intros k before r Hlog Hk Hbefore.
  - cbn in *. split_and!; try done. lia.
  - destruct Hlog as (Hx & Hb & Hrest). cbn [app chained]. split_and!; try done.
    apply IH; [exact Hrest | cbn [length] in Hk; lia |].
    rewrite Hbefore. unfold last_after. rewrite last_cons.
    destruct (last log); reflexivity.
Qed.

Lemma last_after_snoc before log r : last_after before (log ++ [r]) = after_findings r.
Proof. unfold last_after. rewrite last_snoc. reflexivity. Qed.

(** The loop numbers its records consecutively and chains their counts. *)
Lemma repairLoop_chained policy deterministicOnly started total before remaining :
  forall k ls (st : State E) out st',
    k = 1 + Z.of_nat (length (ls_attempts ls)) ->
    chained 1 before (ls_attempts ls) ->
    previousCount ls = last_after before (ls_attempts ls) ->
    (length (ls_attempts ls) + remaining = total)%nat ->
    repairLoop H cwd policy deterministicOnly started remaining k ls st = (Ret out, st') ->
    forall log, attempts_of out = Some log ->
      chained 1 before log /\ (length log <= total)%nat.
Proof.
  intros k ls st out st' Hk Hchain Hprev Hlen Hrun.
  refine (repairLoop_rule H cwd policy deterministicOnly started
            (fun remaining k ls _ =>
               k = 1 + Z.of_nat (length (ls_attempts ls))
               /\ chained 1 before (ls_attempts ls)
               /\ previousCount ls = last_after before (ls_attempts ls)
               /\ (length (ls_attempts ls) + remaining = total)%nat)
            (fun out _ => forall log, attempts_of out = Some log ->
               chained 1 before log /\ (length log <= total)%nat)
            _ _ remaining k ls st out st' _ Hrun); [| | auto].
  - clear. intros remaining k ls st step st' (Hk & Hchain & Hprev & Hlen) Hcase.
    assert (Hsnoc : forall r,
              attempt r = k -> before_findings r = previousCount ls ->
              chained 1 before (ls_attempts ls ++ [r])
              /\ (length (ls_attempts ls ++ [r]) <= total)%nat).
    { intros r Hr Hb. split; [|rewrite length_app; cbn; lia].
      apply chained_snoc; [exact Hchain | lia | congruence]. }
    destruct Hcase; cbn [attempts_of evidence_attempts attempts].
    + discriminate.
    + discriminate.
    + intros log Hlog. inversion Hlog; subst log. apply Hsnoc; reflexivity.
    + intros log Hlog. inversion Hlog; subst log. apply Hsnoc; reflexivity.
    + intros log Hlog. inversion Hlog; subst log. apply Hsnoc; reflexivity.
    + cbn [ls_attempts previousCount]. rewrite last_after_snoc, length_app.
      cbn [length after_findings rerun_record].
      split_and!; try done; try lia.
      apply Hsnoc; reflexivity.
  - intros ? ? ? ? _ _ log Hlog. discriminate Hlog.
Qed.

(** The loop records failed attempts only, until the one that passes. *)
Lemma repairLoop_failed_attempts policy deterministicOnly started remaining :
  forall k ls (st : State E) out st',
    previousCount ls = Z.of_nat (length (findings (ls_failures ls))) ->
    Forall failed_attempt (ls_attempts ls) ->
    repairLoop H cwd policy deterministicOnly started remaining k ls st = (Ret out, st') ->
    match out with
    | Repaired r =>
        exists earlier final,
          attempts r = earlier ++ [final]
          /\ attempt_status final = pass /\ after_findings final = 0
          /\ improved final = true /\ worsened final = false
          /\ Forall failed_attempt earlier
    | Escalated e =>
        forall log, evidence_attempts e = Some log -> Forall failed_attempt log
    end.
Proof.
  intros k ls st out st' Hprev Hlog Hrun.
  refine (repairLoop_rule H cwd policy deterministicOnly started
            (fun _ _ ls _ =>
               previousCount ls = Z.of_nat (length (findings (ls_failures ls)))
               /\ Forall failed_attempt (ls_attempts ls))
            (fun out _ =>
               match out with
               | Repaired r =>
                   exists earlier final,
                     attempts r = earlier ++ [final]
                     /\ attempt_status final = pass /\ after_findings final = 0
                     /\ improved final = true /\ worsened final = false
                     /\ Forall failed_attempt earlier
               | Escalated e =>
                   forall log, evidence_attempts e = Some log -> Forall failed_attempt log
               end)
            _ _ remaining k ls st out st' _ Hrun); [| | auto].
  - clear. intros remaining k ls st step st' (Hprev & Hlog) Hcase.
    assert (Hfail : forall p acts (failures : FailuresReport),
              findings failures <> [] ->
              Forall failed_attempt
                (ls_attempts ls
                 ++ [rerun_record k p (previousCount ls)
                       (Z.of_nat (length (findings failures))) fail acts])).
    { intros p acts failures Hsome. apply Forall_app. split; [exact Hlog|].
      apply Forall_cons. split; [|constructor]. split; [reflexivity|]. cbn.
      destruct (findings failures); [congruence | cbn [length]; lia]. }
    destruct Hcase; cbn [evidence_attempts attempts].
    + discriminate.
    + discriminate.
    + eexists _, _. split; [reflexivity|]. cbn. auto.
    + eexists _, _. split; [reflexivity|]. cbn. split_and!; try done; [|lia].
      apply Z.ltb_lt. rewrite Hprev.
      destruct (findings (ls_failures ls)); [congruence | cbn [length]; lia].
    + intros log Heq. inversion Heq; subst log. apply Hfail. assumption.
    + cbn [previousCount ls_failures ls_attempts]. split; [reflexivity|].
      apply Hfail. assumption.
  - intros ? ? ? ? _ _ log Heq. discriminate Heq.
Qed.

(** Without git every attempt measures a patch of 0 lines. *)
Lemma repairLoop_without_git policy deterministicOnly started remaining :
  hasGit H = false ->
  forall k ls (st : State E) out st',
    Forall (fun r => patch_lines r = 0) (ls_attempts ls) ->
    repairLoop H cwd policy deterministicOnly started remaining k ls st = (Ret out, st') ->
    (forall log, attempts_of out = Some log -> Forall (fun r => patch_lines r = 0) log)
    /\ (forall e, out = Escalated e -> reason_code e = PATCH_BUDGET_EXCEEDED ->
          JS.gt (JS.Int 0) (maxPatchLines policy) = true).
Proof.
  intros Hgit k ls st out st' Hlog Hrun.
  refine (repairLoop_rule H cwd policy deterministicOnly started
            (fun _ _ ls _ => Forall (fun r => patch_lines r = 0) (ls_attempts ls))
            (fun out _ =>
               (forall log, attempts_of out = Some log ->
                            Forall (fun r => patch_lines r = 0) log)
               /\ (forall e, out = Escalated e -> reason_code e = PATCH_BUDGET_EXCEEDED ->
                     JS.gt (JS.Int 0) (maxPatchLines policy) = true))
            _ _ remaining k ls st out st' Hlog Hrun).
  - clear -Hgit. intros remaining k ls st step st' Hlog Hcase.
    assert (Hsnoc : forall r, patch_lines r = 0 ->
              Forall (fun r => patch_lines r = 0) (ls_attempts ls ++ [r])).
    { intros r Hr. apply Forall_app. split; [exact Hlog|]. repeat constructor. exact Hr. }
    destruct Hcase as [ | p st' Hgt Hzero _ | p acts st' Hzero _ | p acts st' Hzero _ _
                        | p acts failures st' count rec n Hzero _ _ _ _
                        | p acts failures st' count rec n Hzero _ _ _ _ ];
      cbn [attempts_of evidence_attempts attempts ls_attempts].
    + split; [discriminate | intros e He; inversion He; subst e; discriminate].
    + split; [discriminate|]. intros e He _. rewrite <- (Hzero Hgit). exact Hgt.
    + split; [|discriminate]. intros log Heq. inversion Heq. apply Hsnoc, Hzero, Hgit.
    + split; [|discriminate]. intros log Heq. inversion Heq. apply Hsnoc, Hzero, Hgit.
    + split; [|intros e He; inversion He; subst e; discriminate].
      intros log Heq. inversion Heq. apply Hsnoc, Hzero, Hgit.
    + apply Hsnoc, Hzero, Hgit.
  - intros ? ? ? ? _ _. split; [discriminate|].
    intros e He. inversion He; subst e. discriminate.
Qed.

(** The workspace is restored after an attempt that made things worse, and
    before the escalation for an exceeded budget. *)
Lemma repairLoop_restores policy deterministicOnly started (st0 : State E) remaining :
  forall k ls (st : State E) out st',
    0 <= previousCount ls ->
    (exists evs, history st = history st0 ++ evs
                 /\ forall r, r ∈ ls_attempts ls -> worsened r = true ->
                      Spawned (Restore (attempt r) (hasRsync H)) ∈ evs) ->
    repairLoop H cwd policy deterministicOnly started remaining k ls st = (Ret out, st') ->
    exists evs,
      history st' = history st0 ++ evs
      /\ (forall log r, attempts_of out = Some log -> r ∈ log -> worsened r = true ->
            Spawned (Restore (attempt r) (hasRsync H)) ∈ evs)
      /\ (forall e, out = Escalated e -> reason_code e = PATCH_BUDGET_EXCEEDED ->
            exists n p before,
              message e = PatchBudgetExceededAt n p (maxPatchLines policy)
              /\ evs = before ++ [Spawned (Restore n (hasRsync H)); Wrote EscalationFile]).
Proof.
  intros k ls st out st' Hpos Hinv Hrun.
  refine (repairLoop_rule H cwd policy deterministicOnly started
            (fun _ _ ls st =>
               0 <= previousCount ls
               /\ exists evs, history st = history st0 ++ evs
                 /\ forall r, r ∈ ls_attempts ls -> worsened r = true ->
                      Spawned (Restore (attempt r) (hasRsync H)) ∈ evs)
            (fun out st' =>
               exists evs,
                 history st' = history st0 ++ evs
                 /\ (forall log r, attempts_of out = Some log -> r ∈ log ->
                       worsened r = true ->
                       Spawned (Restore (attempt r) (hasRsync H)) ∈ evs)
                 /\ (forall e, out = Escalated e -> reason_code e = PATCH_BUDGET_EXCEEDED ->
                       exists n p before,
                         message e = PatchBudgetExceededAt n p (maxPatchLines policy)
                         /\ evs = before
                                  ++ [Spawned (Restore n (hasRsync H)); Wrote EscalationFile]))
            _ _ remaining k ls st out st' (conj Hpos Hinv) Hrun).
  - clear. intros remaining k ls st step st' (Hpos & evs & Hh & Hlog) Hcase.
    assert (Hsnoc : forall r evs1 tail,
              (worsened r = true -> Spawned (Restore (attempt r) (hasRsync H)) ∈ tail) ->
              forall x, x ∈ ls_attempts ls ++ [r] -> worsened x = true ->
                Spawned (Restore (attempt x) (hasRsync H)) ∈ evs ++ evs1 ++ tail).
    { intros r evs1 tail Hr x Hx Hw. rewrite !elem_of_app.
      apply elem_of_app in Hx as [Hx | Hx]; [left; apply Hlog; assumption|].
      apply list_elem_of_singleton in Hx. subst x. right. right. apply Hr. exact Hw. }
    assert (Hrestored : forall p count s acts tail,
              worsened (rerun_record k p (previousCount ls) count s acts) = true ->
              Spawned (Restore (attempt (rerun_record k p (previousCount ls) count s acts))
                         (hasRsync H))
              ∈ restored H k (worsened (rerun_record k p (previousCount ls) count s acts))
                ++ tail).
    { intros p count s acts tail Hw. rewrite Hw. cbn. left. }
    destruct Hcase as [ st' [evs1 Hends] | p st' Hgt Hzero [evs1 Hends]
                        | p acts st' Hzero [evs1 Hends]
                        | p acts st' Hzero Hsome [evs1 Hends]
                        | p acts failures st' count rec n Hzero Hsome Hcount Htrip [evs1 Hends]
                        | p acts failures st' count rec n Hzero Hsome Hcount Htrip [evs1 Hends] ];
      rewrite Hh, <- app_assoc in Hends;
      cbn [attempts_of evidence_attempts attempts ls_attempts].
    + eexists. split; [exact Hends|]. split; [discriminate|].
      intros e He. inversion He; subst e. discriminate.
    + eexists. split; [exact Hends|]. split; [discriminate|].
      intros e He _. inversion He; subst e. cbn [message].
      exists k, p, (evs ++ evs1). split; [reflexivity|]. rewrite app_assoc. reflexivity.
    + eexists. split; [exact Hends|]. split; [|discriminate].
      intros log r Heq. inversion Heq; subst log. apply Hsnoc. discriminate.
    + eexists. split; [exact Hends|]. split; [|discriminate].
      intros log r Heq. inversion Heq; subst log. apply Hsnoc. cbn. lia.
    + eexists. split; [exact Hends|]. split.
      * intros log r Heq. inversion Heq; subst log. apply Hsnoc. apply Hrestored.
      * intros e He. inversion He; subst e. discriminate.
    + split; [cbn [previousCount]; lia|].
      eexists. split; [exact Hends|].
      intros r Hr Hw.
      pose proof (Hsnoc rec evs1 (restored H k (worsened rec))) as Hall.
      apply Hall; [|exact Hr | exact Hw].
      intros Hrec. subst rec. rewrite <- (app_nil_r (restored _ _ _)). apply Hrestored.
      exact Hrec.
  - intros k0 ls0 st1 st2 (_ & evs & Hh & _) Hend. exists (evs ++ [Wrote EscalationFile]).
    split; [rewrite Hend, Hh, <- app_assoc; reflexivity|].
    split; [discriminate|]. intros e He. inversion He; subst e. discriminate.
Qed.

End AttemptsLog.

(** X23. executeRepair (repair-command.js), the attempts log. In the report of
    a repair that passed, and in the evidence of a NO_IMPROVEMENT
    escalation, the records are numbered 1, 2, 3, ... in order; the first
    starts from the number of findings of the report the repair was given,
    each later one from the count the record before it ended with; and
    there are at most maxAttempts of them. *)
Theorem X23_attempts_are_numbered_and_chained
    {E} (H : Host E) (cwd : string) (maxAttemptsArg : JS.value)
    (deterministicOnly : bool) (st st' : State E) (failures : FailuresReport)
    (out : RepairOutcome) (log : list AttemptRecord) :
  failures_json st = Some failures ->
  executeRepair H cwd maxAttemptsArg deterministicOnly st = (Ret out, st') ->
  attempts_of out = Some log ->
  chained 1 (Z.of_nat (length (findings failures))) log
  /\ exists config,
       loadConfig H cwd st = (Ret config, st)
       /\ (length log
           <= iterations (maxAttempts (computePolicy H maxAttemptsArg config)))%nat.
Proof.
  intros Hfile Hrun Hlog.
  apply executeRepair_inv in Hrun
    as (config & failures' & started & st0 & Hconfig & Hfile' & _ & Hloop).
  assert (failures' = failures) by congruence. subst failures'.
  eapply repairLoop_chained in Hloop as [Hchain Hlen];
    [ | reflexivity | exact I | reflexivity | reflexivity | exact Hlog ].
  split; [exact Hchain|]. exists config. split; [exact Hconfig | exact Hlen].
Qed.

(** X24. executeRepair (repair-command.js), the records of a repair. A repair
    that passes reports at least one attempt; its last record has status
    'pass', after_findings 0, improved true and worsened false, and every
    record before it has status 'fail' with findings left. The records
    carried by an escalation all have status 'fail' with findings left. *)
Theorem X24_repair_report_ends_with_the_pass
    {E} (H : Host E) (cwd : string) (maxAttemptsArg : JS.value)
    (deterministicOnly : bool) (st st' : State E) (out : RepairOutcome) :
  executeRepair H cwd maxAttemptsArg deterministicOnly st = (Ret out, st') ->
  match out with
  | Repaired r =>
      exists earlier final,
        attempts r = earlier ++ [final]
        /\ attempt_status final = pass /\ after_findings final = 0
        /\ improved final = true /\ worsened final = false
        /\ Forall failed_attempt earlier
  | Escalated e =>
      forall log, evidence_attempts e = Some log -> Forall failed_attempt log
  end.
Proof.
  intros Hrun.
  apply executeRepair_inv in Hrun
    as (config & failures & started & st0 & _ & _ & _ & Hloop).
  eapply repairLoop_failed_attempts in Hloop; [exact Hloop | reflexivity | constructor].
Qed.

(** X25. executeRepair (repair-command.js), the escalations. Of the five reason
    codes the tool declares, an escalation carries one of three:
    UNKNOWN_BLOCKER, for the time cap or for attempts exhausted, without
    evidence of attempts; PATCH_BUDGET_EXCEEDED, with the measured size
    that exceeds maxPatchLines, without evidence of attempts;
    NO_IMPROVEMENT, with the attempts log, which is not empty.
    ARCHITECTURAL_CHANGE_REQUIRED and FLAKY_EVALUATOR are never produced. *)
Theorem X25_escalation_reasons
    {E} (H : Host E) (cwd : string) (maxAttemptsArg : JS.value)
    (deterministicOnly : bool) (st st' : State E) (e : Escalation) :
  executeRepair H cwd maxAttemptsArg deterministicOnly st = (Ret (Escalated e), st') ->
  exists config,
    loadConfig H cwd st = (Ret config, st)
    /\ let policy := computePolicy H maxAttemptsArg config in
       (reason_code e = UNKNOWN_BLOCKER /\ evidence_attempts e = None
        /\ (message e = TimeCapReached (timeCapMs policy)
            \/ message e = AttemptsExhausted (maxAttempts policy)))
       \/ (reason_code e = PATCH_BUDGET_EXCEEDED /\ evidence_attempts e = None
           /\ exists n patchLines,
                message e = PatchBudgetExceededAt n patchLines (maxPatchLines policy)
                /\ JS.gt (JS.Int patchLines) (maxPatchLines policy) = true)
       \/ (reason_code e = NO_IMPROVEMENT
           /\ exists log n,
                evidence_attempts e = Some log /\ log <> []
                /\ message e = NoMeasurableImprovement n
                /\ JS.ge (JS.Int n) (abortOnNoImprovement policy) = true).
Proof.
  intros Hrun.
  apply executeRepair_inv in Hrun
    as (config & failures & started & st0 & Hconfig & _ & _ & Hloop).
  exists config. split; [exact Hconfig|]. cbv zeta.
  set (policy := computePolicy H maxAttemptsArg config) in *.
  refine (repairLoop_rule H cwd policy deterministicOnly started
            (fun _ _ _ _ => True)
            (fun out _ =>
               forall e, out = Escalated e ->
                 (reason_code e = UNKNOWN_BLOCKER /\ evidence_attempts e = None
                  /\ (message e = TimeCapReached (timeCapMs policy)
                      \/ message e = AttemptsExhausted (maxAttempts policy)))
                 \/ (reason_code e = PATCH_BUDGET_EXCEEDED /\ evidence_attempts e = None
                     /\ exists n patchLines,
                          message e
                          = PatchBudgetExceededAt n patchLines (maxPatchLines policy)
                          /\ JS.gt (JS.Int patchLines) (maxPatchLines policy) = true)
                 \/ (reason_code e = NO_IMPROVEMENT
                     /\ exists log n,
                          evidence_attempts e = Some log /\ log <> []
                          /\ message e = NoMeasurableImprovement n
                          /\ JS.ge (JS.Int n) (abortOnNoImprovement policy) = true))
            _ _ _ _ _ _ _ _ I Hloop e eq_refl).
  - clear. intros remaining k ls st step st' _ Hcase.
    destruct Hcase as [ | p st' Hgt _ _ | | | p acts failures st' count rec n _ _ _ Htrip _
                        | ]; try exact I.
    + intros e He. inversion He; subst e. left. cbn. auto.
    + intros e He. inversion He; subst e. right. left. cbn.
      split_and!; try done. exists k, p. split; [reflexivity | exact Hgt].
    + intros e He. discriminate He.
    + intros e He. discriminate He.
    + intros e He. inversion He; subst e. right. right. cbn. split; [reflexivity|].
      eexists _, _. split_and!; try done. intros Hnil. apply app_eq_nil in Hnil as [_ Hnil].
      discriminate Hnil.
  - intros ? ? ? ? _ _ e0 He. inversion He; subst e0. left. cbn. auto.
Qed.

(** X26. executeRepair (repair-command.js), rolling back. Whenever an attempt
    is recorded as worsened, the workspace was restored from the backup of
    that attempt; and an escalation for an exceeded patch budget is
    written right after the workspace was restored from the backup of the
    attempt it names. *)
Theorem X26_repair_restores_the_workspace
    {E} (H : Host E) (cwd : string) (maxAttemptsArg : JS.value)
    (deterministicOnly : bool) (st st' : State E) (out : RepairOutcome) :
  executeRepair H cwd maxAttemptsArg deterministicOnly st = (Ret out, st') ->
  exists evs,
    history st' = history st ++ evs
    /\ (forall log r, attempts_of out = Some log -> r ∈ log -> worsened r = true ->
          Spawned (Restore (attempt r) (hasRsync H)) ∈ evs)
    /\ (forall e, out = Escalated e -> reason_code e = PATCH_BUDGET_EXCEEDED ->
          exists n patchLines maxPatchLines before,
            message e = PatchBudgetExceededAt n patchLines maxPatchLines
            /\ evs = before ++ [Spawned (Restore n (hasRsync H)); Wrote EscalationFile]).
Proof.
  intros Hrun.
  apply executeRepair_inv in Hrun
    as (config & failures & started & st0 & _ & _ & Hh & Hloop).
  eapply (repairLoop_restores H cwd _ _ _ st0) in Hloop
    as (evs & Hevs & Hworse & Hbudget).
  - exists evs. split; [rewrite Hevs, Hh; reflexivity|]. split; [exact Hworse|].
    intros e He Hcode. destruct (Hbudget e He Hcode) as (n & p & before & Hm & Hb).
    eauto 6.
  - cbn. lia.
  - exists []. rewrite app_nil_r. split; [reflexivity|]. cbn. intros r Hr. inversion Hr.
Qed.

(** X27. diffSnapshot and executeRepair (repair-command.js) without git. On a
    machine without git both snapshots of the diff are empty, so every
    attempt is recorded with patch_lines 0, and the loop can only escalate
    with PATCH_BUDGET_EXCEEDED when maxPatchLines is a negative number: the
    budget of the loop is not enforced there. *)
Theorem X27_without_git_patch_lines_are_zero
    {E} (H : Host E) (cwd : string) (maxAttemptsArg : JS.value)
    (deterministicOnly : bool) (st st' : State E) (out : RepairOutcome) :
  hasGit H = false ->
  executeRepair H cwd maxAttemptsArg deterministicOnly st = (Ret out, st') ->
  (forall log, attempts_of out = Some log -> Forall (fun r => patch_lines r = 0) log)
  /\ (forall e, out = Escalated e -> reason_code e = PATCH_BUDGET_EXCEEDED ->
        exists config m,
          loadConfig H cwd st = (Ret config, st)
          /\ maxPatchLines (computePolicy H maxAttemptsArg config) = JS.Int m
          /\ m < 0).
Proof.
  intros Hgit Hrun.
  apply executeRepair_inv in Hrun
    as (config & failures & started & st0 & Hconfig & _ & _ & Hloop).
  eapply (repairLoop_without_git H cwd _ _ _ _ Hgit) in Hloop as [Hzero Hbudget];
    [|constructor].
  split; [exact Hzero|]. intros e He Hcode. specialize (Hbudget e He Hcode).
  exists config. unfold JS.gt in Hbudget.
  destruct (maxPatchLines (computePolicy H maxAttemptsArg config)) as [|m];
    [discriminate|].
  exists m. split; [exact Hconfig|]. split; [reflexivity | lia].
Qed.
(* ===================================================================== *)
(** ** How often a model is run *)
(* ===================================================================== *)

(** The test variable that replaces the answer of a model. *)
Definition mocked {E} (H : Host E) (purpose : Purpose) : Prop :=
  is_Some (env_truthy
             match purpose with
             | hint => QUICK_GATE_MOCK_OLLAMA_HINT (process_env H)
             | patch => QUICK_GATE_MOCK_OLLAMA_PATCH (process_env H)
             end).

(** The runs of [model] among the spawned commands [calls]: at most [n],
    none when the answer is mocked. *)
Definition model_calls {E} (H : Host E) (purpose : Purpose) (model : string)
    (timeout : JS.num) (n : nat) (calls : list Command) : Prop :=
  (length calls <= n)%nat
  /\ Forall (fun c => exists prompt, c = OllamaRun model prompt timeout) calls
  /\ (mocked H purpose -> calls = []).

Section ModelCalls.
Context {E : Type} (H : Host E) (cwd : string).

Lemma quiet_history {A} (m : M E A) (st : State E) r st' :
  only (fun _ => false) m -> m st = (r, st') -> history st' = history st.
Proof.
  intros Hm Hrun. apply Hm in Hrun as (evs & Hh & Hall & _).
  destruct evs as [|ev evs]; [rewrite app_nil_r in Hh; exact Hh|].
  inversion Hall; subst. discriminate.
Qed.

(** One request to a model: the command is spawned at most once, and once
    it is spawned the request returns, whatever the command did. *)
Lemma callOllama_calls model prompt timeout purpose (st : State E) r st' :
  callOllama H model prompt timeout purpose st = (r, st') ->
  exists calls,
    history st' = history st ++ map Spawned calls
    /\ model_calls H purpose model timeout 1 calls
    /\ (calls <> [] -> exists response, r = Ret response).
Proof.
  unfold callOllama, model_calls, mocked. intros Hrun.
  destruct (String.eqb model "").
  { inversion Hrun; subst. exists [].
    rewrite app_nil_r. split_and!; try done; try (cbn; lia); try constructor. }
  destruct (env_truthy _) as [mock|] eqn:Hmock.
  { inversion Hrun; subst. exists [].
    rewrite app_nil_r. split_and!; try done; try (cbn; lia); try constructor. }
  destruct (valid_timeout (timeout_of (OllamaRun model prompt timeout))) eqn:Hvalid.
  - apply bind_inv in Hrun as [(result & st1 & Hcmd & Hret) | (e & Hcmd & _)].
    + apply (runCommand_inv H) in Hcmd as (_ & _ & _ & Hh & _); [|exact Hvalid].
      exists [OllamaRun model prompt timeout].
      assert (st' = st1 /\ exists response, r = Ret response) as [-> Hr]
        by (destruct (negb _); inversion Hret; eauto).
      split_and!; try done. repeat constructor. eauto.
    + apply (runCommand_inv H) in Hcmd as (t & Hr & _); [discriminate | exact Hvalid].
  - apply bind_inv in Hrun as [(result & st1 & Hcmd & Hret) | (e & Hcmd & _)];
      apply (runCommand_refused H) in Hcmd as [Hr Hst]; try exact Hvalid;
      [discriminate Hr|].
    subst st'. exists []. rewrite app_nil_r.
    split_and!; try done; try (cbn; lia); try constructor.
Qed.

(** A loop whose body leaves the state alone leaves it alone. *)
Lemma foldM_state {A B} (f : B -> A -> M E B) :
  (forall acc x st r st', f acc x st = (r, st') -> st' = st) ->
  forall xs acc st r st', foldM f acc xs st = (r, st') -> st' = st.
Proof.
  intros Hf. induction xs as [|x rest IH]; intros acc st r st' Hrun; cbn [foldM] in Hrun.
  - inversion Hrun. reflexivity.
  - apply bind_inv in Hrun as [(acc' & st1 & Hstep & Hrun) | (e & Hstep & _)].
    + apply Hf in Hstep. subst st1. eapply IH. exact Hrun.
    + eapply Hf. exact Hstep.
Qed.

Lemma readSnippet_state rel maxLines (st : State E) r st' :
  readSnippet H cwd rel maxLines st = (r, st') -> st' = st.
Proof.
  unfold readSnippet. intros Hrun.
  apply bind_inv in Hrun as [(text & st1 & Hread & Hret) | (e & Hread & _)].
  - apply readFile_state in Hread. apply ret_inv in Hret as [_ ->]. exact Hread.
  - apply readFile_state in Hread. exact Hread.
Qed.

(** Gathering the failure context reads files and does nothing else. *)
Lemma gatherFailureContext_state failures (st : State E) r st' :
  gatherFailureContext H cwd failures st = (r, st') -> st' = st.
Proof.
  unfold gatherFailureContext. apply foldM_state.
  intros acc rel st0 r0 st0' Hstep.
  apply bind_inv in Hstep as [(sn & st1 & Hsn & Hret) | (e & Hsn & _)].
  - apply readSnippet_state in Hsn. apply ret_inv in Hret as [_ ->]. exact Hsn.
  - apply readSnippet_state in Hsn. exact Hsn.
Qed.

Lemma planOfOutput_state output (st : State E) r st' :
  planOfOutput H cwd output st = (r, st') -> st' = st.
Proof.
  unfold planOfOutput. destruct (normalizeEditPlan H _) as [[base|]|];
    intros Hrun; inversion Hrun; reflexivity.
Qed.

Lemma checkAndApplyPlan_history plan failures maxPatchLines (st : State E) r st' :
  checkAndApplyPlan H cwd plan failures maxPatchLines st = (r, st') ->
  history st' = history st.
Proof.
  apply quiet_history. unfold checkAndApplyPlan, applyEditPlan.
  assert (Happly : forall es touched, only (fun _ => false) (applyEdits H cwd es touched))
    by (intros es touched; apply only_applyEdits).
  only_tac.
Qed.

Lemma model_calls_none purpose model timeout n : model_calls H purpose model timeout n [].
Proof. unfold model_calls. split_and!; try done; try (cbn; lia); try constructor. Qed.

Lemma model_calls_app purpose model timeout calls1 calls2 :
  model_calls H purpose model timeout 1 calls1 ->
  model_calls H purpose model timeout 1 calls2 ->
  model_calls H purpose model timeout 2 (calls1 ++ calls2).
Proof.
  intros (Hl1 & Ha1 & Hm1) (Hl2 & Ha2 & Hm2). unfold model_calls.
  rewrite length_app, Forall_app. split_and!; try done; [lia|].
  intros Hmock. rewrite (Hm1 Hmock), (Hm2 Hmock). reflexivity.
Qed.

Lemma model_calls_more purpose model timeout calls :
  model_calls H purpose model timeout 1 calls ->
  model_calls H purpose model timeout 2 calls.
Proof. intros (Hl & Ha & Hm). unfold model_calls. split_and!; try done. lia. Qed.

(** The requests of runPatchModel: one, and one more when the first answer
    held no plan. *)
Lemma requestPlan_calls failures policy (st : State E) r st' :
  requestPlan H cwd failures policy st = (r, st') ->
  exists calls,
    history st' = history st ++ map Spawned calls
    /\ model_calls H patch (patchModel policy) (timeoutMs policy) 2 calls
    /\ (patchModel policy ∈ hintOnly policy -> calls = [] /\ r = Ret (inl PatchHintOnly)).
Proof.
  unfold requestPlan. intros Hrun. case_bool_decide as Hhint.
  { inversion Hrun; subst. exists []. rewrite app_nil_r.
    split_and!; try done. apply model_calls_none. }
  assert (Hdone : forall calls,
            history st' = history st ++ map Spawned calls ->
            model_calls H patch (patchModel policy) (timeoutMs policy) 2 calls ->
            exists calls,
              history st' = history st ++ map Spawned calls
              /\ model_calls H patch (patchModel policy) (timeoutMs policy) 2 calls
              /\ (patchModel policy ∈ hintOnly policy ->
                  calls = [] /\ r = Ret (inl PatchHintOnly))).
  { intros calls Hh Hcalls. exists calls. split_and!; try done. }
  apply bind_inv in Hrun as [(fileContext & st0 & Hctx & Hrun) | (e & Hctx & _)].
  2:{ apply gatherFailureContext_state in Hctx. subst st'.
      eapply (Hdone []); [rewrite app_nil_r; reflexivity | apply model_calls_none]. }
  apply gatherFailureContext_state in Hctx. subst st0.
  apply bind_inv in Hrun as [(response & st1 & Hcall & Hrun) | (e & Hcall & _)].
  2:{ apply callOllama_calls in Hcall as (calls & Hh & Hcalls & _).
      eapply Hdone; [exact Hh | apply model_calls_more, Hcalls]. }
  apply callOllama_calls in Hcall as (calls1 & Hh1 & Hcalls1 & _).
  destruct response as [reason | output].
  { inversion Hrun; subst. eapply Hdone; [exact Hh1 | apply model_calls_more, Hcalls1]. }
  apply bind_inv in Hrun as [(plan & st2 & Hplan & Hrun) | (e & Hplan & _)].
  2:{ apply planOfOutput_state in Hplan. subst.
      eapply Hdone; [exact Hh1 | apply model_calls_more, Hcalls1]. }
  apply planOfOutput_state in Hplan. subst st2.
  destruct plan as [p|].
  { inversion Hrun; subst. eapply Hdone; [exact Hh1 | apply model_calls_more, Hcalls1]. }
  assert (Hboth : forall (st3 : State E) calls2,
            history st3 = history st1 ++ map Spawned calls2 ->
            model_calls H patch (patchModel policy) (timeoutMs policy) 1 calls2 ->
            history st3 = history st ++ map Spawned (calls1 ++ calls2)
            /\ model_calls H patch (patchModel policy) (timeoutMs policy) 2
                 (calls1 ++ calls2)).
  { intros st3 calls2 Hh2 Hcalls2. split.
    - rewrite Hh2, Hh1, map_app, app_assoc. reflexivity.
    - apply model_calls_app; assumption. }
  apply bind_inv in Hrun as [(response' & st3 & Hcall & Hrun) | (e & Hcall & _)].
  2:{ apply callOllama_calls in Hcall as (calls2 & Hh2 & Hcalls2 & _).
      destruct (Hboth _ _ Hh2 Hcalls2) as [Hh Hcalls]. eapply Hdone; eassumption. }
  apply callOllama_calls in Hcall as (calls2 & Hh2 & Hcalls2 & _).
  destruct (Hboth _ _ Hh2 Hcalls2) as [Hh Hcalls].
  destruct response' as [reason | output'].
  { inversion Hrun; subst. eapply Hdone; eassumption. }
  apply bind_inv in Hrun as [(plan' & st4 & Hplan & Hrun) | (e & Hplan & _)].
  2:{ apply planOfOutput_state in Hplan. subst. eapply Hdone; eassumption. }
  apply planOfOutput_state in Hplan. subst st4.
  destruct plan'; inversion Hrun; subst; eapply Hdone; eassumption.
Qed.

End ModelCalls.

(** X28. runHintModel (model-adapter.js) survives its model. However it
    ends, it has run the hint model at most once, not at all when the answer
    is mocked, and has spawned nothing else; once the model has been run it
    returns, whatever the model did: a failure of the model is reported in
    the result, and an answer without hints, or one that is not JSON, gives
    no hints. It keeps at most six hints. *)
Theorem X28_runHintModel_survives_the_model
    {E} (H : Host E) (cwd : string) (failures : FailuresReport) (policy : ModelPolicy)
    (st st' : State E) (r : Res HintResult) :
  runHintModel H cwd failures policy st = (r, st') ->
  exists calls,
    history st' = history st ++ HintAdapterEntered :: map Spawned calls
    /\ model_calls H hint (hintModel policy) (timeoutMs policy) 1 calls
    /\ (calls <> [] -> exists result, r = Ret result)
    /\ (forall hints, r = Ret (HintAccepted hints) -> (length hints <= 6)%nat).
Proof.
  unfold runHintModel. intros Hrun.
  apply bind_inv in Hrun as [([] & st0 & Hlog & Hrun) | (e & Hlog & _)];
    [|discriminate Hlog].
  assert (Hh0 : history st0 = history st ++ [HintAdapterEntered])
    by (inversion Hlog; reflexivity).
  assert (Hnone : forall e, r = Throw e -> history st' = history st0 ->
            exists calls,
              history st' = history st ++ HintAdapterEntered :: map Spawned calls
              /\ model_calls H hint (hintModel policy) (timeoutMs policy) 1 calls
              /\ (calls <> [] -> exists result, r = Ret result)
              /\ (forall hints, r = Ret (HintAccepted hints) -> (length hints <= 6)%nat)).
  { intros e -> Hh. exists []. rewrite Hh, Hh0. split_and!; try done.
    apply model_calls_none. }
  apply bind_inv in Hrun as [(fileContext & st1 & Hctx & Hrun) | (e & Hctx & Hr)].
  2:{ apply gatherFailureContext_state in Hctx. subst st'. eapply Hnone; eauto. }
  apply gatherFailureContext_state in Hctx. subst st1.
  apply bind_inv in Hrun as [(response & st2 & Hcall & Hrun) | (e & Hcall & Hr)].
  2:{ apply callOllama_calls in Hcall as (calls & Hh & Hcalls & Hret).
      exists calls. rewrite Hh, Hh0, <- app_assoc. split_and!; try done.
      - intros Hne. destruct (Hret Hne) as [response Hresponse]. discriminate Hresponse.
      - intros hints Heq. rewrite Hr in Heq. discriminate Heq. }
  apply callOllama_calls in Hcall as (calls & Hh & Hcalls & _).
  exists calls. split; [|split; [exact Hcalls|]].
  - destruct response; apply ret_inv in Hrun as [_ ->];
      rewrite Hh, Hh0, <- app_assoc; reflexivity.
  - destruct response as [reason | output]; apply ret_inv in Hrun as [-> _].
    + split; [eauto | discriminate].
    + split; [eauto|]. intros hints Heq. inversion Heq; subst hints.
      destruct (JS.prop _ "hints") as [[| | | | |hs|]|]; cbn; try lia.
      rewrite length_take. lia.
Qed.

(** X29. runPatchModel (model-adapter.js) runs the patch model at most twice,
    the second time only to ask again after an answer that held no plan;
    it runs nothing when the patch model is one of the hint-only models
    (the result then says attempted: false), nor when the answer is mocked;
    and it spawns nothing else, however it ends. *)
Theorem X29_runPatchModel_asks_at_most_twice
    {E} (H : Host E) (cwd : string) (failures : FailuresReport) (policy : ModelPolicy)
    (maxPatchLines : JS.num) (st st' : State E) (r : Res PatchResult) :
  runPatchModel H cwd failures policy maxPatchLines st = (r, st') ->
  exists calls,
    history st' = history st ++ PatchAdapterEntered :: map Spawned calls
    /\ model_calls H patch (patchModel policy) (timeoutMs policy) 2 calls
    /\ (patchModel policy ∈ hintOnly policy -> calls = [] /\ r = Ret PatchHintOnly).
Proof.
  unfold runPatchModel. intros Hrun.
  apply bind_inv in Hrun as [([] & st0 & Hlog & Hrun) | (e & Hlog & _)];
    [|discriminate Hlog].
  assert (Hh0 : history st0 = history st ++ [PatchAdapterEntered])
    by (inversion Hlog; reflexivity).
  apply bind_inv in Hrun as [(got & st1 & Hgot & Hrun) | (e & Hgot & ->)];
    apply requestPlan_calls in Hgot as (calls & Hh & Hcalls & Hhint);
    exists calls; rewrite Hh0, <- app_assoc in Hh; cbn [app] in Hh.
  - destruct got as [early | plan].
    + inversion Hrun; subst. split_and!; try done.
      intros Hin. destruct (Hhint Hin) as [-> Hr]. inversion Hr. auto.
    + apply checkAndApplyPlan_history in Hrun. rewrite Hrun.
      split_and!; try done. intros Hin. destruct (Hhint Hin) as [_ Hr]. discriminate Hr.
  - split_and!; try done. intros Hin. destruct (Hhint Hin) as [_ Hr]. discriminate Hr.
Qed.

(* ===================================================================== *)
(** ** The excerpts of a failed command's output *)
(* ===================================================================== *)

(** [s.split('\n')]: only the line feed separates. *)
Fixpoint split_lf (s : string) : list string :=
  match s with
  | EmptyString => [EmptyString]
  | String c rest =>
      if Text.is_lf c then EmptyString :: split_lf rest
      else Text.cons_first c (split_lf rest)
  end.

(** gates.js, findingForExitCode: [output.split('\n').slice(0, 30).join('\n')],
    the stderr_excerpt and stdout_excerpt of the finding's [raw]. *)
Definition excerpt (output : string) : string :=
  Text.join_lines (take 30 (split_lf output)).

Section Excerpt.

Lemma split_lf_nonempty s : split_lf s <> [].
Proof.
  destruct s as [|c s]; cbn [split_lf]; [discriminate|].
  destruct (Text.is_lf c); [discriminate|].
  destruct (split_lf s); discriminate.
Qed.

Lemma prefix_empty s : String.prefix "" s = true.
Proof. destruct s; reflexivity. Qed.

Lemma prefix_cons c a b : String.prefix (String c a) (String c b) = String.prefix a b.
Proof. cbn [String.prefix]. destruct (ascii_dec c c); [reflexivity | congruence]. Qed.

Lemma take_cons_first n c ls :
  ls <> [] -> take (S n) (Text.cons_first c ls) = Text.cons_first c (take (S n) ls).
Proof. destruct ls as [|l rest]; [congruence | reflexivity]. Qed.

(** The first [n] lines, joined again, are the beginning of the text, and
    hold fewer than [n] line feeds. *)
Lemma join_take_split_lf s : forall n,
  String.prefix (Text.join_lines (take n (split_lf s))) s = true
  /\ (Text.count_lf (Text.join_lines (take n (split_lf s))) <= pred n)%nat
  /\ ((Text.count_lf s < n)%nat -> Text.join_lines (take n (split_lf s)) = s).
Proof.
  induction s as [|c s IH]; intros n.
  - destruct n as [|n].
    + split_and!; [reflexivity | vm_compute; lia | intros; lia].
    + cbn [split_lf take]. rewrite take_nil.
      split_and!; [reflexivity | vm_compute; lia | reflexivity].
  - destruct n as [|n].
    { cbn [take]. split_and!; [apply prefix_empty | vm_compute; lia | intros; lia]. }
    cbn [split_lf Text.count_lf]. destruct (Text.is_lf c) eqn:Hc.
    + cbn [take]. destruct (IH n) as (Hprefix & Hcount & Hall).
      destruct n as [|n].
      * cbn. split_and!; try done; lia.
      * pose proof (split_lf_nonempty s) as Hne.
        assert (Hsome : take (S n) (split_lf s) <> []).
        { destruct (split_lf s); [congruence | discriminate]. }
        rewrite (join_lines_cons _ _ Hsome).
        change ("" +:+ Text.lf +:+ Text.join_lines (take (S n) (split_lf s)))
          with (String Text.LF (Text.join_lines (take (S n) (split_lf s)))).
        apply Ascii.eqb_eq in Hc. subst c.
        rewrite prefix_cons. cbn [Text.count_lf]. unfold Text.is_lf at 1.
        rewrite (proj2 (Ascii.eqb_eq _ _) eq_refl).
        split_and!; [exact Hprefix | cbn [pred] in *; lia |].
        intros Hfew. rewrite Hall by lia. reflexivity.
    + pose proof (split_lf_nonempty s) as Hne.
      rewrite (take_cons_first _ _ _ Hne).
      assert (Hsome : take (S n) (split_lf s) <> []).
      { destruct (split_lf s); [congruence | discriminate]. }
      rewrite (join_lines_cons_first _ _ Hsome).
      destruct (IH (S n)) as (Hprefix & Hcount & Hall).
      rewrite prefix_cons. cbn [Text.count_lf]. rewrite Hc.
      split_and!; [exact Hprefix | cbn [pred] in *; lia |].
      intros Hfew. rewrite Hall by lia. reflexivity.
Qed.

End Excerpt.

(** X30. findingForExitCode (gates.js), the excerpts. The excerpt kept of
    the output of a failed command is the beginning of that output, holds
    at most 30 lines, and is the whole output when that has at most 30
    lines. *)
Theorem X30_excerpt_is_a_prefix (output : string) :
  startsWith (excerpt output) output = true
  /\ (length (split_lf (excerpt output)) <= 30)%nat
  /\ ((length (split_lf output) <= 30)%nat -> excerpt output = output).
Proof.
  assert (Hlen : forall s, length (split_lf s) = S (Text.count_lf s)).
  { induction s as [|c s IH]; [reflexivity|].
    cbn [split_lf Text.count_lf]. destruct (Text.is_lf c).
    - cbn [length]. rewrite IH. reflexivity.
    - rewrite cons_first_length; [rewrite IH; reflexivity | apply split_lf_nonempty]. }
  unfold excerpt, startsWith.
  destruct (join_take_split_lf output 30) as (Hprefix & Hcount & Hall).
  split; [exact Hprefix|]. split.
  - rewrite Hlen. cbn [pred] in Hcount. lia.
  - rewrite Hlen. intros Hfew. apply Hall. lia.
Qed.

(* ===================================================================== *)
(** ** The further properties on the concrete host *)
(* ===================================================================== *)

Module Sample.

(** The project with assertion results holding one failing record for the
    relative url [about]. *)
Definition with_assertions : State Z :=
  Demo.initial (<["/work/.lighthouseci/assertion-results.json" := Demo.assertion_text "about"]>
                  Demo.project) None.

(** A model's answer with prose around an empty object. *)
Definition chatty_answer : string := "Here is the plan: {} I hope it helps.".

(** A plan of two edits whose second names a file that does not exist. *)
Definition ghost_edit : Edit :=
  {| file := "src/ghost.ts"; start_line := 1; end_line := 1; replacement := "x" |}.

(** An edit that names the directory src. *)
Definition directory_edit : Edit :=
  {| file := "src"; start_line := 1; end_line := 1; replacement := "x" |}.

(** A numstat row: 3 lines added, 5 removed, in src/app.ts. *)
Definition numstat_text : string := "3" +:+ tab +:+ "5" +:+ tab +:+ "src/app.ts".

(** A changed-files list of two lines, ended by a line feed. *)
Definition changed_text : string :=
  "src/app.ts" +:+ Text.lf +:+ "lib/util.ts" +:+ Text.lf.

Definition with_changed_files : State Z :=
  Demo.initial (<["/tmp/changed.txt" := changed_text]> Demo.project) None.

(** A report whose only finding is a build failure. *)
Definition build_finding : Finding :=
  {| f_id := "build_exit_0"; f_gate := build; f_severity := critical;
     f_files := None; f_route := None; f_metric := None |}.

Definition build_report : FailuresReport :=
  {| mode := "full"; status := fail; changed_files := ["src/app.ts"];
     gates := [{| g_name := build; g_status := gate_fail |}];
     findings := [build_finding] |}.

(** The deterministic-only repair of the project whose gates keep failing,
    and the repair of the project whose report has no finding. *)
Definition failing_repair : Res RepairOutcome * State Z :=
  executeRepair Demo.failing_host Demo.cwd JS.VUndefined true
    (Demo.initial Demo.project (Some Demo.failing_report)).

Definition passing_repair : Res RepairOutcome * State Z :=
  executeRepair Demo.passing_host Demo.cwd JS.VUndefined false
    (Demo.initial Demo.project (Some Demo.clean_report)).

(** A canary run of the project with every command failing. *)
Definition failing_gates : Res GateRun * State Z :=
  runDeterministicGates Demo.failing_host Demo.cwd "canary" default_config ["src/app.ts"]
    (Demo.initial Demo.project None).

End Sample.
(** With no configuration and no scripts, lint has no command and
    typecheck falls back on the compiler. *)
Lemma X1_witness :
  resolveGateCommand lint (JS.VObj []) (JS.VObj []) = Some None
  /\ exists s, resolveGateCommand typecheck (JS.VObj []) (JS.VObj []) = Some (Some (JS.VStr s)).
Proof.
  destruct (X1_resolveGateCommand_null_iff lint (JS.VObj []) []) as (_ & _ & Hnull).
  destruct (X1_resolveGateCommand_null_iff typecheck (JS.VObj []) []) as (_ & Hfall & _).
  split.
  - apply Hnull. split; [left; reflexivity | split; reflexivity].
  - apply Hfall; [reflexivity | left; reflexivity].
Defined.

Lemma X2_witness :
  exists fs,
    parseLighthouseFindings Demo.failing_host Demo.cwd Sample.with_assertions
    = (Ret fs, Sample.with_assertions)
    /\ map f_route fs = [Some "about"].
Proof.
  destruct (parseLighthouseFindings Demo.failing_host Demo.cwd Sample.with_assertions)
    as [[fs|err] st'] eqn:Hrun; [|vm_compute in Hrun; discriminate Hrun].
  destruct (X2_parseLighthouseFindings_one_per_failing_row _ _ _ _ _ Hrun) as (-> & _ & _).
  exists fs. split; [reflexivity|].
  vm_compute in Hrun. inversion Hrun. reflexivity.
Defined.

Lemma X3_witness :
  exists f,
    lighthouseFinding Demo.failing_host Demo.row_about = Some (Some f)
    /\ f_id f = "lh__about_lighthouse_assertion"
    /\ all_chars id_char (f_id f) = true.
Proof.
  destruct (lighthouseFinding Demo.failing_host Demo.row_about) as [[f|]|] eqn:Hf;
    [| vm_compute in Hf; discriminate Hf | vm_compute in Hf; discriminate Hf].
  destruct (X3_lighthouse_finding_id_is_identifier Demo.failing_host _ _ Hf) as [_ Hid].
  exists f. split; [reflexivity|]. split; [|exact Hid].
  vm_compute in Hf. inversion Hf. reflexivity.
Defined.

Lemma X4_witness :
  parseJsonObject Demo.passing_host Sample.chatty_answer = JS.VObj [].
Proof.
  rewrite (X4_parseJsonObject_skips_prose Demo.passing_host Sample.chatty_answer
             "Here is the plan: " "" " I hope it helps."); reflexivity.
Defined.

Lemma X5_witness :
  exists plan,
    normalizeEditPlan Demo.passing_host Demo.plan_value = Some (Some plan)
    /\ edits plan <> [].
Proof.
  destruct (normalizeEditPlan Demo.passing_host Demo.plan_value) as [[plan|]|] eqn:Hplan;
    [| vm_compute in Hplan; discriminate Hplan | vm_compute in Hplan; discriminate Hplan].
  destruct (X5_normalizeEditPlan_keeps_usable_edits _ _ _ Hplan) as (Hne & _).
  exists plan. split; [reflexivity | exact Hne].
Defined.

Lemma X8_witness :
  exists lines touched plan,
    fst (runPatchModel Demo.patching_host Demo.cwd Demo.failing_report
           (getModelRoutingPolicy Demo.patching_host) (JS.Int 20)
           (Demo.initial Demo.project None))
    = Ret (PatchAccepted 100 lines touched plan).
Proof.
  destruct (runPatchModel Demo.patching_host Demo.cwd Demo.failing_report
              (getModelRoutingPolicy Demo.patching_host) (JS.Int 20)
              (Demo.initial Demo.project None)) as [[r|err] st'] eqn:Hrun;
    [|vm_compute in Hrun; discriminate Hrun].
  destruct (X8_runPatchModel_score_never_too_low _ _ _ _ _ _ _ _ Hrun) as [_ Hscore].
  destruct r as [| | | | | |? ?|sc lines touched plan];
    try (vm_compute in Hrun; discriminate Hrun).
  destruct (Hscore sc lines touched plan eq_refl) as [-> | [_ Hnan]]; [|discriminate Hnan].
  exists lines, touched, plan. reflexivity.
Defined.

Lemma X9_witness :
  fst (applyEditPlan Demo.passing_host Demo.cwd Demo.blank_plan
         (Demo.initial Demo.project None))
  = Ret (inr (touchedFiles (scoreEditPlan (edits Demo.blank_plan) Demo.failing_report
                              (JS.Int 20)))).
Proof.
  destruct (applyEditPlan Demo.passing_host Demo.cwd Demo.blank_plan
              (Demo.initial Demo.project None)) as [[[failure|touched]|err] st'] eqn:Hrun;
    [vm_compute in Hrun; discriminate Hrun | | vm_compute in Hrun; discriminate Hrun].
  destruct (X9_applyEditPlan_touched_files _ _ _ Demo.failing_report (JS.Int 20) _ _ _ Hrun)
    as [-> _].
  reflexivity.
Defined.

(** After the edit of src/app.ts, an edit of a file that does not exist
    fails the plan, and an edit of the directory src throws; src/app.ts
    stays rewritten. *)
Lemma X10_witness :
  exists st1,
    applyEditPlan Demo.passing_host Demo.cwd
      {| summary := ""; edits := [Demo.blank_line_2; Sample.ghost_edit; Demo.blank_line_2] |}
      (Demo.initial Demo.project None)
    = (Ret (inl (missing_file "src/ghost.ts")), st1)
    /\ applyEditPlan Demo.passing_host Demo.cwd
         {| summary := ""; edits := [Demo.blank_line_2; Sample.directory_edit] |}
         (Demo.initial Demo.project None)
       = (Throw EISDIR, st1)
    /\ tree st1 !! "/work/src/app.ts"
       = Some ("export const v = 1;" +:+ Text.lf +:+ Text.lf).
Proof.
  destruct (applyEditPlan Demo.passing_host Demo.cwd Demo.blank_plan
              (Demo.initial Demo.project None)) as [[[failure|touched]|err] st1] eqn:Hrun;
    [vm_compute in Hrun; discriminate Hrun | | vm_compute in Hrun; discriminate Hrun].
  pose proof (X10_applyEditPlan_stops_at_first_failure Demo.passing_host Demo.cwd
                "remove marker" "" [Demo.blank_line_2] [Demo.blank_line_2]
                Sample.ghost_edit _ _ _ Hrun) as Hstop.
  assert (Hfile : tree st1 !! path_join Demo.passing_host Demo.cwd (file Sample.ghost_edit)
                  = None).
  { vm_compute in Hrun. inversion Hrun. vm_compute. reflexivity. }
  rewrite Hfile in Hstop.
  pose proof (X10_applyEditPlan_stops_at_first_failure Demo.passing_host Demo.cwd
                "remove marker" "" [Demo.blank_line_2] []
                Sample.directory_edit _ _ _ Hrun) as Hthrow.
  assert (Hdir : tree st1 !! path_join Demo.passing_host Demo.cwd
                                (file Sample.directory_edit) = None).
  { vm_compute in Hrun. inversion Hrun. vm_compute. reflexivity. }
  rewrite Hdir in Hthrow.
  exists st1. split; [exact Hstop|]. split; [exact Hthrow|].
  vm_compute in Hrun. inversion Hrun. vm_compute. reflexivity.
Defined.

Lemma X12_witness :
  numstat_row Demo.passing_host ∅ Sample.numstat_text = {[ "src/app.ts" := 8 ]}.
Proof.
  destruct (X12_numstat_row_counts Demo.passing_host ∅ "3" "5" "src/app.ts") as [Hrow _];
    [reflexivity | reflexivity | reflexivity | discriminate |].
  unfold Sample.numstat_text. rewrite Hrow. reflexivity.
Defined.

Lemma X14_witness :
  loadChangedFiles Demo.passing_host "/tmp/changed.txt" Sample.with_changed_files
  = inr ["src/app.ts"; "lib/util.ts"].
Proof.
  apply (X14_loadChangedFiles_reads_lines Demo.passing_host "/tmp/changed.txt"
           Sample.changed_text).
  - discriminate.
  - repeat constructor; discriminate.
  - vm_compute. reflexivity.
  - vm_compute. reflexivity.
  - reflexivity.
Defined.

Lemma X15_witness :
  parseArgs ["--mode"; "full"; "--mode"; "canary"; "--changed-files"; "c.txt"] !! "mode"
  = Some (ArgText "canary")
  /\ parseArgs ["--input"; "f.json"; "--deterministic-only"] !! "deterministic-only"
     = Some ArgTrue
  /\ parseArgs ["--input"; "f.json"; "--__proto__"; "x"] !! "__proto__" = None.
Proof.
  split_and!.
  - destruct (X15_parseArgs_last_occurrence ["--mode"; "full"]
                ["canary"; "--changed-files"; "c.txt"] "mode") as [Hmode _].
    + intros Hin. apply list_elem_of_In in Hin. cbn in Hin.
      destruct Hin as [Heq | [Heq | [Heq | []]]]; discriminate Heq.
    + apply Hmode. discriminate.
  - destruct (X15_parseArgs_last_occurrence ["--input"; "f.json"] []
                "deterministic-only") as [Hflag _].
    + intros Hin. inversion Hin.
    + apply Hflag. discriminate.
  - destruct (X15_parseArgs_last_occurrence ["--input"; "f.json"] ["x"] "__proto__")
      as [_ Hproto].
    + intros Hin. apply list_elem_of_In in Hin. cbn in Hin.
      destruct Hin as [Heq | []]; discriminate Heq.
    + exact Hproto.
Defined.

Lemma X16_witness :
  exists result st',
    Sample.failing_gates = (Ret result, st')
    /\ map g_name (run_gates result) = [lint; typecheck; build; lighthouse]
    /\ (length (run_traces result) <= 3)%nat.
Proof.
  destruct Sample.failing_gates as [[result|err] st'] eqn:Hrun;
    [|vm_compute in Hrun; discriminate Hrun].
  destruct (X16_runDeterministicGates_gates _ _ _ _ _ _ _ _ Hrun)
    as (Hnames & _ & _ & _ & Hlen & _).
  exists result, st'. split; [reflexivity|]. split; [exact Hnames | exact Hlen].
Defined.

Lemma X17_witness :
  exists result st',
    Sample.failing_gates = (Ret result, st')
    /\ forall f, f ∈ run_findings result ->
         {| g_name := f_gate f; g_status := gate_fail |} ∈ run_gates result.
Proof.
  destruct Sample.failing_gates as [[result|err] st'] eqn:Hrun;
    [|vm_compute in Hrun; discriminate Hrun].
  destruct (X17_findings_iff_failed_gates _ _ _ _ _ _ _ _ Hrun) as (Hfindings & _).
  exists result, st'. split; [reflexivity | exact Hfindings].
Defined.

Lemma X18_witness :
  exists result st',
    Sample.failing_gates = (Ret result, st')
    /\ scopeForFinding (missingCommandFinding lint ["src/app.ts"]) = single_file
    /\ (missingCommandFinding lint ["src/app.ts"] ∈ run_findings result ->
        exists one, ["src/app.ts"] = [one]).
Proof.
  destruct Sample.failing_gates as [[result|err] st'] eqn:Hrun;
    [|vm_compute in Hrun; discriminate Hrun].
  exists result, st'. split; [reflexivity|]. split; [reflexivity|].
  intros Hin.
  pose proof (X18_scope_of_gate_findings _ _ _ _ _ _ _ _ _ Hrun Hin) as Hscope.
  cbn in Hscope. destruct Hscope as (one & Hone & _). exists one. exact Hone.
Defined.


Lemma X20_witness :
  exists evs,
    history (snd Sample.failing_repair) = evs
    /\ Forall (fun ev => model_event ev = false) evs.
Proof.
  destruct Sample.failing_repair as [r st'] eqn:Hrun.
  destruct (X20_deterministic_only_runs_no_model _ _ _ _ _ _ Hrun) as (evs & Hh & Hall).
  exists evs. split; [exact Hh | exact Hall].
Defined.

Lemma X21_witness :
  fst (runRepairActions Demo.failing_host Demo.cwd Sample.build_report
         (computePolicy Demo.failing_host JS.VUndefined default_config) false
         (Demo.initial Demo.project (Some Sample.build_report)))
  = Ret {| attempted := [RequiresManualOrModelPatch; SkipModelPatch [build]];
           currentFailures := Sample.build_report;
           shortCircuitPass := false |}.
Proof.
  rewrite (X21_runRepairActions_not_patchable Demo.failing_host Demo.cwd Sample.build_report);
    [reflexivity | discriminate | reflexivity | reflexivity].
Defined.

Lemma X22_witness :
  exists evs,
    history (snd Sample.failing_repair) = evs
    /\ Forall (fun ev => git_event ev = false) evs.
Proof.
  destruct (X22_without_git_no_git_command Demo.failing_host Demo.cwd eq_refl) as [_ Hrepair].
  destruct Sample.failing_repair as [r st'] eqn:Hrun.
  destruct (Hrepair _ _ _ _ _ Hrun) as (evs & Hh & Hall).
  exists evs. split; [exact Hh | exact Hall].
Defined.

Lemma X23_witness :
  exists e log,
    fst Sample.failing_repair = Ret (Escalated e)
    /\ evidence_attempts e = Some log
    /\ chained 1 1 log /\ (length log <= 3)%nat.
Proof.
  destruct Sample.failing_repair as [[[r|e]|err] st'] eqn:Hrun;
    [vm_compute in Hrun; discriminate Hrun | | vm_compute in Hrun; discriminate Hrun].
  destruct (evidence_attempts e) as [log|] eqn:Hlog;
    [|vm_compute in Hrun; inversion Hrun; subst e; discriminate Hlog].
  destruct (X23_attempts_are_numbered_and_chained Demo.failing_host Demo.cwd JS.VUndefined true
              (Demo.initial Demo.project (Some Demo.failing_report)) st'
              Demo.failing_report (Escalated e) log eq_refl Hrun Hlog)
    as (Hchain & config & Hconfig & Hlen).
  vm_compute in Hconfig. inversion Hconfig; subst config.
  exists e, log. split; [reflexivity|]. split; [exact Hlog|].
  split; [exact Hchain | exact Hlen].
Defined.

Lemma X24_witness :
  exists r final,
    fst Sample.passing_repair = Ret (Repaired r)
    /\ attempts r = [final] /\ attempt_status final = pass /\ after_findings final = 0.
Proof.
  destruct Sample.passing_repair as [[[r|e]|err] st'] eqn:Hrun;
    [| vm_compute in Hrun; discriminate Hrun | vm_compute in Hrun; discriminate Hrun].
  destruct (X24_repair_report_ends_with_the_pass _ _ _ _ _ _ _ Hrun)
    as (earlier & final & Hlog & Hpass & Hafter & _).
  assert (Hone : length (attempts r) = 1%nat)
    by (vm_compute in Hrun; inversion Hrun; reflexivity).
  rewrite Hlog, length_app in Hone. cbn in Hone.
  destruct earlier; [|cbn in Hone; lia].
  exists r, final. split; [reflexivity|]. auto.
Defined.

Lemma X25_witness :
  exists e,
    fst Sample.failing_repair = Ret (Escalated e)
    /\ reason_code e = NO_IMPROVEMENT /\ evidence_attempts e <> None.
Proof.
  destruct Sample.failing_repair as [[[r|e]|err] st'] eqn:Hrun;
    [vm_compute in Hrun; discriminate Hrun | | vm_compute in Hrun; discriminate Hrun].
  destruct (X25_escalation_reasons _ _ _ _ _ _ _ Hrun) as (config & _ & Hreason).
  assert (Hcode : reason_code e = NO_IMPROVEMENT)
    by (vm_compute in Hrun; inversion Hrun; reflexivity).
  exists e. split; [reflexivity|]. split; [exact Hcode|].
  cbv zeta in Hreason.
  destruct Hreason as [(Hc & _) | [(Hc & _) | (_ & log & n & Hlog & _)]];
    [congruence | congruence | rewrite Hlog; discriminate].
Defined.

Lemma X26_witness :
  exists e log,
    fst Sample.failing_repair = Ret (Escalated e)
    /\ evidence_attempts e = Some log
    /\ forall r, r ∈ log -> worsened r = true ->
         Spawned (Restore (attempt r) true) ∈ history (snd Sample.failing_repair).
Proof.
  destruct Sample.failing_repair as [[[r|e]|err] st'] eqn:Hrun;
    [vm_compute in Hrun; discriminate Hrun | | vm_compute in Hrun; discriminate Hrun].
  destruct (evidence_attempts e) as [log|] eqn:Hlog;
    [|vm_compute in Hrun; inversion Hrun; subst e; discriminate Hlog].
  destruct (X26_repair_restores_the_workspace _ _ _ _ _ _ _ Hrun) as (evs & Hh & Hworse & _).
  exists e, log. split; [reflexivity|]. split; [exact Hlog|].
  intros r Hr Hw. cbn [snd]. rewrite Hh. apply elem_of_app. right.
  exact (Hworse log r Hlog Hr Hw).
Defined.

Lemma X27_witness :
  exists e log,
    fst Sample.failing_repair = Ret (Escalated e)
    /\ evidence_attempts e = Some log
    /\ Forall (fun r => patch_lines r = 0) log.
Proof.
  destruct Sample.failing_repair as [[[r|e]|err] st'] eqn:Hrun;
    [vm_compute in Hrun; discriminate Hrun | | vm_compute in Hrun; discriminate Hrun].
  destruct (evidence_attempts e) as [log|] eqn:Hlog;
    [|vm_compute in Hrun; inversion Hrun; subst e; discriminate Hlog].
  destruct (X27_without_git_patch_lines_are_zero Demo.failing_host _ _ _ _ _ _ eq_refl Hrun)
    as [Hzero _].
  exists e, log. split; [reflexivity|]. split; [exact Hlog|]. apply Hzero. exact Hlog.
Defined.

Lemma X28_witness :
  exists calls,
    history (snd (runHintModel Demo.failing_host Demo.cwd Demo.failing_report
                    (getModelRoutingPolicy Demo.failing_host)
                    (Demo.initial Demo.project None)))
    = HintAdapterEntered :: map Spawned calls
    /\ (length calls <= 1)%nat.
Proof.
  destruct (runHintModel Demo.failing_host Demo.cwd Demo.failing_report
              (getModelRoutingPolicy Demo.failing_host)
              (Demo.initial Demo.project None)) as [r st'] eqn:Hrun.
  destruct (X28_runHintModel_survives_the_model _ _ _ _ _ _ _ Hrun)
    as (calls & Hh & (Hlen & _) & _).
  exists calls. split; [exact Hh | exact Hlen].
Defined.

Lemma X29_witness :
  history (snd (runPatchModel Demo.patching_host Demo.cwd Demo.failing_report
                  (getModelRoutingPolicy Demo.patching_host) (JS.Int 20)
                  (Demo.initial Demo.project None)))
  = [PatchAdapterEntered].
Proof.
  destruct (runPatchModel Demo.patching_host Demo.cwd Demo.failing_report
              (getModelRoutingPolicy Demo.patching_host) (JS.Int 20)
              (Demo.initial Demo.project None)) as [r st'] eqn:Hrun.
  destruct (X29_runPatchModel_asks_at_most_twice _ _ _ _ _ _ _ _ Hrun)
    as (calls & Hh & (_ & _ & Hmock) & _).
  cbn [snd]. rewrite Hh, Hmock; [reflexivity|]. vm_compute. eauto.
Defined.

